(** * Kafka consumers of patron: group and simple consumption

    A shallow embedding of the three consumer implementations of the
    repository,

    - [Group]    : src/async/kafka/group/group.go   (package group)
    - [Group000] : src/unnamed/part_000             (package group, the
                   variant whose options mutate a [ConsumerConfig])
    - [Simple]   : src/unnamed/part_001             (package simple)

    together with the properties of the consumption engine: factory
    validation, option application, queue capacities, the claim handler,
    the partition pumps, lag measurement, cancellation and shutdown; and
    of

    - [Group000Consume] : [Consume] and [Close] of src/unnamed/part_000,
                   whose goroutines read the client through the consumer
    - [Patron]   : src/builder.go                   (package patron, the
                   service builder)

    Conventions.  Go strings are [string]; [int], [int32] and [int64] values
    are [Z]; a slice is a [list]; a nil pointer, interface or func value is
    [None].  Sequential code is written in state-passing style over a
    [world] that holds what the goroutines share (contexts, client handles,
    the goroutines themselves and the trace of observable events).  The
    goroutines are run by a step relation, one rule per program point at
    which a goroutine can be scheduled.  What the sarama client library
    answers is not part of this repository: it enters as section variables
    (for the calls made by sequential code) or as the free choice of a step
    rule (for what a blocked goroutine receives). *)

From stdpp Require Import base tactics option list strings relations gmap.
From Stdlib Require Import ZArith Lia Strings.Byte.

Local Open Scope Z_scope.

(* ===================================================================== *)
(** ** Go values shared by the three files *)
(* ===================================================================== *)

Module Go.

(** A Go [error]: the text [Error()] returns and, for a wrapping error,
    the error [Unwrap()] returns. *)
Inductive error : Type :=
| errorString (text : string)
| wrapError (text : string) (cause : error).

Definition Error (e : error) : string :=
  match e with errorString s | wrapError s _ => s end.

Definition Unwrap (e : error) : option error :=
  match e with errorString _ => None | wrapError _ c => Some c end.

(** [fmt.Errorf(prefix + "%w", err)]: the text is formatted and [err] is
    kept as the cause. *)
Definition Errorf_w (prefix : string) (err : error) : error :=
  wrapError (prefix +:+ Error err) err.

(** [fmt.Errorf] with [%v] verbs only: nothing but the formatted text. *)
Definition Errorf_v (text : string) : error :=
  errorString text.

(** What a Go function with results [(A, error)] gives back. *)
Inductive result (A : Type) : Type :=
| Ok (a : A)
| Err (e : error).
Arguments Ok {A} a.
Arguments Err {A} e.

Definition is_Err {A} (r : result A) : bool :=
  match r with Ok _ => false | Err _ => true end.

(** A call either returns or panics (nil dereference, negative capacity). *)
Inductive outcome (A : Type) : Type :=
| Returns (a : A)
| Panics.
Arguments Returns {A} a.
Arguments Panics {A}.

(** [make(chan T, n)]: a channel is known by its capacity; what has been
    sent on it is read off the trace of the world.  A negative capacity
    panics.  The other panic of the run-time, for a capacity too large to
    allocate, depends on the platform and is left out: where [make_chan]
    returns, the call has not panicked on the sign of the capacity. *)
Record chan : Type := mkChan { chan_id : nat; cap : Z }.

Definition make_chan (id : nat) (n : Z) : outcome chan :=
  if decide (n < 0) then Panics else Returns (mkChan id n).

(** [context.WithCancel]: contexts live in a store of cancellation flags;
    the derived context starts with the flag of its parent and the
    [CancelFunc] is the index of the new flag.  A missing parent index
    stands for [context.Background()]. *)
Definition ctx_done (ctxs : list bool) (k : nat) : bool :=
  default false (ctxs !! k).

Definition WithCancel (ctxs : list bool) (parent : nat) : list bool * nat :=
  (ctxs ++ [ctx_done ctxs parent], length ctxs).

Definition cancel (ctxs : list bool) (k : nat) : list bool :=
  <[k := true]> ctxs.

End Go.

(* ===================================================================== *)
(** ** Package kafka: what the consumers import from it *)
(* ===================================================================== *)

Module Kafka.
Import Go.

(** [sarama.ConsumerMessage], the raw record. *)
Record ConsumerMessage : Type := mkMsg {
  Topic : string;
  Partition : Z;
  Offset : Z;
  Value : list Byte.byte
}.

(** [kafka.ConsumerConfig].  The decoder hook and the sarama configuration
    are carried, never inspected, by the consumers: their types are
    parameters. *)
Record ConsumerConfig (Decoder Cfg : Type) : Type := mkConsumerConfig {
  Brokers : list string;
  Buffer : Z;
  DecoderFunc : option Decoder;
  SaramaConfig : option Cfg
}.
Arguments mkConsumerConfig {Decoder Cfg}.
Arguments Brokers {Decoder Cfg}.
Arguments Buffer {Decoder Cfg}.
Arguments DecoderFunc {Decoder Cfg}.
Arguments SaramaConfig {Decoder Cfg}.

(** [kafka.OptionFunc]: a named function that mutates the configuration it
    is handed and may fail.  [FuncName] is what
    [runtime.FuncForPC(reflect.ValueOf(o).Pointer()).Name()] reports. *)
Record OptionFunc (St : Type) : Type := mkOption {
  FuncName : string;
  call : St -> St * option error
}.
Arguments mkOption {St}.
Arguments FuncName {St}.
Arguments call {St}.

(** The observable events of consumption, in the order they happen: what
    the goroutines receive from the client library ([EvRecv]: a record,
    with the high-water mark reported when it is taken; [EvClientError]:
    the value read from an [Errors()] channel, nil when the channel has
    been closed), the gauge updates, the calls of the claim processor and
    the sends on the two queues (an error value sent may be nil). *)
Inductive event (Message : Type) : Type :=
| EvRecv (m : ConsumerMessage) (high : Z)
| EvClientError (e : option error)
| EvGaugeSet (group topic : string) (partition : Z) (value : Z)
| EvClaimMessage (m : ConsumerMessage)
| EvSendMsg (ch : nat) (msg : Message)
| EvSendErr (ch : nat) (e : option error).
Arguments EvRecv {Message}.
Arguments EvClientError {Message}.
Arguments EvGaugeSet {Message}.
Arguments EvClaimMessage {Message}.
Arguments EvSendMsg {Message}.
Arguments EvSendErr {Message}.

(** Modelled from the spec: [kafka.TopicPartitionOffsetDiffGaugeSet] is not
    under src/.  The spec has "a gauge keyed by {group, topic, partition}
    updated with highWaterMark - currentOffset". *)
Definition TopicPartitionOffsetDiffGaugeSet {Message : Type}
    (group topic : string) (partition high offset : Z) : event Message :=
  EvGaugeSet group topic partition (high - offset).

(** The messages and the errors a trace shows on a channel, oldest first. *)
Definition sent_msgs {Message} (ch : nat) (tr : list (event Message)) : list Message :=
  omap (fun ev => match ev with
                  | EvSendMsg c m => if decide (c = ch) then Some m else None
                  | _ => None end) tr.

Definition sent_errs {Message} (ch : nat) (tr : list (event Message))
    : list (option error) :=
  omap (fun ev => match ev with
                  | EvSendErr c e => if decide (c = ch) then Some e else None
                  | _ => None end) tr.

(** The values read from the [Errors()] channels, oldest first. *)
Definition client_errors {Message} (tr : list (event Message))
    : list (option error) :=
  omap (fun ev => match ev with EvClientError e => Some e | _ => None end) tr.

(** The records the claim processor was called on, oldest first. *)
Definition claimed {Message} (tr : list (event Message)) : list ConsumerMessage :=
  omap (fun ev => match ev with EvClaimMessage m => Some m | _ => None end) tr.

(** The records received from the client library, oldest first. *)
Definition received {Message} (tr : list (event Message)) : list ConsumerMessage :=
  omap (fun ev => match ev with EvRecv m _ => Some m | _ => None end) tr.

(** Lag measurement on a trace.  [lag_recorded g tr m]: the trace receives
    record [m] with some high-water mark [high] and the next event sets
    the gauge of [{g, topic, partition}] to [high - offset]. *)
Definition lag_recorded {Message} (g : string) (tr : list (event Message))
    (m : ConsumerMessage) : Prop :=
  exists i high,
    tr !! i = Some (EvRecv m high) /\
    tr !! S i = Some (EvGaugeSet g (Topic m) (Partition m) (high - Offset m)).

(** Every received record is followed at once by its gauge update. *)
Definition lag_per_record {Message} (g : string) (tr : list (event Message)) : Prop :=
  forall i m high,
    tr !! i = Some (EvRecv m high) ->
    tr !! S i = Some (EvGaugeSet g (Topic m) (Partition m) (high - Offset m)).

(** Every call of the claim processor comes after the gauge update of its
    record. *)
Definition lag_before_claim {Message} (g : string) (tr : list (event Message)) : Prop :=
  forall j m,
    tr !! j = Some (EvClaimMessage m) -> lag_recorded g (take j tr) m.

End Kafka.

(* ===================================================================== *)
(** ** Package errors of patron *)
(* ===================================================================== *)

Module Errors.
Import Go.

(** Modelled from the spec: patron's own errors package is not under src/.
    [New] builds an error from its text. *)
Definition New (text : string) : error := errorString text.

(** Modelled from the spec: patron's own errors package is not under src/.
    A wrapped error keeps the error it wraps as its cause, under the given
    message. *)
Definition withMessage (e : error) (msg : string) : error :=
  wrapError (msg +:+ ": " +:+ Error e) e.

(** Modelled from the spec: "Close returns the wrapped error of the
    underlying client-close operation, if any": wrapping nil gives nil. *)
Definition Wrap (err : option error) (msg : string) : option error :=
  match err with
  | None => None
  | Some e => Some (withMessage e msg)
  end.

End Errors.

(* ===================================================================== *)
(** ** src/async/kafka/group/group.go *)
(* ===================================================================== *)

Module Group.
Import Go Kafka.

Section WithClient.
Context {Decoder Cfg Message : Type}.

(** [kafka.SaramaConfig(name)], the default client configuration. *)
Variable kafka_SaramaConfig : string -> result Cfg.
(** [sarama.NewConsumerGroup(brokers, group, config)]: [None] when the
    coordination client could be opened. *)
Variable sarama_NewConsumerGroup : list string -> string -> Cfg -> option error.
(** What [Close()] of the coordination client [h] answers, given whether it
    had been closed before. *)
Variable sarama_cg_Close : nat -> bool -> option error.
(** [kafka.ClaimMessage(ctx, dec, msg, sess)], the claim processor; the
    boolean tells whether a session is passed. *)
Variable kafka_ClaimMessage :
  option Decoder -> ConsumerMessage -> bool -> result Message.

Local Abbreviation ConsumerConfig := (Kafka.ConsumerConfig Decoder Cfg).

(** What an option can reach through the [kafka.Consumer] it is handed:
    the consumer configuration and the sarama configuration. *)
Definition configs : Type := (ConsumerConfig * Cfg)%type.

(** Factory definition of a consumer factory ([fgroup] and [ftopic] are
    its fields [group] and [topic]). *)
Record Factory : Type := mkFactory {
  name : string;
  fgroup : string;
  ftopic : string;
  brokers : list string;
  oo : list (OptionFunc configs)
}.

(** New constructor. *)
Definition New (name group topic : string) (brokers : list string)
    (oo : list (OptionFunc configs)) : result Factory :=
  if decide (name = "") then Err (Errors.New "name is required")
  else if decide (group = "") then Err (Errors.New "group is required")
  else if decide (length brokers = 0%nat) then
    Err (Errors.New "provide at least one broker")
  else if decide (topic = "") then Err (Errors.New "topic is required")
  else Ok (mkFactory name group topic brokers oo).

(** The consumer struct.  [cnl] is the cancel function of the derived
    context and [cg] the handle of the coordination client; both are nil
    until [Consume] sets them. *)
Record consumer : Type := mkConsumer {
  topic : string;
  group : string;
  traceTag : string * string;
  cnl : option nat;
  cg : option nat;
  consumerCnf : ConsumerConfig;
  saramaCnf : Cfg
}.

Definition consumerConfig (c : consumer) : configs :=
  (consumerCnf c, saramaCnf c).

Definition set_configs (c : consumer) (st : configs) : consumer :=
  mkConsumer (topic c) (group c) (traceTag c) (cnl c) (cg c) (fst st) (snd st).

Definition set_cnl (c : consumer) (k : option nat) : consumer :=
  mkConsumer (topic c) (group c) (traceTag c) k (cg c)
    (consumerCnf c) (saramaCnf c).

Definition set_cg (c : consumer) (h : option nat) : consumer :=
  mkConsumer (topic c) (group c) (traceTag c) (cnl c) h
    (consumerCnf c) (saramaCnf c).

(** The loop of [Create] over [f.oo].  Besides its result it gives the
    names of the options it has called, in call order. *)
Fixpoint Create_options (oo : list (OptionFunc configs)) (c : consumer)
    : list string * result consumer :=
  match oo with
  | [] => ([], Ok c)
  | o :: rest =>
      let '(st, err) := call o (consumerConfig c) in
      match err with
      | Some e =>
          ([FuncName o],
           Err (Errorf_v ("Could not apply OptionFunc '" +:+ FuncName o +:+
                          "' to consumer : " +:+ Error e)))
      | None =>
          let '(called, r) := Create_options rest (set_configs c st) in
          (FuncName o :: called, r)
      end
  end.

(** The consumer [Create] builds before it applies the options. *)
Definition Create_consumer (f : Factory) (config : Cfg) : consumer :=
  let cc := mkConsumerConfig (brokers f) 0 None None in
  mkConsumer (ftopic f) (fgroup f) ("group", fgroup f) None None cc config.

(** Create a new consumer. *)
Definition Create (f : Factory) : list string * result consumer :=
  match kafka_SaramaConfig (name f) with
  | Err err => ([], Err err)
  | Ok config => Create_options (oo f) (Create_consumer f config)
  end.

(** *** The goroutines of [consumeWithGroup] *)

Inductive watchdog_pc : Type :=
| WSelect                 (* blocked in the select *)
| WSendErr (e : option error) (* at [chErr <- consumerError] *)
| WReturned.

Inductive session_pc : Type :=
| SConsume                (* inside [consumer.Consume(ctx, topics, hnd)] *)
| SSendErr (e : error)    (* at [chErr <- err] *)
| SReturned.

(** The handler of a session: its consumer and the message queue.  The
    fields of the consumer that the handler reads (group, decoder) are not
    written after [Create], so the handler holds the consumer by value. *)
Record handler : Type := mkHandler {
  hconsumer : consumer;
  messages : chan
}.

(** The two goroutines, each with what it has captured and its program
    point. *)
Inductive task : Type :=
| Watchdog (ctx : nat) (consumer : nat) (chErr : chan) (pc : watchdog_pc)
| SessionLoop (ctx : nat) (consumer : nat) (topics : list string)
    (hnd : handler) (chErr : chan) (pc : session_pc).

Definition returned (t : task) : bool :=
  match t with
  | Watchdog _ _ _ WReturned => true
  | SessionLoop _ _ _ _ _ SReturned => true
  | _ => false
  end.

(** The number of steps the watchdog is away from its return. *)
Definition watchdog_rank (pc : watchdog_pc) : nat :=
  match pc with WSelect => 2 | WSendErr _ => 1 | WReturned => 0 end.

(** What the goroutines and the consumer share. *)
Record world : Type := mkWorld {
  ctxs : list bool;                 (* contexts: cancelled? *)
  cgs : list bool;                  (* coordination clients: closed? *)
  chans : nat;                      (* channels made so far *)
  tasks : list task;                (* goroutines started so far *)
  trace : list (event Message)
}.

Definition set_ctxs (w : world) (x : list bool) : world :=
  mkWorld x (cgs w) (chans w) (tasks w) (trace w).
Definition set_cgs (w : world) (x : list bool) : world :=
  mkWorld (ctxs w) x (chans w) (tasks w) (trace w).
Definition set_chans (w : world) (x : nat) : world :=
  mkWorld (ctxs w) (cgs w) x (tasks w) (trace w).
Definition set_tasks (w : world) (x : list task) : world :=
  mkWorld (ctxs w) (cgs w) (chans w) x (trace w).
Definition emit (evs : list (event Message)) (w : world) : world :=
  mkWorld (ctxs w) (cgs w) (chans w) (tasks w) (trace w ++ evs).

(** The world before any consumer has been used. *)
Definition init : world := mkWorld [] [] 0 [] [].

Definition cg_closed (w : world) (h : nat) : bool :=
  default false (cgs w !! h).

(** [cns.Close()] on the coordination client [h]. *)
Definition cg_Close (h : nat) (w : world) : world * option error :=
  (set_cgs w (<[h := true]> (cgs w)), sarama_cg_Close h (cg_closed w h)).

(** [closeConsumer]: nil is skipped, a close failure is logged only. *)
Definition closeConsumer (cns : option nat) (w : world) : world :=
  match cns with
  | None => w
  | Some h => fst (cg_Close h w)
  end.

(** Close handles closing consumer.  [c.cg.Close()] on a nil interface
    value panics. *)
Definition Close (c : consumer) (w : world) : outcome (world * option error) :=
  let w1 := match cnl c with
            | Some k => set_ctxs w (cancel (ctxs w) k)
            | None => w
            end in
  match cg c with
  | None => Panics
  | Some h =>
      let '(w2, err) := cg_Close h w1 in
      Returns (w2, Errors.Wrap err "failed to close consumer")
  end.

(** [handler.ConsumeClaim]: the claim's record stream is the list of the
    records it yields until it is closed, each with the high-water mark
    the claim reports when the record is taken. *)
Fixpoint ConsumeClaim (h : handler) (claim : list (ConsumerMessage * Z))
    : list (event Message) * option error :=
  match claim with
  | [] => ([], None)
  | (msg, high) :: rest =>
      let g := TopicPartitionOffsetDiffGaugeSet (group (hconsumer h))
                 (Topic msg) (Partition msg) high (Offset msg) in
      match kafka_ClaimMessage (DecoderFunc (consumerCnf (hconsumer h)))
              msg true with
      | Err err => ([EvRecv msg high; g; EvClaimMessage msg], Some err)
      | Ok m =>
          let '(evs, r) := ConsumeClaim h rest in
          (EvRecv msg high :: g :: EvClaimMessage msg ::
             EvSendMsg (chan_id (messages h)) m :: evs, r)
      end
  end.

Definition result3 : Type := (option chan * option chan * option error)%type.

Definition consumeWithGroup (ctx : nat) (c : consumer) (w : world)
    : outcome (world * consumer * result3) :=
  match sarama_NewConsumerGroup (Brokers (consumerCnf c)) (group c)
          (saramaCnf c) with
  | Some err =>
      Returns (w, c, (None, None, Errors.Wrap (Some err) "failed to create consumer"))
  | None =>
      let h := length (cgs w) in
      let w := set_cgs w (cgs w ++ [false]) in
      let c := set_cg c (Some h) in
      match make_chan (chans w) (Buffer (consumerCnf c)) with
      | Panics => Panics
      | Returns chMsg =>
      match make_chan (S (chans w)) (Buffer (consumerCnf c)) with
      | Panics => Panics
      | Returns chErr =>
          let w := set_chans w (S (S (chans w))) in
          let w := set_tasks w (tasks w ++ [Watchdog ctx h chErr WSelect]) in
          let hnd := mkHandler c chMsg in
          let w := set_tasks w
                     (tasks w ++ [SessionLoop ctx h [topic c] hnd chErr SConsume]) in
          Returns (w, c, (Some chMsg, Some chErr, None))
      end end
  end.

(** Consume starts consuming messages from a Kafka topic. *)
Definition Consume (parent : nat) (c : consumer) (w : world)
    : outcome (world * consumer * result3) :=
  let '(cs, k) := WithCancel (ctxs w) parent in
  consumeWithGroup k (set_cnl c (Some k)) (set_ctxs w cs).

(** [step i w w']: goroutine [i] is scheduled and takes the world from [w]
    to [w'].  The client library chooses what a blocked goroutine
    receives: an error on [consumer.Errors()], a claim to hand to the
    handler, the value [consumer.Consume] returns.  A send on a queue is
    taken to be accepted (the caller drains the queues): a send rule gives
    the step the goroutine takes once its send is accepted, and says
    nothing of when that is. *)
Inductive step : nat -> world -> world -> Prop :=
| step_watchdog_done w i ctx cns chErr :
    tasks w !! i = Some (Watchdog ctx cns chErr WSelect) ->
    ctx_done (ctxs w) ctx = true ->
    step i w (set_tasks (closeConsumer (Some cns) w)
                (<[i := Watchdog ctx cns chErr WReturned]> (tasks w)))
| step_watchdog_error w i ctx cns chErr consumerError :
    tasks w !! i = Some (Watchdog ctx cns chErr WSelect) ->
    step i w (set_tasks
                (closeConsumer (Some cns) (emit [EvClientError consumerError] w))
                (<[i := Watchdog ctx cns chErr (WSendErr consumerError)]> (tasks w)))
| step_watchdog_send w i ctx cns chErr consumerError :
    tasks w !! i = Some (Watchdog ctx cns chErr (WSendErr consumerError)) ->
    step i w (set_tasks (emit [EvSendErr (chan_id chErr) consumerError] w)
                (<[i := Watchdog ctx cns chErr WReturned]> (tasks w)))
| step_session_claim w i ctx cns topics hnd chErr claim :
    tasks w !! i = Some (SessionLoop ctx cns topics hnd chErr SConsume) ->
    step i w (emit (fst (ConsumeClaim hnd claim)) w)
| step_session_nil w i ctx cns topics hnd chErr :
    tasks w !! i = Some (SessionLoop ctx cns topics hnd chErr SConsume) ->
    step i w w
| step_session_err w i ctx cns topics hnd chErr err :
    tasks w !! i = Some (SessionLoop ctx cns topics hnd chErr SConsume) ->
    step i w (set_tasks w
                (<[i := SessionLoop ctx cns topics hnd chErr (SSendErr err)]> (tasks w)))
| step_session_send w i ctx cns topics hnd chErr err :
    tasks w !! i = Some (SessionLoop ctx cns topics hnd chErr (SSendErr err)) ->
    step i w (set_tasks (emit [EvSendErr (chan_id chErr) (Some err)] w)
                (<[i := SessionLoop ctx cns topics hnd chErr SConsume]> (tasks w))).

(** Some goroutine takes a step. *)
Definition sched (w w' : world) : Prop := exists i, step i w w'.

End WithClient.
End Group.

(* ===================================================================== *)
(** ** src/unnamed/part_000 (package group) *)
(* ===================================================================== *)

Module Group000.
Import Go Kafka.

Section WithClient.
Context {Decoder Cfg Message : Type}.

(** [kafka.DefaultSaramaConfig(name)]. *)
Variable kafka_DefaultSaramaConfig : string -> result Cfg.
Variable sarama_cg_Close : nat -> bool -> option error.
(** [kafka.ClaimMessage(ctx, msg, dec, sess)]. *)
Variable kafka_ClaimMessage :
  ConsumerMessage -> option Decoder -> bool -> result Message.

Local Abbreviation ConsumerConfig := (Kafka.ConsumerConfig Decoder Cfg).
Local Abbreviation world := (@Group.world Decoder Cfg Message).

(** Factory definition of a consumer factory ([fgroup] and [ftopic] are
    its fields [group] and [topic]). *)
Record Factory : Type := mkFactory {
  name : string;
  fgroup : string;
  ftopic : string;
  brokers : list string;
  oo : list (OptionFunc ConsumerConfig)
}.

(** New constructor. *)
Definition New (name group topic : string) (brokers : list string)
    (oo : list (OptionFunc ConsumerConfig)) : result Factory :=
  if decide (name = "") then Err (errorString "name is required")
  else if decide (group = "") then Err (errorString "group is required")
  else if decide (length brokers = 0%nat) then
    Err (errorString "provide at least one broker")
  else if decide (topic = "") then Err (errorString "topic is required")
  else Ok (mkFactory name group topic brokers oo).

Record consumer : Type := mkConsumer {
  topic : string;
  group : string;
  traceTag : string * string;
  cnl : option nat;
  cg : option nat;
  config : ConsumerConfig
}.

Definition set_config (c : consumer) (cc : ConsumerConfig) : consumer :=
  mkConsumer (topic c) (group c) (traceTag c) (cnl c) (cg c) cc.

(** The loop of [Create] over [f.oo], with the names of the options it has
    called. *)
Fixpoint Create_options (oo : list (OptionFunc ConsumerConfig)) (c : consumer)
    : list string * result consumer :=
  match oo with
  | [] => ([], Ok c)
  | o :: rest =>
      let '(cc, err) := call o (config c) in
      match err with
      | Some e =>
          ([FuncName o],
           Err (Errorf_w "could not apply OptionFunc to consumer : " e))
      | None =>
          let '(called, r) := Create_options rest (set_config c cc) in
          (FuncName o :: called, r)
      end
  end.

(** The consumer [Create] builds before it applies the options. *)
Definition Create_consumer (f : Factory) (config : Cfg) : consumer :=
  let cc := mkConsumerConfig (brokers f) 0 None (Some config) in
  mkConsumer (ftopic f) (fgroup f) ("group", fgroup f) None None cc.

(** Create a new consumer. *)
Definition Create (f : Factory) : list string * result consumer :=
  match kafka_DefaultSaramaConfig (name f) with
  | Err err => ([], Err err)
  | Ok config => Create_options (oo f) (Create_consumer f config)
  end.

(** Close handles closing consumer. *)
Definition Close (c : consumer) (w : world) : outcome (world * option error) :=
  let w1 := match cnl c with
            | Some k => Group.set_ctxs w (cancel (Group.ctxs w) k)
            | None => w
            end in
  match cg c with
  | None => Panics
  | Some h =>
      let '(w2, err) := Group.cg_Close sarama_cg_Close h w1 in
      match err with
      | Some e => Returns (w2, Some (Errorf_w "failed to close consumer: " e))
      | None => Returns (w2, None)
      end
  end.

Record handler : Type := mkHandler {
  hconsumer : consumer;
  messages : chan
}.

Fixpoint ConsumeClaim (h : handler) (claim : list (ConsumerMessage * Z))
    : list (event Message) * option error :=
  match claim with
  | [] => ([], None)
  | (msg, high) :: rest =>
      let g := TopicPartitionOffsetDiffGaugeSet (group (hconsumer h))
                 (Topic msg) (Partition msg) high (Offset msg) in
      match kafka_ClaimMessage msg (DecoderFunc (config (hconsumer h)))
              true with
      | Err err => ([EvRecv msg high; g; EvClaimMessage msg], Some err)
      | Ok m =>
          let '(evs, r) := ConsumeClaim h rest in
          (EvRecv msg high :: g :: EvClaimMessage msg ::
             EvSendMsg (chan_id (messages h)) m :: evs, r)
      end
  end.

End WithClient.
End Group000.

(* ===================================================================== *)
(** ** src/unnamed/part_001 (package simple) *)
(* ===================================================================== *)

Module Simple.
Import Go Kafka.

Section WithClient.
Context {Decoder Cfg Message : Type}.

Variable kafka_SaramaConfig : string -> result Cfg.
(** [sarama.NewConsumer(brokers, config)]: [None] when the direct client
    could be opened. *)
Variable sarama_NewConsumer : list string -> Cfg -> option error.
(** [c.ms.Partitions(topic)]. *)
Variable ms_Partitions : string -> result (list Z).
(** [c.ms.ConsumePartition(topic, partition, offset)]: [None] when the
    partition reader could be opened. *)
Variable ms_ConsumePartition : string -> Z -> Z -> option error.
(** [config.Consumer.Offsets.Initial]. *)
Variable Offsets_Initial : Cfg -> Z.
Variable kafka_ClaimMessage :
  option Decoder -> ConsumerMessage -> bool -> result Message.

Local Abbreviation ConsumerConfig := (Kafka.ConsumerConfig Decoder Cfg).

Definition configs : Type := (ConsumerConfig * Cfg)%type.

(** Factory definition of a consumer factory ([ftopic] is its field
    [topic]). *)
Record Factory : Type := mkFactory {
  name : string;
  ftopic : string;
  brokers : list string;
  oo : list (OptionFunc configs)
}.

(** New constructor. *)
Definition New (name topic : string) (brokers : list string)
    (oo : list (OptionFunc configs)) : result Factory :=
  if decide (name = "") then Err (Errors.New "name is required")
  else if decide (length brokers = 0%nat) then
    Err (Errors.New "provide at least one broker")
  else if decide (topic = "") then Err (Errors.New "topic is required")
  else Ok (mkFactory name topic brokers oo).

(** The consumer struct; [ms] is the handle of the direct client. *)
Record consumer : Type := mkConsumer {
  topic : string;
  traceTag : string * string;
  cnl : option nat;
  ms : option nat;
  consumerCnf : ConsumerConfig;
  saramaCnf : Cfg
}.

Definition consumerConfig (c : consumer) : configs :=
  (consumerCnf c, saramaCnf c).

Definition set_configs (c : consumer) (st : configs) : consumer :=
  mkConsumer (topic c) (traceTag c) (cnl c) (ms c) (fst st) (snd st).

Definition set_cnl (c : consumer) (k : option nat) : consumer :=
  mkConsumer (topic c) (traceTag c) k (ms c) (consumerCnf c) (saramaCnf c).

Definition set_ms (c : consumer) (h : option nat) : consumer :=
  mkConsumer (topic c) (traceTag c) (cnl c) h (consumerCnf c) (saramaCnf c).

(** The loop of [Create] over [f.oo], with the names of the options it has
    called. *)
Fixpoint Create_options (oo : list (OptionFunc configs)) (c : consumer)
    : list string * result consumer :=
  match oo with
  | [] => ([], Ok c)
  | o :: rest =>
      let '(st, err) := call o (consumerConfig c) in
      match err with
      | Some e => ([FuncName o], Err e)
      | None =>
          let '(called, r) := Create_options rest (set_configs c st) in
          (FuncName o :: called, r)
      end
  end.

(** The consumer [Create] builds before it applies the options. *)
Definition Create_consumer (f : Factory) (config : Cfg) : consumer :=
  let cc := mkConsumerConfig (brokers f) 1000 None None in
  mkConsumer (ftopic f) ("", "") None None cc config.

(** Create a new consumer. *)
Definition Create (f : Factory) : list string * result consumer :=
  match kafka_SaramaConfig (name f) with
  | Err err => ([], Err err)
  | Ok config => Create_options (oo f) (Create_consumer f config)
  end.

(** *** The goroutines of [consume] *)

Inductive pump_pc : Type :=
| PSelect                 (* blocked in the select *)
| PSendErr (e : option error) (* at [chErr <- consumerError] *)
| PReturned.

Inductive emit_pc : Type :=
| EClaim                  (* before [kafka.ClaimMessage] *)
| ESendErr (e : error)    (* at [chErr <- err] *)
| ESendMsg (msg : Message)(* at [chMsg <- msg] *)
| EReturned.

(** The goroutines: the pump of a partition reader, and the goroutine a
    pump starts for one record; each with what it has captured and its
    program point. *)
Inductive task : Type :=
| Pump (ctx : nat) (cns : nat) (c : consumer) (chMsg chErr : chan)
    (pc : pump_pc)
| Emit (m : ConsumerMessage) (c : consumer) (chMsg chErr : chan)
    (pc : emit_pc).

Definition returned (t : task) : bool :=
  match t with
  | Pump _ _ _ _ _ PReturned => true
  | Emit _ _ _ _ EReturned => true
  | _ => false
  end.

Record world : Type := mkWorld {
  ctxs : list bool;                 (* contexts: cancelled? *)
  clients : list bool;              (* direct clients: closed? *)
  readers : list bool;              (* partition readers: closed? *)
  chans : nat;                      (* channels made so far *)
  tasks : list task;                (* goroutines started so far *)
  trace : list (event Message)
}.

Definition set_ctxs (w : world) (x : list bool) : world :=
  mkWorld x (clients w) (readers w) (chans w) (tasks w) (trace w).
Definition set_clients (w : world) (x : list bool) : world :=
  mkWorld (ctxs w) x (readers w) (chans w) (tasks w) (trace w).
Definition set_readers (w : world) (x : list bool) : world :=
  mkWorld (ctxs w) (clients w) x (chans w) (tasks w) (trace w).
Definition set_chans (w : world) (x : nat) : world :=
  mkWorld (ctxs w) (clients w) (readers w) x (tasks w) (trace w).
Definition set_tasks (w : world) (x : list task) : world :=
  mkWorld (ctxs w) (clients w) (readers w) (chans w) x (trace w).
Definition emit (evs : list (event Message)) (w : world) : world :=
  mkWorld (ctxs w) (clients w) (readers w) (chans w) (tasks w) (trace w ++ evs).

(** The world before any consumer has been used. *)
Definition init : world := mkWorld [] [] [] 0 [] [].

(** [closePartitionConsumer]: nil is skipped, a close failure is logged
    only. *)
Definition closePartitionConsumer (cns : option nat) (w : world) : world :=
  match cns with
  | None => w
  | Some h => set_readers w (<[h := true]> (readers w))
  end.

(** Close handles closing consumer. *)
Definition Close (c : consumer) (w : world) : outcome (world * option error) :=
  let w1 := match cnl c with
            | Some k => set_ctxs w (cancel (ctxs w) k)
            | None => w
            end in
  Returns (w1, None).

(** The loop of [partitions] over the partition indices: the readers
    opened so far are in [pcs]. *)
Fixpoint partitions_loop (c : consumer) (partitions : list Z) (pcs : list nat)
    (w : world) : world * result (list nat) :=
  match partitions with
  | [] => (w, Ok pcs)
  | partition :: rest =>
      match ms_ConsumePartition (topic c) partition
              (Offsets_Initial (saramaCnf c)) with
      | Some err =>
          (w, Err (Errors.withMessage err "failed to get partition consumer"))
      | None =>
          let pc := length (readers w) in
          partitions_loop c rest (pcs ++ [pc])
            (set_readers w (readers w ++ [false]))
      end
  end.

Definition partitions (c : consumer) (w : world)
    : world * consumer * result (list nat) :=
  match sarama_NewConsumer (Brokers (consumerCnf c)) (saramaCnf c) with
  | Some err => (w, c, Err (Errors.withMessage err "failed to create consumer"))
  | None =>
      let h := length (clients w) in
      let w := set_clients w (clients w ++ [false]) in
      let c := set_ms c (Some h) in
      match ms_Partitions (topic c) with
      | Err err => (w, c, Err (Errors.withMessage err "failed to get partitions"))
      | Ok partitions =>
          let '(w, r) := partitions_loop c partitions [] w in
          (w, c, r)
      end
  end.

Definition result3 : Type := (option chan * option chan * option error)%type.

Definition consume (ctx : nat) (c : consumer) (w : world)
    : outcome (world * consumer * result3) :=
  match make_chan (chans w) (Buffer (consumerCnf c)) with
  | Panics => Panics
  | Returns chMsg =>
  match make_chan (S (chans w)) (Buffer (consumerCnf c)) with
  | Panics => Panics
  | Returns chErr =>
      let w := set_chans w (S (S (chans w))) in
      let '(w, c, r) := partitions c w in
      match r with
      | Err err =>
          Returns (w, c, (None, None, Errors.Wrap (Some err) "failed to get partitions"))
      | Ok pcs =>
          if decide (length pcs = 0%nat) then
            Returns (w, c, (None, None, Some (Errors.New "got 0 partitions")))
          else
            let w := set_tasks w
                       (tasks w ++ map (fun pc => Pump ctx pc c chMsg chErr PSelect) pcs) in
            Returns (w, c, (Some chMsg, Some chErr, None))
      end
  end end.

(** Consume starts consuming messages from a Kafka topic. *)
Definition Consume (parent : nat) (c : consumer) (w : world)
    : outcome (world * consumer * result3) :=
  let '(cs, k) := WithCancel (ctxs w) parent in
  consume k (set_cnl c (Some k)) (set_ctxs w cs).

(** The body of the goroutine started for one record, after the call of
    the claim processor. *)
Definition after_claim (c : consumer) (m : ConsumerMessage) : emit_pc :=
  match kafka_ClaimMessage (DecoderFunc (consumerCnf c)) m false with
  | Err err => ESendErr err
  | Ok msg => ESendMsg msg
  end.

(** [step i w w']: goroutine [i] is scheduled and takes the world from [w]
    to [w'].  The client library chooses what the select of a pump
    receives: a fatal error of the reader, or the next record together
    with the high-water mark the reader reports then.  A send on a queue is
    taken to be accepted (the caller drains the queues): a send rule gives
    the step the goroutine takes once its send is accepted, and says
    nothing of when that is. *)
Inductive step : nat -> world -> world -> Prop :=
| step_pump_done w i ctx cns c chMsg chErr :
    tasks w !! i = Some (Pump ctx cns c chMsg chErr PSelect) ->
    ctx_done (ctxs w) ctx = true ->
    step i w (set_tasks (closePartitionConsumer (Some cns) w)
                (<[i := Pump ctx cns c chMsg chErr PReturned]> (tasks w)))
| step_pump_error w i ctx cns c chMsg chErr consumerError :
    tasks w !! i = Some (Pump ctx cns c chMsg chErr PSelect) ->
    step i w (set_tasks
                (closePartitionConsumer (Some cns)
                   (emit [EvClientError consumerError] w))
                (<[i := Pump ctx cns c chMsg chErr (PSendErr consumerError)]> (tasks w)))
| step_pump_send w i ctx cns c chMsg chErr consumerError :
    tasks w !! i = Some (Pump ctx cns c chMsg chErr (PSendErr consumerError)) ->
    step i w (set_tasks (emit [EvSendErr (chan_id chErr) consumerError] w)
                (<[i := Pump ctx cns c chMsg chErr PReturned]> (tasks w)))
| step_pump_message w i ctx cns c chMsg chErr m high :
    tasks w !! i = Some (Pump ctx cns c chMsg chErr PSelect) ->
    step i w (set_tasks
                (emit [EvRecv m high;
                       TopicPartitionOffsetDiffGaugeSet "" (Topic m) (Partition m)
                         high (Offset m)] w)
                (tasks w ++ [Emit m c chMsg chErr EClaim]))
| step_emit_claim w i m c chMsg chErr :
    tasks w !! i = Some (Emit m c chMsg chErr EClaim) ->
    step i w (set_tasks (emit [EvClaimMessage m] w)
                (<[i := Emit m c chMsg chErr (after_claim c m)]> (tasks w)))
| step_emit_err w i m c chMsg chErr err :
    tasks w !! i = Some (Emit m c chMsg chErr (ESendErr err)) ->
    step i w (set_tasks (emit [EvSendErr (chan_id chErr) (Some err)] w)
                (<[i := Emit m c chMsg chErr EReturned]> (tasks w)))
| step_emit_msg w i m c chMsg chErr msg :
    tasks w !! i = Some (Emit m c chMsg chErr (ESendMsg msg)) ->
    step i w (set_tasks (emit [EvSendMsg (chan_id chMsg) msg] w)
                (<[i := Emit m c chMsg chErr EReturned]> (tasks w))).

(** Some goroutine takes a step. *)
Definition sched (w w' : world) : Prop := exists i, step i w w'.

End WithClient.
End Simple.

(* ===================================================================== *)
(** ** src/unnamed/part_000: Consume, with the consumer in the heap *)
(* ===================================================================== *)

(** In part_000 the goroutines that [Consume] starts do not capture the
    client: they hold the pointer to the consumer and read [c.cg] each
    time they need it.  So here the consumer structs live in a heap that
    the goroutines and the callers share, and [Consume] and [Close] take
    the address of their receiver.  The structs themselves, the handler
    and the factory are those of [Group000]. *)

Module Group000Consume.
Import Go Kafka.

Section WithClient.
Context {Decoder Cfg Message : Type}.

(** [sarama.NewConsumerGroup(brokers, group, config)], with the
    [*sarama.Config] of the consumer configuration. *)
Variable sarama_NewConsumerGroup :
  list string -> string -> option Cfg -> option error.
Variable sarama_cg_Close : nat -> bool -> option error.
(** [kafka.ClaimMessage(ctx, msg, dec, sess)]. *)
Variable kafka_ClaimMessage :
  ConsumerMessage -> option Decoder -> bool -> result Message.

Local Abbreviation consumer := (@Group000.consumer Decoder Cfg).

Definition set_cnl (c : consumer) (k : option nat) : consumer :=
  Group000.mkConsumer (Group000.topic c) (Group000.group c) (Group000.traceTag c)
    k (Group000.cg c) (Group000.config c).

Definition set_cg (c : consumer) (h : option nat) : consumer :=
  Group000.mkConsumer (Group000.topic c) (Group000.group c) (Group000.traceTag c)
    (Group000.cnl c) h (Group000.config c).

(** *** The goroutines of [Consume]

    Both goroutines hold the pointer [c] and read [c.cg] when they need
    the client: the watchdog when it enters its select (the channel
    operands of a select are evaluated once, on entering it) and again
    when it closes the client; the session loop at every call of
    [c.cg.Consume]. *)

Inductive watchdog_pc : Type :=
| WStart                  (* started, before the select *)
| WSelect (h : nat)       (* blocked in the select, on the errors of client [h] *)
| WSendErr (e : option error) (* at [chErr <- consumerError] *)
| WReturned.

Inductive session_pc : Type :=
| SIdle                   (* at the top of the loop *)
| SConsume (h : nat)      (* inside [Consume] of client [h] *)
| SSendErr (e : error).   (* at [chErr <- err] *)

(** The two goroutines, each with the context and the consumer (its
    address [c] in the heap) it has captured, and its program point. *)
Inductive task : Type :=
| Watchdog (ctx : nat) (c : nat) (chErr : chan) (pc : watchdog_pc)
| SessionLoop (ctx : nat) (c : nat) (chMsg chErr : chan) (pc : session_pc).

(** The number of steps the watchdog is away from its return. *)
Definition watchdog_rank (pc : watchdog_pc) : nat :=
  match pc with WStart => 3 | WSelect _ => 2 | WSendErr _ => 1 | WReturned => 0 end.

Definition task_consumer (t : task) : nat :=
  match t with Watchdog _ c _ _ | SessionLoop _ c _ _ _ => c end.

(** What the goroutines and the callers share: the consumers are in the
    heap, at their addresses. *)
Record world : Type := mkWorld {
  ctxs : list bool;                 (* contexts: cancelled? *)
  cgs : list bool;                  (* coordination clients: closed? *)
  chans : nat;                      (* channels made so far *)
  heap : list consumer;             (* the consumer structs *)
  tasks : list task;                (* goroutines started so far *)
  trace : list (event Message)
}.

Definition set_ctxs (w : world) (x : list bool) : world :=
  mkWorld x (cgs w) (chans w) (heap w) (tasks w) (trace w).
Definition set_cgs (w : world) (x : list bool) : world :=
  mkWorld (ctxs w) x (chans w) (heap w) (tasks w) (trace w).
Definition set_chans (w : world) (x : nat) : world :=
  mkWorld (ctxs w) (cgs w) x (heap w) (tasks w) (trace w).
Definition set_heap (w : world) (x : list consumer) : world :=
  mkWorld (ctxs w) (cgs w) (chans w) x (tasks w) (trace w).
Definition set_tasks (w : world) (x : list task) : world :=
  mkWorld (ctxs w) (cgs w) (chans w) (heap w) x (trace w).
Definition emit (evs : list (event Message)) (w : world) : world :=
  mkWorld (ctxs w) (cgs w) (chans w) (heap w) (tasks w) (trace w ++ evs).

(** The world in which [Create] has just put its consumer, at address 0. *)
Definition init (c : consumer) : world := mkWorld [] [] 0 [c] [] [].

Definition cg_closed (w : world) (h : nat) : bool :=
  default false (cgs w !! h).

(** [cns.Close()] on the coordination client [h]. *)
Definition cg_Close (h : nat) (w : world) : world * option error :=
  (set_cgs w (<[h := true]> (cgs w)), sarama_cg_Close h (cg_closed w h)).

(** [closeConsumer]: nil is skipped, a close failure is logged only. *)
Definition closeConsumer (cns : option nat) (w : world) : world :=
  match cns with
  | None => w
  | Some h => fst (cg_Close h w)
  end.

(** [c.cg], read through the pointer. *)
Definition read_cg (w : world) (c : nat) : option nat :=
  heap w !! c ≫= Group000.cg.

(** Close handles closing consumer: [Group000.Close], on the consumer at
    address [c].  The field access through an address that holds no
    consumer and [Close] of a nil client panic. *)
Definition Close (c : nat) (w : world) : outcome (world * option error) :=
  match heap w !! c with
  | None => Panics
  | Some cns =>
      let w1 := match Group000.cnl cns with
                | Some k => set_ctxs w (cancel (ctxs w) k)
                | None => w
                end in
      match Group000.cg cns with
      | None => Panics
      | Some h =>
          let '(w2, err) := cg_Close h w1 in
          match err with
          | Some e => Returns (w2, Some (Errorf_w "failed to close consumer: " e))
          | None => Returns (w2, None)
          end
      end
  end.

Definition result3 : Type := (option chan * option chan * option error)%type.

(** Consume starts consuming messages from a Kafka topic. *)
Definition Consume (parent : nat) (c : nat) (w : world)
    : outcome (world * result3) :=
  match heap w !! c with
  | None => Panics
  | Some cns =>
      let '(cs, k) := WithCancel (ctxs w) parent in
      let w := set_ctxs w cs in
      let cns := set_cnl cns (Some k) in
      match sarama_NewConsumerGroup (Brokers (Group000.config cns))
              (Group000.group cns) (SaramaConfig (Group000.config cns)) with
      | Some err =>
          Returns (set_heap w (<[c := cns]> (heap w)),
                   (None, None, Some (Errorf_w "failed to create consumer: " err)))
      | None =>
          let h := length (cgs w) in
          let w := set_cgs w (cgs w ++ [false]) in
          let cns := set_cg cns (Some h) in
          let w := set_heap w (<[c := cns]> (heap w)) in
          match make_chan (chans w) (Buffer (Group000.config cns)) with
          | Panics => Panics
          | Returns chMsg =>
          match make_chan (S (chans w)) (Buffer (Group000.config cns)) with
          | Panics => Panics
          | Returns chErr =>
              let w := set_chans w (S (S (chans w))) in
              let w := set_tasks w
                         (tasks w ++ [Watchdog k c chErr WStart;
                                      SessionLoop k c chMsg chErr SIdle]) in
              Returns (w, (Some chMsg, Some chErr, None))
          end end
      end
  end.

(** [step i w w']: goroutine [i] is scheduled and takes the world from [w]
    to [w'].  The client library chooses what a blocked goroutine
    receives.  [c.cg] is not nil when a goroutine reads it: [Consume] has
    written it before it starts the goroutines, and nothing writes nil.  A
    send rule gives the step the goroutine takes once its send is
    accepted, and says nothing of when that is. *)
Inductive step : nat -> world -> world -> Prop :=
| step_watchdog_start w i ctx c chErr h :
    tasks w !! i = Some (Watchdog ctx c chErr WStart) ->
    read_cg w c = Some h ->
    step i w (set_tasks w (<[i := Watchdog ctx c chErr (WSelect h)]> (tasks w)))
| step_watchdog_done w i ctx c chErr h :
    tasks w !! i = Some (Watchdog ctx c chErr (WSelect h)) ->
    ctx_done (ctxs w) ctx = true ->
    step i w (set_tasks (closeConsumer (read_cg w c) w)
                (<[i := Watchdog ctx c chErr WReturned]> (tasks w)))
| step_watchdog_error w i ctx c chErr h consumerError :
    tasks w !! i = Some (Watchdog ctx c chErr (WSelect h)) ->
    step i w (set_tasks
                (closeConsumer (read_cg w c) (emit [EvClientError consumerError] w))
                (<[i := Watchdog ctx c chErr (WSendErr consumerError)]> (tasks w)))
| step_watchdog_send w i ctx c chErr consumerError :
    tasks w !! i = Some (Watchdog ctx c chErr (WSendErr consumerError)) ->
    step i w (set_tasks (emit [EvSendErr (chan_id chErr) consumerError] w)
                (<[i := Watchdog ctx c chErr WReturned]> (tasks w)))
| step_session_enter w i ctx c chMsg chErr h :
    tasks w !! i = Some (SessionLoop ctx c chMsg chErr SIdle) ->
    read_cg w c = Some h ->
    step i w (set_tasks w
                (<[i := SessionLoop ctx c chMsg chErr (SConsume h)]> (tasks w)))
| step_session_claim w i ctx c chMsg chErr h cns claim :
    tasks w !! i = Some (SessionLoop ctx c chMsg chErr (SConsume h)) ->
    heap w !! c = Some cns ->
    step i w (emit (fst (Group000.ConsumeClaim kafka_ClaimMessage
                           (Group000.mkHandler cns chMsg) claim)) w)
| step_session_nil w i ctx c chMsg chErr h :
    tasks w !! i = Some (SessionLoop ctx c chMsg chErr (SConsume h)) ->
    step i w (set_tasks w
                (<[i := SessionLoop ctx c chMsg chErr SIdle]> (tasks w)))
| step_session_err w i ctx c chMsg chErr h err :
    tasks w !! i = Some (SessionLoop ctx c chMsg chErr (SConsume h)) ->
    step i w (set_tasks w
                (<[i := SessionLoop ctx c chMsg chErr (SSendErr err)]> (tasks w)))
| step_session_send w i ctx c chMsg chErr err :
    tasks w !! i = Some (SessionLoop ctx c chMsg chErr (SSendErr err)) ->
    step i w (set_tasks (emit [EvSendErr (chan_id chErr) (Some err)] w)
                (<[i := SessionLoop ctx c chMsg chErr SIdle]> (tasks w))).

(** Some goroutine takes a step. *)
Definition sched (w w' : world) : Prop := exists i, step i w w'.

End WithClient.
End Group000Consume.

(* ===================================================================== *)
(** ** src/builder.go (package patron) *)
(* ===================================================================== *)

Module Patron.
Import Go.

Section WithPlatform.
(** The values of the other packages that the builder only stores and
    hands on: routes, middlewares, health check functions, components,
    SIGHUP handlers, the service of service.go and float64 numbers. *)
Context {Route Middleware HealthCheck Component Handler Service Float : Type}.

(** [os.Hostname()]. *)
Variable os_Hostname : result string.
(** [string(log.InfoLevel)] and [jaeger.SamplerTypeProbabilistic]. *)
Variable log_InfoLevel : string.
Variable jaeger_SamplerTypeProbabilistic : string.
(** [log.Setup(zerolog.Create(log.Level(lvl)), f)]. *)
Variable log_Setup : string -> gmap string string -> option error.
(** [strconv.ParseFloat(s, 64)], the float64 [0.0], and
    [strconv.ParseInt(s, 10, 64)]. *)
Variable strconv_ParseFloat : string -> result Float.
Variable float_zero : Float.
Variable strconv_ParseInt : string -> result Z.
(** [trace.Setup(name, version, agent, tp, prmVal)]. *)
Variable trace_Setup : string -> string -> string -> string -> Float -> option error.
(** [http.DefaultHealthCheck], a function value that is not nil. *)
Variable http_DefaultHealthCheck : HealthCheck.
(** [info.ImportDoc(file)] and [errors.Aggregate(errs...)]. *)
Variable info_ImportDoc : string -> option error.
Variable errors_Aggregate : list error -> option error.

(** The options [createHTTPComponent] builds with [http.Port],
    [http.HealthCheck], [http.Routes] and [http.Middlewares].  [int] is
    taken to be as wide as [int64], so [int(portVal)] is [portVal]. *)
Inductive http_option : Type :=
| http_Port (port : Z)
| http_HealthCheck (hcf : HealthCheck)
| http_Routes (rr : list Route)
| http_Middlewares (mm : list Middleware).

(** [http.New(options...)], and [new(cc, handler)] and [s.Run()] of
    service.go. *)
Variable http_New : list http_option -> result Component.
Variable service_new : list Component -> option Handler -> result Service.
Variable service_Run : Service -> option error.

(** The calls into the other packages that leave a mark there, in the
    order they are made.  Log lines are not recorded. *)
Inductive call : Type :=
| info_UpsertConfig (key value : string)
| info_UpdateHost (hostname : string)
| info_UpdateName (name : string)
| info_UpdateVersion (version : string)
| info_ImportDocCalled (file : string)
| info_AppendComponent (c : Component)
| log_SetupCalled (lvl : string) (f : gmap string string)
| trace_SetupCalled (name version agent tp : string) (prmVal : Float)
| trace_Close
| http_NewCalled (options : list http_option)
| service_newCalled (cc : list Component) (handler : option Handler)
| service_RunCalled (s : Service).

(** The process: its environment, the package variable [logSetupOnce]
    (has its function been run?) and the calls made so far. *)
Record process : Type := mkProcess {
  env : gmap string string;
  logSetupOnce : bool;
  calls : list call
}.

Definition did (c : call) (p : process) : process :=
  mkProcess (env p) (logSetupOnce p) (calls p ++ [c]).

Definition once_done (p : process) : process :=
  mkProcess (env p) true (calls p).

(** [os.LookupEnv(key)] with the value to take when the variable is not
    set. *)
Definition LookupEnv_or (p : process) (key fallback : string) : string :=
  default fallback (env p !! key).

(** Setup set's up metrics and default logging. *)
Definition Setup (name version : string) (p : process) : process * option error :=
  let lvl := LookupEnv_or p "PATRON_LOG_LEVEL" log_InfoLevel in
  let p := did (info_UpsertConfig "log_level" lvl) p in
  match os_Hostname with
  | Err err => (p, Errors.Wrap (Some err) "failed to get hostname")
  | Ok hostname =>
      let p := did (info_UpdateHost hostname) p in
      let f : gmap string string :=
        {[ "srv" := name; "ver" := version; "host" := hostname ]} in
      if logSetupOnce p then (p, None)
      else (once_done (did (log_SetupCalled lvl f) p), log_Setup lvl f)
  end.

(** Builder definition.  [routes] keeps nil apart from the empty slice,
    which [createHTTPComponent] tells apart; of the other slices the code
    only takes the length and the elements. *)
Record Builder : Type := mkBuilder {
  errors : list error;
  name : string;
  version : string;
  routes : option (list Route);
  middlewares : list Middleware;
  healthCheck : option HealthCheck;
  components : list Component;
  sighupHandler : option Handler
}.

Definition add_error (b : Builder) (e : error) : Builder :=
  mkBuilder (errors b ++ [e]) (name b) (version b) (routes b) (middlewares b)
    (healthCheck b) (components b) (sighupHandler b).

Definition set_routes (b : Builder) (rr : option (list Route)) : Builder :=
  mkBuilder (errors b) (name b) (version b) rr (middlewares b)
    (healthCheck b) (components b) (sighupHandler b).

Definition set_middlewares (b : Builder) (mm : list Middleware) : Builder :=
  mkBuilder (errors b) (name b) (version b) (routes b) mm
    (healthCheck b) (components b) (sighupHandler b).

Definition set_healthCheck (b : Builder) (hcf : option HealthCheck) : Builder :=
  mkBuilder (errors b) (name b) (version b) (routes b) (middlewares b)
    hcf (components b) (sighupHandler b).

Definition set_components (b : Builder) (cc : list Component) : Builder :=
  mkBuilder (errors b) (name b) (version b) (routes b) (middlewares b)
    (healthCheck b) cc (sighupHandler b).

Definition set_sighupHandler (b : Builder) (handler : option Handler) : Builder :=
  mkBuilder (errors b) (name b) (version b) (routes b) (middlewares b)
    (healthCheck b) (components b) handler.

(** [len(s)] of a slice that may be nil. *)
Definition len {A} (s : option (list A)) : nat :=
  match s with None => 0 | Some l => length l end.

Definition setupDefaultTracing (name version : string) (p : process)
    : process * option error :=
  let host := LookupEnv_or p "PATRON_JAEGER_AGENT_HOST" "0.0.0.0" in
  let port := LookupEnv_or p "PATRON_JAEGER_AGENT_PORT" "6831" in
  let agent := host +:+ ":" +:+ port in
  let p := did (info_UpsertConfig "jaeger-agent" agent) p in
  let tp := LookupEnv_or p "PATRON_JAEGER_SAMPLER_TYPE"
              jaeger_SamplerTypeProbabilistic in
  let p := did (info_UpsertConfig "jaeger-agent-sampler-type" tp) p in
  let prm := "0.0" in
  let finish (prmVal : Float) :=
    let p := did (info_UpsertConfig "jaeger-agent-sampler-param" prm) p in
    (did (trace_SetupCalled name version agent tp prmVal) p,
     trace_Setup name version agent tp prmVal) in
  match env p !! "PATRON_JAEGER_SAMPLER_PARAM" with
  | Some prm' =>
      (* this [prm] is a new variable of the [if] statement *)
      match strconv_ParseFloat prm' with
      | Err err =>
          (p, Errors.Wrap (Some err) "env var for jaeger sampler param is not valid")
      | Ok prmVal => finish prmVal
      end
  | None => finish float_zero
  end.

Definition opt_to_list {A} (e : option A) : list A :=
  match e with Some a => [a] | None => [] end.

(** New builder constructor. *)
Definition New (name version : string) (p : process) : process * Builder :=
  if decide (name = "") then
    (p, mkBuilder [Errors.New "name is required"] "" "" None [] None [] None)
  else
    let version := if decide (version = "") then "dev" else version in
    let '(p, err) := Setup name version p in
    let ers := opt_to_list err in
    let p := did (info_UpdateVersion version) (did (info_UpdateName name) p) in
    let '(p, err) := setupDefaultTracing name version p in
    let ers := ers ++ opt_to_list err in
    (p, mkBuilder ers name version None [] (Some http_DefaultHealthCheck) [] None).

(** WithRoutes adds routes to the service. *)
Definition WithRoutes (rr : option (list Route)) (b : Builder) : Builder :=
  let b := if decide (len rr = 0%nat)
           then add_error b (Errors.New "routes are empty") else b in
  set_routes b rr.

(** WithMiddlewares adds middlewares to the service. *)
Definition WithMiddlewares (mm : list Middleware) (b : Builder) : Builder :=
  let b := if decide (length mm = 0%nat)
           then add_error b (Errors.New "middlewares are empty") else b in
  set_middlewares b mm.

(** WithHealthCheck adds a custom health check to the service. *)
Definition WithHealthCheck (hcf : option HealthCheck) (b : Builder) : Builder :=
  let b := match hcf with
           | None => add_error b (Errors.New "health check function is nil")
           | Some _ => b
           end in
  set_healthCheck b hcf.

(** WithComponents adds custom components to the service. *)
Definition WithComponents (cc : list Component) (b : Builder) : Builder :=
  let b := if decide (length cc = 0%nat)
           then add_error b (Errors.New "components are empty") else b in
  set_components b cc.

(** WithDocs adds docs support to the service. *)
Definition WithDocs (file : string) (b : Builder) (p : process)
    : process * Builder :=
  let p := did (info_ImportDocCalled file) p in
  match info_ImportDoc file with
  | Some _ => (p, add_error b (Errors.New "failed to import doc file"))
  | None => (p, b)
  end.

(** WithSIGHUP adds custom SIGHUP handling to the service. *)
Definition WithSIGHUP (handler : option Handler) (b : Builder) : Builder :=
  let b := match handler with
           | None => add_error b (Errors.New "sighub handler is nil")
           | Some _ => b
           end in
  set_sighupHandler b handler.

(** The options of the default HTTP component, for the port [portVal]. *)
Definition http_options (b : Builder) (portVal : Z) : list http_option :=
  [http_Port portVal]
  ++ match healthCheck b with Some hcf => [http_HealthCheck hcf] | None => [] end
  ++ match routes b with Some rr => [http_Routes rr] | None => [] end
  ++ (if decide (0 < length (middlewares b))%nat
      then [http_Middlewares (middlewares b)] else []).

Definition createHTTPComponent (b : Builder) (p : process)
    : process * result Component :=
  let create (portVal : Z) :=
    let options := http_options b portVal in
    let p := did (http_NewCalled options) p in
    match http_New options with
    | Err err =>
        (p, Err (Errors.withMessage err "failed to create default HTTP component"))
    | Ok cp => (p, Ok cp)
    end in
  match env p !! "PATRON_HTTP_DEFAULT_PORT" with
  | Some port =>
      match strconv_ParseInt port with
      | Err err =>
          (p, Err (Errors.withMessage err "env var for HTTP default port is not valid"))
      | Ok portVal => create portVal
      end
  | None => create 50000
  end.

Definition setupInfo (b : Builder) (p : process) : process :=
  foldl (fun p c => did (info_AppendComponent c) p) p (components b).

(** Run the service.  The deferred [trace.Close()] runs at every return
    after the check of the errors; its error is only logged. *)
Definition Run (b : Builder) (p : process) : process * Builder * option error :=
  if decide (0 < length (errors b))%nat then
    (p, b, errors_Aggregate (errors b))
  else
    let '(p, r) := createHTTPComponent b p in
    match r with
    | Err err => (did trace_Close p, b, Some err)
    | Ok httpCmp =>
        let b := set_components b (components b ++ [httpCmp]) in
        let p := setupInfo b p in
        let p := did (service_newCalled (components b) (sighupHandler b)) p in
        match service_new (components b) (sighupHandler b) with
        | Err err => (did trace_Close p, b, Some err)
        | Ok s =>
            let p := did (service_RunCalled s) p in
            (did trace_Close p, b, service_Run s)
        end
    end.

End WithPlatform.
End Patron.

(* ===================================================================== *)
(** ** Factories: validation, option application, buffer defaults *)
(* ===================================================================== *)

Section Factories.
Import Go Kafka.
Context {Decoder Cfg : Type}.

Local Abbreviation ConsumerConfig := (Kafka.ConsumerConfig Decoder Cfg).

Lemma length_zero_nil {A} (l : list A) : length l = 0%nat <-> l = [].
Proof. destruct l; simpl; split; intros; done. Qed.

Lemma Group_New_Err name group topic brokers
    (oo : list (OptionFunc (@Group.configs Decoder Cfg))) :
  is_Err (Group.New name group topic brokers oo) = true <->
  name = "" \/ group = "" \/ brokers = [] \/ topic = "".
Proof.
  unfold Group.New. rewrite <- (length_zero_nil brokers).
  repeat case_decide; simpl; intuition congruence.
Qed.

Lemma Group000_New_Err name group topic brokers
    (oo : list (OptionFunc ConsumerConfig)) :
  is_Err (Group000.New name group topic brokers oo) = true <->
  name = "" \/ group = "" \/ brokers = [] \/ topic = "".
Proof.
  unfold Group000.New. rewrite <- (length_zero_nil brokers).
  repeat case_decide; simpl; intuition congruence.
Qed.

Lemma Simple_New_Err name topic brokers
    (oo : list (OptionFunc (@Simple.configs Decoder Cfg))) :
  is_Err (Simple.New name topic brokers oo) = true <->
  name = "" \/ brokers = [] \/ topic = "".
Proof.
  unfold Simple.New. rewrite <- (length_zero_nil brokers).
  repeat case_decide; simpl; intuition congruence.
Qed.

(** C6.  [New] fails exactly when a required field is empty: the name, the
    topic or the broker list in either mode, the group in group mode; and
    when it does not fail it returns the factory that holds the arguments. *)
Theorem New_validation name group topic brokers
    (og : list (OptionFunc (@Group.configs Decoder Cfg)))
    (og0 : list (OptionFunc ConsumerConfig))
    (os : list (OptionFunc (@Simple.configs Decoder Cfg))) :
  (is_Err (Group.New name group topic brokers og) = true <->
     name = "" \/ group = "" \/ brokers = [] \/ topic = "") /\
  (is_Err (Group000.New name group topic brokers og0) = true <->
     name = "" \/ group = "" \/ brokers = [] \/ topic = "") /\
  (is_Err (Simple.New name topic brokers os) = true <->
     name = "" \/ brokers = [] \/ topic = "") /\
  (is_Err (Group.New name group topic brokers og) = false ->
     Group.New name group topic brokers og =
       Ok (Group.mkFactory name group topic brokers og)) /\
  (is_Err (Group000.New name group topic brokers og0) = false ->
     Group000.New name group topic brokers og0 =
       Ok (Group000.mkFactory name group topic brokers og0)) /\
  (is_Err (Simple.New name topic brokers os) = false ->
     Simple.New name topic brokers os =
       Ok (Simple.mkFactory name topic brokers os)).
Proof.
  split; [apply Group_New_Err|].
  split; [apply Group000_New_Err|].
  split; [apply Simple_New_Err|].
  unfold Group.New, Group000.New, Simple.New.
  repeat split; repeat case_decide; simpl; congruence.
Qed.

(** *** Option application *)

(** The error [Create] of group.go returns when option [o] fails with [e]. *)
Definition Group_option_error {St} (o : OptionFunc St) (e : error) : error :=
  Errorf_v ("Could not apply OptionFunc '" +:+ FuncName o +:+
            "' to consumer : " +:+ Error e).

(** The error [Create] of part_000 returns when an option fails with [e]. *)
Definition Group000_option_error {St} (o : OptionFunc St) (e : error) : error :=
  Errorf_w "could not apply OptionFunc to consumer : " e.

(** The error [Create] of part_001 returns when an option fails with [e]. *)
Definition Simple_option_error {St} (o : OptionFunc St) (e : error) : error := e.

(** [run], the option loop of a [Create], stops at the first failure: when
    the options [pre] succeed and the next one, [o], fails with [e], the
    loop has called [pre] and [o] in this order and nothing of [post], and
    its result is [wrap o e]. *)
Definition stops_at_first_failure {St C : Type}
    (run : list (OptionFunc St) -> C -> list string * result C)
    (state : C -> St) (wrap : OptionFunc St -> error -> error) : Prop :=
  forall pre o post c called c' st e,
    run pre c = (called, Ok c') ->
    call o (state c') = (st, Some e) ->
    run (pre ++ o :: post) c = (map FuncName pre ++ [FuncName o], Err (wrap o e)).

(** [run] calls every option, in declaration order, when none fails. *)
Definition calls_in_order {St C : Type}
    (run : list (OptionFunc St) -> C -> list string * result C) : Prop :=
  forall oo c called c',
    run oo c = (called, Ok c') -> called = map FuncName oo.

(** Case analysis along an option loop: on the result of the call of an
    option, and on the result of the loop over the rest. *)
Ltac option_loop :=
  repeat match goal with
  | |- context [call ?o ?st] => destruct (call o st) as [? [?|]] eqn:?
  | |- context [let '(_, _) := ?r in _] => destruct r as [? ?] eqn:?
  | H : (_, _) = (_, _) |- _ => inversion H; subst; clear H
  end.

(** The inductive step of [stops_at_first_failure]: the head option
    succeeded, the induction hypothesis [IH] gives the rest. *)
Ltac first_failure_step IH :=
  match goal with
  | Hpre : context [call ?p ?s] |- _ =>
      destruct (call p s) as [? [?|]] eqn:?; [by inversion Hpre|]
  end;
  match goal with
  | Hpre : context [let '(_, _) := ?r in _] |- _ =>
      destruct r as [? ?] eqn:?; inversion Hpre; subst
  end;
  erewrite IH by eauto; done.

Lemma Group_calls_in_order :
  calls_in_order (@Group.Create_options Decoder Cfg).
Proof.
  intros oo; induction oo as [|o oo IH]; intros c called c' H; simpl in H.
  - by inversion H.
  - revert H. option_loop; intros H; inversion H; subst.
    simpl. f_equal. eauto.
Qed.

Lemma Group000_calls_in_order :
  calls_in_order (@Group000.Create_options Decoder Cfg).
Proof.
  intros oo; induction oo as [|o oo IH]; intros c called c' H; simpl in H.
  - by inversion H.
  - revert H. option_loop; intros H; inversion H; subst.
    simpl. f_equal. eauto.
Qed.

Lemma Simple_calls_in_order :
  calls_in_order (@Simple.Create_options Decoder Cfg).
Proof.
  intros oo; induction oo as [|o oo IH]; intros c called c' H; simpl in H.
  - by inversion H.
  - revert H. option_loop; intros H; inversion H; subst.
    simpl. f_equal. eauto.
Qed.

Lemma Group_stops_at_first_failure :
  stops_at_first_failure (@Group.Create_options Decoder Cfg)
    Group.consumerConfig Group_option_error.
Proof.
  intros pre; induction pre as [|p pre IH]; intros o post c called c' st e Hpre Ho.
  - simpl in *. inversion Hpre; subst. by rewrite Ho.
  - simpl in *. first_failure_step IH.
Qed.

Lemma Group000_stops_at_first_failure :
  stops_at_first_failure (@Group000.Create_options Decoder Cfg)
    Group000.config Group000_option_error.
Proof.
  intros pre; induction pre as [|p pre IH]; intros o post c called c' st e Hpre Ho.
  - simpl in *. inversion Hpre; subst. by rewrite Ho.
  - simpl in *. first_failure_step IH.
Qed.

Lemma Simple_stops_at_first_failure :
  stops_at_first_failure (@Simple.Create_options Decoder Cfg)
    Simple.consumerConfig Simple_option_error.
Proof.
  intros pre; induction pre as [|p pre IH]; intros o post c called c' st e Hpre Ho.
  - simpl in *. inversion Hpre; subst. by rewrite Ho.
  - simpl in *. first_failure_step IH.
Qed.

(** C7, as the code has it.  In the three files [Create] calls the options
    in declaration order and stops at the first failure, with no later
    option called.  What it returns then differs: group.go returns a new
    error whose text names the failing option and quotes the text of its
    error; part_000 wraps the error of the option under a fixed text;
    part_001 returns the error of the option itself. *)
Theorem Create_stops_at_first_failure (SC : string -> result Cfg) :
  (stops_at_first_failure (@Group.Create_options Decoder Cfg)
     Group.consumerConfig Group_option_error /\
   calls_in_order (@Group.Create_options Decoder Cfg) /\
   forall (f : @Group.Factory Decoder Cfg) config, SC (Group.name f) = Ok config ->
     Group.Create SC f =
       Group.Create_options (Group.oo f) (Group.Create_consumer f config)) /\
  (stops_at_first_failure (@Group000.Create_options Decoder Cfg)
     Group000.config Group000_option_error /\
   calls_in_order (@Group000.Create_options Decoder Cfg) /\
   forall (f : @Group000.Factory Decoder Cfg) config, SC (Group000.name f) = Ok config ->
     Group000.Create SC f =
       Group000.Create_options (Group000.oo f) (Group000.Create_consumer f config)) /\
  (stops_at_first_failure (@Simple.Create_options Decoder Cfg)
     Simple.consumerConfig Simple_option_error /\
   calls_in_order (@Simple.Create_options Decoder Cfg) /\
   forall (f : @Simple.Factory Decoder Cfg) config, SC (Simple.name f) = Ok config ->
     Simple.Create SC f =
       Simple.Create_options (Simple.oo f) (Simple.Create_consumer f config)).
Proof.
  repeat split;
    auto using Group_stops_at_first_failure, Group_calls_in_order,
      Group000_stops_at_first_failure, Group000_calls_in_order,
      Simple_stops_at_first_failure, Simple_calls_in_order.
  - intros f config H. unfold Group.Create. by rewrite H.
  - intros f config H. unfold Group000.Create. by rewrite H.
  - intros f config H. unfold Simple.Create. by rewrite H.
Qed.

(** *** Buffer defaults *)

(** An option that leaves the buffer size alone. *)
Definition keeps_Buffer (o : OptionFunc (ConsumerConfig * Cfg)) : Prop :=
  forall st, Buffer (fst (fst (call o st))) = Buffer (fst st).

Lemma Group_Create_options_Buffer oo c called c' :
  Forall keeps_Buffer oo ->
  Group.Create_options oo c = (called, Ok c') ->
  Buffer (Group.consumerCnf c') = Buffer (Group.consumerCnf c).
Proof.
  intros Hall; revert c called.
  induction Hall as [|o oo Ho _ IH]; intros c called H; simpl in H.
  - by inversion H.
  - specialize (Ho (Group.consumerConfig c)). unfold Group.configs in *.
    destruct (call o (Group.consumerConfig c)) as [st [e|]]; simpl in H; [inversion H|].
    destruct (Group.Create_options oo _) as [called' r] eqn:Hrec.
    inversion H; subst. erewrite IH by eauto. simpl in *. exact Ho.
Qed.

Lemma Simple_Create_options_Buffer oo c called c' :
  Forall keeps_Buffer oo ->
  Simple.Create_options oo c = (called, Ok c') ->
  Buffer (Simple.consumerCnf c') = Buffer (Simple.consumerCnf c).
Proof.
  intros Hall; revert c called.
  induction Hall as [|o oo Ho _ IH]; intros c called H; simpl in H.
  - by inversion H.
  - specialize (Ho (Simple.consumerConfig c)). unfold Simple.configs in *.
    destruct (call o (Simple.consumerConfig c)) as [st [e|]]; simpl in H; [inversion H|].
    destruct (Simple.Create_options oo _) as [called' r] eqn:Hrec.
    inversion H; subst. erewrite IH by eauto. simpl in *. exact Ho.
Qed.

Lemma Group_Create_Buffer (SC : string -> result Cfg)
    (f : @Group.Factory Decoder Cfg) called c :
  Forall keeps_Buffer (Group.oo f) ->
  Group.Create SC f = (called, Ok c) ->
  Buffer (Group.consumerCnf c) = 0.
Proof.
  unfold Group.Create. intros Hall H.
  destruct (SC (Group.name f)) as [config|]; [|done].
  by rewrite (Group_Create_options_Buffer _ _ _ _ Hall H).
Qed.

Lemma Simple_Create_Buffer (SC : string -> result Cfg)
    (f : @Simple.Factory Decoder Cfg) called c :
  Forall keeps_Buffer (Simple.oo f) ->
  Simple.Create SC f = (called, Ok c) ->
  Buffer (Simple.consumerCnf c) = 1000.
Proof.
  unfold Simple.Create. intros Hall H.
  destruct (SC (Simple.name f)) as [config|]; [|done].
  by rewrite (Simple_Create_options_Buffer _ _ _ _ Hall H).
Qed.

End Factories.

(* ===================================================================== *)
(** ** Lag measurement on traces *)
(* ===================================================================== *)

Section Lag.
Import Go Kafka.
Context {Message : Type}.
Implicit Types (tr evs : list (event Message)) (m : ConsumerMessage).

Lemma sent_msgs_app ch tr evs :
  sent_msgs ch (tr ++ evs) = sent_msgs ch tr ++ sent_msgs ch evs.
Proof. apply omap_app. Qed.

Lemma sent_errs_app ch tr evs :
  sent_errs ch (tr ++ evs) = sent_errs ch tr ++ sent_errs ch evs.
Proof. apply omap_app. Qed.

Lemma client_errors_app tr evs :
  client_errors (tr ++ evs) = client_errors tr ++ client_errors evs.
Proof. apply omap_app. Qed.

Lemma received_app tr evs : received (tr ++ evs) = received tr ++ received evs.
Proof. apply omap_app. Qed.


Lemma lag_recorded_app_r g tr evs m :
  lag_recorded g evs m -> lag_recorded g (tr ++ evs) m.
Proof.
  intros (i & high & H1 & H2). exists (length tr + i)%nat, high.
  replace (S (length tr + i)) with (length tr + S i)%nat by lia.
  by rewrite !lookup_app_r, !Nat.add_sub', H1, H2 by lia.
Qed.

Lemma lag_recorded_take g tr j m :
  lag_recorded g (take j tr) m -> lag_recorded g tr m.
Proof.
  intros (i & high & H1 & H2). exists i, high.
  apply lookup_take_Some in H1 as [H1 _], H2 as [H2 _]. done.
Qed.


(** Every claim in [tr ++ evs] has its gauge update before it when the
    claims of [tr] have theirs in [tr] and those of [evs] in [tr] or in
    the part of [evs] before them. *)
Lemma lag_before_claim_app g tr evs :
  lag_before_claim g tr ->
  (forall j m, evs !! j = Some (EvClaimMessage m) ->
     lag_recorded g (tr ++ take j evs) m) ->
  lag_before_claim g (tr ++ evs).
Proof.
  intros Htr Hevs j m Hj.
  apply lookup_app_Some in Hj as [Hj|[Hge Hj]].
  - rewrite take_app_le by (apply Nat.lt_le_incl; eapply lookup_lt_Some; eauto).
    eauto.
  - rewrite take_app_ge by done. eauto.
Qed.

Lemma lag_before_claim_app_both g tr evs :
  lag_before_claim g tr -> lag_before_claim g evs ->
  lag_before_claim g (tr ++ evs).
Proof.
  intros Htr Hevs. apply lag_before_claim_app; [done|].
  intros j m Hj. apply lag_recorded_app_r. eauto.
Qed.

(** A trace with no receive and no claim satisfies both properties. *)
Definition quiet (ev : event Message) : bool :=
  match ev with
  | EvRecv _ _ | EvClaimMessage _ => false
  | _ => true
  end.


Lemma lag_before_claim_quiet g evs :
  Forall (fun ev => quiet ev = true) evs -> lag_before_claim g evs.
Proof.
  intros Hq j m Hj.
  by apply (Forall_lookup_1 _ _ _ _ Hq) in Hj.
Qed.


End Lag.

(* ===================================================================== *)
(** ** The claim handler of group mode *)
(* ===================================================================== *)

Section ClaimHandler.
Import Go Kafka.
Context {Decoder Cfg Message : Type}.
Variable kafka_ClaimMessage :
  option Decoder -> ConsumerMessage -> bool -> result Message.

Local Abbreviation handler := (@Group.handler Decoder Cfg).
Local Abbreviation handler000 := (@Group000.handler Decoder Cfg).
Local Abbreviation ConsumeClaim := (Group.ConsumeClaim kafka_ClaimMessage).
Local Abbreviation ConsumeClaim000 :=
  (Group000.ConsumeClaim (fun msg dec sess => kafka_ClaimMessage dec msg sess)).

(** What the handler does for one record whose claim processing gives
    [msg]: receive, gauge, claim, send. *)
Definition record_events (g : string) (ch : nat)
    (r : ConsumerMessage * Z) (msg : Message) : list (event Message) :=
  [EvRecv r.1 r.2;
   EvGaugeSet g (Topic r.1) (Partition r.1) (r.2 - Offset r.1);
   EvClaimMessage r.1;
   EvSendMsg ch msg].

(** What the handler does for a record whose claim processing fails. *)
Definition failed_events (g : string) (r : ConsumerMessage * Z)
    : list (event Message) :=
  [EvRecv r.1 r.2;
   EvGaugeSet g (Topic r.1) (Partition r.1) (r.2 - Offset r.1);
   EvClaimMessage r.1].

(** The claim processor succeeds on every record of [claim], with the
    messages [msgs]. *)
Definition all_claimed (dec : option Decoder)
    (claim : list (ConsumerMessage * Z)) (msgs : list Message) : Prop :=
  Forall2 (fun r msg => kafka_ClaimMessage dec r.1 true = Ok msg) claim msgs.

Lemma ConsumeClaim_ok (h : handler) claim msgs :
  all_claimed (DecoderFunc (Group.consumerCnf (Group.hconsumer h))) claim msgs ->
  ConsumeClaim h claim =
    (concat (zip_with (record_events (Group.group (Group.hconsumer h))
                         (chan_id (Group.messages h))) claim msgs), None).
Proof.
  induction 1 as [|[m high] msg claim msgs Hm _ IH]; simpl in *; [done|].
  by rewrite Hm, IH.
Qed.

Lemma ConsumeClaim_first_error (h : handler) pre msgs m high post err :
  all_claimed (DecoderFunc (Group.consumerCnf (Group.hconsumer h))) pre msgs ->
  kafka_ClaimMessage (DecoderFunc (Group.consumerCnf (Group.hconsumer h))) m true
    = Err err ->
  ConsumeClaim h (pre ++ (m, high) :: post) =
    (concat (zip_with (record_events (Group.group (Group.hconsumer h))
                         (chan_id (Group.messages h))) pre msgs)
       ++ failed_events (Group.group (Group.hconsumer h)) (m, high),
     Some err).
Proof.
  intros Hpre Herr.
  induction Hpre as [|[m' high'] msg pre msgs Hm _ IH]; simpl in *.
  - by rewrite Herr.
  - by rewrite Hm, IH.
Qed.

(** The claim handler sends messages only: no run of it has a send on an
    error queue. *)
Lemma ConsumeClaim_sends_no_error (h : handler) claim ch :
  sent_errs ch (ConsumeClaim h claim).1 = [].
Proof.
  induction claim as [|[m high] claim IH]; simpl; [done|].
  destruct (kafka_ClaimMessage _ m true); [|done].
  destruct (ConsumeClaim h claim) as [evs r]. done.
Qed.

Lemma ConsumeClaim000_ok (h : handler000) claim msgs :
  all_claimed (DecoderFunc (Group000.config (Group000.hconsumer h))) claim msgs ->
  ConsumeClaim000 h claim =
    (concat (zip_with (record_events (Group000.group (Group000.hconsumer h))
                         (chan_id (Group000.messages h))) claim msgs), None).
Proof.
  induction 1 as [|[m high] msg claim msgs Hm _ IH]; simpl in *; [done|].
  by rewrite Hm, IH.
Qed.

Lemma ConsumeClaim000_first_error (h : handler000) pre msgs m high post err :
  all_claimed (DecoderFunc (Group000.config (Group000.hconsumer h))) pre msgs ->
  kafka_ClaimMessage (DecoderFunc (Group000.config (Group000.hconsumer h))) m true
    = Err err ->
  ConsumeClaim000 h (pre ++ (m, high) :: post) =
    (concat (zip_with (record_events (Group000.group (Group000.hconsumer h))
                         (chan_id (Group000.messages h))) pre msgs)
       ++ failed_events (Group000.group (Group000.hconsumer h)) (m, high),
     Some err).
Proof.
  intros Hpre Herr.
  induction Hpre as [|[m' high'] msg pre msgs Hm _ IH]; simpl in *.
  - by rewrite Herr.
  - by rewrite Hm, IH.
Qed.

(** The projections of a run of successful records. *)
Lemma record_events_sent g ch claim msgs :
  length claim = length msgs ->
  sent_msgs ch (concat (zip_with (record_events g ch) claim msgs)) = msgs.
Proof.
  revert msgs; induction claim as [|r claim IH]; intros [|msg msgs] Hlen;
    simpl in *; try done.
  unfold sent_msgs in *. simpl. case_decide; [|done].
  f_equal. apply IH. lia.
Qed.

Lemma record_events_claimed g ch claim msgs :
  length claim = length msgs ->
  claimed (concat (zip_with (record_events g ch) claim msgs)) = map fst claim.
Proof.
  revert msgs; induction claim as [|r claim IH]; intros [|msg msgs] Hlen;
    simpl in *; try done.
  unfold claimed in *. simpl. f_equal. apply IH. lia.
Qed.


Lemma ConsumeClaim000_lag (h : handler000) claim :
  lag_per_record (Group000.group (Group000.hconsumer h)) (ConsumeClaim000 h claim).1 /\
  lag_before_claim (Group000.group (Group000.hconsumer h)) (ConsumeClaim000 h claim).1.
Proof.
  induction claim as [|[m high] claim [IH1 IH2]]; simpl.
  { split; [intros i ? ? Hi|intros i ? Hi]; by rewrite lookup_nil in Hi. }
  destruct (kafka_ClaimMessage _ m true) as [msg|err]; simpl.
  - destruct (ConsumeClaim000 h claim) as [evs r]; simpl in *. split.
    + intros [|[|[|[|i]]]] m' high' Hi; simpl in *; try done.
      * by inversion Hi.
      * by apply IH1.
    + intros [|[|[|[|j]]]] m' Hj; simpl in *; try done.
      * inversion Hj; subst. by exists 0%nat, high.
      * apply (lag_recorded_app_r _ [_; _; _; _]). by apply IH2.
  - split.
    + intros [|[|[|i]]] m' high' Hi; simpl in *; try done. by inversion Hi.
    + intros [|[|[|j]]] m' Hj; simpl in *; try done.
      inversion Hj; subst. by exists 0%nat, high.
Qed.

(** C3.  When the claim processor succeeds on every record of a claim, the
    handler goes through the records in stream order, one at a time
    (receive, gauge, claim, send, then the next record), calls the claim
    processor once per record, sends the resulting messages on the message
    queue in the same order, and returns nil.  This holds for the handler
    of group.go and for that of part_000. *)
Theorem ConsumeClaim_in_stream_order :
  (forall (h : handler) claim msgs,
     all_claimed (DecoderFunc (Group.consumerCnf (Group.hconsumer h))) claim msgs ->
     (ConsumeClaim h claim).1 =
       concat (zip_with (record_events (Group.group (Group.hconsumer h))
                           (chan_id (Group.messages h))) claim msgs) /\
     (ConsumeClaim h claim).2 = None /\
     claimed (ConsumeClaim h claim).1 = map fst claim /\
     sent_msgs (chan_id (Group.messages h)) (ConsumeClaim h claim).1 = msgs) /\
  (forall (h : handler000) claim msgs,
     all_claimed (DecoderFunc (Group000.config (Group000.hconsumer h))) claim msgs ->
     (ConsumeClaim000 h claim).1 =
       concat (zip_with (record_events (Group000.group (Group000.hconsumer h))
                           (chan_id (Group000.messages h))) claim msgs) /\
     (ConsumeClaim000 h claim).2 = None /\
     claimed (ConsumeClaim000 h claim).1 = map fst claim /\
     sent_msgs (chan_id (Group000.messages h)) (ConsumeClaim000 h claim).1 = msgs).
Proof.
  split; intros h claim msgs Hall.
  - rewrite (ConsumeClaim_ok _ _ _ Hall); simpl.
    pose proof (Forall2_length _ _ _ Hall) as Hlen.
    by rewrite record_events_claimed, record_events_sent.
  - rewrite (ConsumeClaim000_ok _ _ _ Hall); simpl.
    pose proof (Forall2_length _ _ _ Hall) as Hlen.
    by rewrite record_events_claimed, record_events_sent.
Qed.

End ClaimHandler.

(* ===================================================================== *)
(** ** The goroutines of group mode *)
(* ===================================================================== *)

Section GroupRuntime.
Import Go Kafka.
Context {Decoder Cfg Message : Type}.
Variable sarama_NewConsumerGroup : list string -> string -> Cfg -> option error.
Variable sarama_cg_Close : nat -> bool -> option error.
Variable kafka_ClaimMessage :
  option Decoder -> ConsumerMessage -> bool -> result Message.

Local Abbreviation world := (@Group.world Decoder Cfg Message).
Local Abbreviation step := (Group.step sarama_cg_Close kafka_ClaimMessage).
Local Abbreviation sched := (Group.sched sarama_cg_Close kafka_ClaimMessage).
Local Abbreviation Consume := (Group.Consume (Message := Message) sarama_NewConsumerGroup).
Local Abbreviation Close := (Group.Close (Message := Message) sarama_cg_Close).

(** Rewrite the lookup of a goroutine after goroutine [j] was updated. *)
Ltac lookup_task i j :=
  destruct (decide (j = i)) as [->|];
  [ rewrite list_lookup_insert_eq by (eapply lookup_lt_Some; eauto)
  | rewrite list_lookup_insert_ne by done ].

(** Two lookups of the same goroutine agree. *)
Ltac same_task :=
  match goal with
  | H1 : ?l !! ?i = Some _, H2 : ?l !! ?i = Some _ |- _ =>
      rewrite H1 in H2; inversion H2; subst; clear H2
  end.

Lemma Group_step_ctxs i (w w' : world) :
  step i w w' -> Group.ctxs w' = Group.ctxs w.
Proof. by destruct 1. Qed.

Lemma cg_closed_insert (w : world) cns h :
  Group.cg_closed w h = true ->
  Group.cg_closed (Group.set_cgs w (<[cns := true]> (Group.cgs w))) h = true.
Proof.
  unfold Group.cg_closed; simpl. intros H.
  destruct (decide (cns = h)) as [->|].
  - destruct (Group.cgs w !! h) eqn:Hh; [|done].
    by rewrite list_lookup_insert_eq by (eapply lookup_lt_Some; eauto).
  - by rewrite list_lookup_insert_ne.
Qed.

Lemma cg_closed_insert_eq (w : world) h :
  (h < length (Group.cgs w))%nat ->
  Group.cg_closed (Group.set_cgs w (<[h := true]> (Group.cgs w))) h = true.
Proof.
  unfold Group.cg_closed; simpl. intros H.
  by rewrite list_lookup_insert_eq.
Qed.

Lemma Group_step_cgs_length i (w w' : world) :
  step i w w' -> length (Group.cgs w') = length (Group.cgs w).
Proof. destruct 1; simpl; by rewrite ?length_insert. Qed.

Lemma Group_step_closed i (w w' : world) h :
  step i w w' -> Group.cg_closed w h = true -> Group.cg_closed w' h = true.
Proof.
  destruct 1; intros Hc; try done.
  - by apply (cg_closed_insert w).
  - by apply (cg_closed_insert (Group.emit _ w)).
Qed.

(** A session loop that has not returned has not returned after any step
    of any goroutine: no rule takes it to [SReturned]. *)
Lemma Group_step_session i j (w w' : world) ctx cns topics hnd chErr pc :
  step j w w' ->
  Group.tasks w !! i = Some (Group.SessionLoop ctx cns topics hnd chErr pc) ->
  pc <> Group.SReturned ->
  exists pc',
    Group.tasks w' !! i = Some (Group.SessionLoop ctx cns topics hnd chErr pc') /\
    pc' <> Group.SReturned.
Proof.
  destruct 1; intros Hi Hpc; simpl; try (by eauto);
    lookup_task i i0; try (by eauto); same_task; eauto.
Qed.

Lemma Group_sched_session i (w w' : world) ctx cns topics hnd chErr pc :
  rtc sched w w' ->
  Group.tasks w !! i = Some (Group.SessionLoop ctx cns topics hnd chErr pc) ->
  pc <> Group.SReturned ->
  exists pc',
    Group.tasks w' !! i = Some (Group.SessionLoop ctx cns topics hnd chErr pc') /\
    pc' <> Group.SReturned.
Proof.
  intros Hrtc; revert pc.
  induction Hrtc as [w|w w1 w' [j Hstep] _ IH]; intros pc Hi Hpc; [eauto|].
  destruct (Group_step_session _ _ _ _ _ _ _ _ _ _ Hstep Hi Hpc) as (pc1 & H1 & Hpc1).
  eauto.
Qed.

Lemma Group_step_watchdog i j (w w' : world) ctx cns chErr pc :
  step j w w' ->
  Group.tasks w !! i = Some (Group.Watchdog ctx cns chErr pc) ->
  exists pc', Group.tasks w' !! i = Some (Group.Watchdog ctx cns chErr pc').
Proof.
  destruct 1; intros Hi; simpl; try (by eauto);
    lookup_task i i0; try (by eauto); same_task; eauto.
Qed.

Lemma Group_sched_watchdog i (w w' : world) ctx cns chErr pc :
  rtc sched w w' ->
  Group.tasks w !! i = Some (Group.Watchdog ctx cns chErr pc) ->
  exists pc', Group.tasks w' !! i = Some (Group.Watchdog ctx cns chErr pc').
Proof.
  intros Hrtc; revert pc.
  induction Hrtc as [w|w w1 w' [j Hstep] _ IH]; intros pc Hi; [eauto|].
  destruct (Group_step_watchdog _ _ _ _ _ _ _ _ Hstep Hi) as (pc1 & H1).
  eauto.
Qed.

Lemma Group_sched_frame (w w' : world) :
  rtc sched w w' ->
  Group.ctxs w' = Group.ctxs w /\
  length (Group.cgs w') = length (Group.cgs w) /\
  forall h, Group.cg_closed w h = true -> Group.cg_closed w' h = true.
Proof.
  induction 1 as [w|w w1 w' [j Hstep] _ (IH1 & IH2 & IH3)]; [done|].
  rewrite IH1, IH2.
  rewrite (Group_step_ctxs _ _ _ Hstep), (Group_step_cgs_length _ _ _ Hstep).
  repeat split. intros h Hh. eauto using Group_step_closed.
Qed.

(** Every step of the watchdog takes it closer to its return. *)
Lemma Group_watchdog_rank i (w w' : world) ctx cns chErr pc :
  Group.tasks w !! i = Some (Group.Watchdog ctx cns chErr pc) ->
  step i w w' ->
  exists pc',
    Group.tasks w' !! i = Some (Group.Watchdog ctx cns chErr pc') /\
    (Group.watchdog_rank pc' < Group.watchdog_rank pc)%nat.
Proof.
  intros Hi Hstep. destruct Hstep; simpl;
    rewrite Hi in H; inversion H; subst;
    rewrite list_lookup_insert_eq by (eapply lookup_lt_Some; eauto);
    eexists; split; try done; simpl; lia.
Qed.

(** Once the context is cancelled, a watchdog in its select can take the
    cancellation branch, which closes the coordination client and returns
    without a send. *)
Lemma Group_watchdog_cancelled i (w : world) ctx cns chErr :
  Group.tasks w !! i = Some (Group.Watchdog ctx cns chErr Group.WSelect) ->
  ctx_done (Group.ctxs w) ctx = true ->
  (cns < length (Group.cgs w))%nat ->
  exists w',
    step i w w' /\
    Group.tasks w' !! i = Some (Group.Watchdog ctx cns chErr Group.WReturned) /\
    Group.cg_closed w' cns = true /\
    Group.trace w' = Group.trace w.
Proof.
  intros Hi Hdone Hlt. eexists. split; [by eapply Group.step_watchdog_done|].
  simpl. rewrite list_lookup_insert_eq by (eapply lookup_lt_Some; eauto).
  repeat split. by apply cg_closed_insert_eq.
Qed.

(** What a successful [Consume] has done. *)
Lemma Group_Consume_success parent c (w w1 : world) c1 chMsg chErr err :
  Consume parent c w = Returns (w1, c1, (chMsg, chErr, err)) ->
  err = None ->
  let k := length (Group.ctxs w) in
  let h := length (Group.cgs w) in
  let b := Buffer (Group.consumerCnf c) in
  c1 = Group.set_cg (Group.set_cnl c (Some k)) (Some h) /\
  chMsg = Some (mkChan (Group.chans w) b) /\
  chErr = Some (mkChan (S (Group.chans w)) b) /\
  Group.ctxs w1 = Group.ctxs w ++ [ctx_done (Group.ctxs w) parent] /\
  Group.cgs w1 = Group.cgs w ++ [false] /\
  Group.trace w1 = Group.trace w /\
  Group.tasks w1 = Group.tasks w ++
    [Group.Watchdog k h (mkChan (S (Group.chans w)) b) Group.WSelect;
     Group.SessionLoop k h [Group.topic c]
       (Group.mkHandler c1 (mkChan (Group.chans w) b))
       (mkChan (S (Group.chans w)) b) Group.SConsume].
Proof.
  unfold Group.Consume, Group.consumeWithGroup, WithCancel, make_chan; simpl.
  destruct (sarama_NewConsumerGroup _ _ _); simpl.
  { intros Hr ->. inversion Hr. }
  case_decide; [done|]. intros Hr _. inversion Hr; subst; clear Hr.
  repeat split. by rewrite <- app_assoc.
Qed.

(** What [Close] does on a consumer that holds a coordination client. *)
Lemma Group_Close_Returns c (w w2 : world) k h err :
  Group.cnl c = Some k -> Group.cg c = Some h ->
  (k < length (Group.ctxs w))%nat -> (h < length (Group.cgs w))%nat ->
  Close c w = Returns (w2, err) ->
  ctx_done (Group.ctxs w2) k = true /\
  Group.cg_closed w2 h = true /\
  Group.tasks w2 = Group.tasks w /\
  Group.trace w2 = Group.trace w /\
  err = Errors.Wrap (sarama_cg_Close h (Group.cg_closed w h)) "failed to close consumer".
Proof.
  unfold Group.Close. intros -> -> Hk Hh H. simpl in H.
  inversion H; subst; clear H. simpl. repeat split.
  - unfold ctx_done, cancel. by rewrite list_lookup_insert_eq.
  - unfold Group.cg_closed; simpl. by rewrite list_lookup_insert_eq.
Qed.

(** A second [Close] of a consumer that holds a coordination client does
    not panic either, and returns what the client answers to the [Close] of
    a closed client, wrapped: nil when that answer is nil. *)
Lemma Group_Close_twice c (w : world) h :
  Group.cg c = Some h ->
  (h < length (Group.cgs w))%nat ->
  exists w2 e1 w3,
    Close c w = Returns (w2, e1) /\
    Close c w2 =
      Returns (w3, Errors.Wrap (sarama_cg_Close h true) "failed to close consumer").
Proof.
  intros Hcg Hh. unfold Group.Close. rewrite Hcg.
  destruct (Group.cnl c) as [k|]; simpl;
    eexists _, _, _; (split; [reflexivity|]);
    unfold Group.cg_closed; simpl;
    by rewrite list_lookup_insert_eq by done.
Qed.

(** The session loop forwards an error of [consumer.Consume] and calls
    [consumer.Consume] again: from the send the only step of the loop is
    the send on the error queue, which takes it back into the call. *)
Lemma Group_session_forwards i (w w' : world) ctx cns topics hnd chErr err :
  Group.tasks w !! i =
    Some (Group.SessionLoop ctx cns topics hnd chErr (Group.SSendErr err)) ->
  step i w w' ->
  Group.trace w' = Group.trace w ++ [EvSendErr (chan_id chErr) (Some err)] /\
  Group.tasks w' !! i =
    Some (Group.SessionLoop ctx cns topics hnd chErr Group.SConsume).
Proof.
  intros Hi Hstep. destruct Hstep; same_task; simpl.
  by rewrite list_lookup_insert_eq by (eapply lookup_lt_Some; eauto).
Qed.

(** The client library may hand the error of the claim handler back as
    the error of [consumer.Consume]: the loop is then at the send of that
    error, and the trace has grown by the events of the handler. *)
Lemma Group_session_handed_back i (w : world) ctx cns topics hnd chErr claim err :
  Group.tasks w !! i =
    Some (Group.SessionLoop ctx cns topics hnd chErr Group.SConsume) ->
  exists w1 w2,
    step i w w1 /\ step i w1 w2 /\
    Group.trace w2 =
      Group.trace w ++ (Group.ConsumeClaim kafka_ClaimMessage hnd claim).1 /\
    Group.tasks w2 !! i =
      Some (Group.SessionLoop ctx cns topics hnd chErr (Group.SSendErr err)).
Proof.
  intros Hi.
  pose proof (lookup_lt_Some _ _ _ Hi) as Hlt.
  eexists _, _. split; [by eapply Group.step_session_claim with (claim := claim)|].
  split.
  - by eapply Group.step_session_err with (err := err).
  - simpl. by rewrite list_lookup_insert_eq.
Qed.

(** The client library may deliver an error on [consumer.Errors()]: the
    watchdog reads it, closes the client and is at the send of the error. *)
Lemma Group_watchdog_takes_error i (w : world) ctx cns chErr e :
  Group.tasks w !! i = Some (Group.Watchdog ctx cns chErr Group.WSelect) ->
  exists w1,
    step i w w1 /\
    Group.trace w1 = Group.trace w ++ [EvClientError e] /\
    Group.tasks w1 !! i =
      Some (Group.Watchdog ctx cns chErr (Group.WSendErr e)).
Proof.
  intros Hi.
  pose proof (lookup_lt_Some _ _ _ Hi) as Hlt.
  eexists. split; [by eapply Group.step_watchdog_error with (consumerError := e)|].
  simpl. by rewrite list_lookup_insert_eq.
Qed.

(** What a step adds to an error queue: nothing, unless the goroutine is
    the watchdog or the session loop of that queue at the send of a value
    the client library gave it. *)
Lemma Group_step_sent_errs i (w w' : world) ch :
  step i w w' ->
  sent_errs ch (Group.trace w') = sent_errs ch (Group.trace w) \/
  exists ctx cns chErr e,
    chan_id chErr = ch /\
    (Group.tasks w !! i =
       Some (Group.Watchdog ctx cns chErr (Group.WSendErr e)) \/
     exists topics hnd err,
       e = Some err /\
       Group.tasks w !! i =
         Some (Group.SessionLoop ctx cns topics hnd chErr (Group.SSendErr err))) /\
    Group.trace w' = Group.trace w ++ [EvSendErr ch e].
Proof.
  destruct 1; simpl; try (by left).
  - left. rewrite sent_errs_app. simpl. by rewrite app_nil_r.
  - destruct (decide (chan_id chErr = ch)) as [<-|Hne].
    + right. eexists _, _, _, _. split; [done|]. split; [by left|done].
    + left. rewrite sent_errs_app. unfold sent_errs at 2. simpl.
      rewrite decide_False by done. by rewrite app_nil_r.
  - left. rewrite sent_errs_app, ConsumeClaim_sends_no_error. by rewrite app_nil_r.
  - destruct (decide (chan_id chErr = ch)) as [<-|Hne].
    + right. eexists _, _, _, _. split; [done|]. split; [|done].
      right. by eexists _, _, _.
    + left. rewrite sent_errs_app. unfold sent_errs at 2. simpl.
      rewrite decide_False by done. by rewrite app_nil_r.
Qed.

(** The watchdog forwards the value it has read: from its send its only
    step is the send on the error queue, after which it has returned. *)
Lemma Group_watchdog_sends i (w w' : world) ctx cns chErr e :
  Group.tasks w !! i = Some (Group.Watchdog ctx cns chErr (Group.WSendErr e)) ->
  step i w w' ->
  Group.tasks w' !! i = Some (Group.Watchdog ctx cns chErr Group.WReturned) /\
  Group.trace w' = Group.trace w ++ [EvSendErr (chan_id chErr) e].
Proof.
  intros Hi Hstep. destruct Hstep; same_task; simpl.
  by rewrite list_lookup_insert_eq by (eapply lookup_lt_Some; eauto).
Qed.

(** C2, as the code has it.  After a successful [Consume], whatever the
    goroutines have done since, [Close] returns: it cancels the derived
    context and closes the coordination client.  In every world reached
    afterwards the context is cancelled and the client closed.  The
    watchdog is on its way out: in its select it can take the cancellation
    branch, which closes the client and returns with nothing sent; when it
    had read an error of the client before, it is at the send of that error
    on the error queue, and the send, once it is accepted, is its last
    step; each of its steps takes it closer to its return (at most two).
    The session loop has not returned. *)
Theorem Close_ends_the_watchdog parent c (w w1 w1' : world) c1 chMsg chErr :
  Consume parent c w = Returns (w1, c1, (Some chMsg, Some chErr, None)) ->
  rtc sched w1 w1' ->
  let iw := length (Group.tasks w) in
  let k := length (Group.ctxs w) in
  let h := length (Group.cgs w) in
  exists w2 err,
    Close c1 w1' = Returns (w2, err) /\
    forall w3,
      rtc sched w2 w3 ->
      ctx_done (Group.ctxs w3) k = true /\
      Group.cg_closed w3 h = true /\
      (exists pcw,
         Group.tasks w3 !! iw = Some (Group.Watchdog k h chErr pcw) /\
         (pcw = Group.WSelect ->
          exists w4,
            step iw w3 w4 /\
            Group.tasks w4 !! iw = Some (Group.Watchdog k h chErr Group.WReturned) /\
            Group.trace w4 = Group.trace w3) /\
         (forall e w4,
            pcw = Group.WSendErr e -> step iw w3 w4 ->
            Group.tasks w4 !! iw = Some (Group.Watchdog k h chErr Group.WReturned) /\
            Group.trace w4 = Group.trace w3 ++ [EvSendErr (chan_id chErr) e]) /\
         (forall w4, step iw w3 w4 ->
            exists pcw',
              Group.tasks w4 !! iw = Some (Group.Watchdog k h chErr pcw') /\
              (Group.watchdog_rank pcw' < Group.watchdog_rank pcw)%nat)) /\
      (exists pcs,
         Group.tasks w3 !! S iw =
           Some (Group.SessionLoop k h [Group.topic c] (Group.mkHandler c1 chMsg)
                   chErr pcs) /\
         pcs <> Group.SReturned).
Proof.
  intros HC H1 iw k h.
  destruct (Group_Consume_success _ _ _ _ _ _ _ _ HC eq_refl)
    as (Hc1 & Hm & He & Hctx & Hcgs & _ & Htasks).
  inversion Hm; inversion He; subst chMsg chErr; clear Hm He.
  fold k h in Hc1, Htasks.
  assert (Hw : Group.tasks w1 !! iw = Some (Group.Watchdog k h
             (mkChan (S (Group.chans w)) (Buffer (Group.consumerCnf c))) Group.WSelect)).
  { rewrite Htasks. by rewrite lookup_app_r, Nat.sub_diag by done. }
  assert (Hs : Group.tasks w1 !! S iw = Some (Group.SessionLoop k h [Group.topic c]
             (Group.mkHandler c1 (mkChan (Group.chans w) (Buffer (Group.consumerCnf c))))
             (mkChan (S (Group.chans w)) (Buffer (Group.consumerCnf c))) Group.SConsume)).
  { rewrite Htasks. rewrite lookup_app_r by (unfold iw; lia).
    by replace (S iw - length (Group.tasks w))%nat with 1%nat by (unfold iw; lia). }
  destruct (Group_sched_frame _ _ H1) as (F1 & F2 & _).
  destruct (Group_sched_watchdog _ _ _ _ _ _ _ H1 Hw) as (pcw1 & Hw1).
  destruct (Group_sched_session _ _ _ _ _ _ _ _ _ H1 Hs) as (pcs1 & Hs1 & Hn1);
    [done|].
  assert (Hcnl : Group.cnl c1 = Some k) by (by rewrite Hc1).
  assert (Hcg : Group.cg c1 = Some h) by (by rewrite Hc1).
  destruct (Close c1 w1') as [[w2 err]|] eqn:HCl;
    [|unfold Group.Close in HCl; by rewrite Hcg in HCl].
  exists w2, err. split; [done|]. intros w3 H3.
  destruct (Group_Close_Returns c1 w1' w2 k h err) as (D & C & T & _); try done.
  { rewrite F1, Hctx, length_app; simpl. unfold k. lia. }
  { rewrite F2, Hcgs, length_app; simpl. unfold h. lia. }
  rewrite <- T in Hw1, Hs1.
  destruct (Group_sched_frame _ _ H3) as (G1 & G2 & G3).
  destruct (Group_sched_watchdog _ _ _ _ _ _ _ H3 Hw1) as (pcw3 & Hw3).
  destruct (Group_sched_session _ _ _ _ _ _ _ _ _ H3 Hs1 Hn1) as (pcs3 & Hs3 & Hn3).
  split; [by rewrite G1|]. split; [by apply G3|].
  split; [|by eauto].
  exists pcw3. split; [done|]. split_and!.
  - intros ->.
    destruct (Group_watchdog_cancelled iw w3 k h
                (mkChan (S (Group.chans w)) (Buffer (Group.consumerCnf c))))
      as (w4 & S4 & T4 & _ & R4); try done.
    + by rewrite G1.
    + specialize (G3 h C). unfold Group.cg_closed in G3.
      destruct (Group.cgs w3 !! h) eqn:Hh; [|done].
      by eapply lookup_lt_Some.
    + by eauto.
  - intros e w4 -> Hstep.
    destruct (Group_watchdog_sends _ _ _ _ _ _ _ Hw3 Hstep) as [T4 R4]. done.
  - intros w4 Hstep. eapply Group_watchdog_rank; eauto.
Qed.

End GroupRuntime.

(* ===================================================================== *)
(** ** The goroutines of simple mode *)
(* ===================================================================== *)

Section SimpleRuntime.
Import Go Kafka.
Context {Decoder Cfg Message : Type}.
Variable sarama_NewConsumer : list string -> Cfg -> option error.
Variable ms_Partitions : string -> result (list Z).
Variable ms_ConsumePartition : string -> Z -> Z -> option error.
Variable Offsets_Initial : Cfg -> Z.
Variable kafka_ClaimMessage :
  option Decoder -> ConsumerMessage -> bool -> result Message.

Local Abbreviation world := (@Simple.world Decoder Cfg Message).
Local Abbreviation consumer := (@Simple.consumer Decoder Cfg).
Local Abbreviation task := (@Simple.task Decoder Cfg Message).
Local Abbreviation step := (Simple.step kafka_ClaimMessage).
Local Abbreviation sched := (Simple.sched kafka_ClaimMessage).
Local Abbreviation partitions_loop :=
  (Simple.partitions_loop (Message := Message) ms_ConsumePartition Offsets_Initial).
Local Abbreviation partitions :=
  (Simple.partitions (Message := Message) sarama_NewConsumer ms_Partitions
     ms_ConsumePartition Offsets_Initial).
Local Abbreviation Consume :=
  (Simple.Consume (Message := Message) sarama_NewConsumer ms_Partitions
     ms_ConsumePartition Offsets_Initial).

Definition reader_closed (w : world) (r : nat) : bool :=
  default false (Simple.readers w !! r).

Definition client_closed (w : world) (h : nat) : bool :=
  default false (Simple.clients w !! h).

(** The partition loop only opens readers: the readers it returns are the
    ones it has added to the world, all open. *)
Lemma partitions_loop_spec (c : consumer) ps pcs (w w' : world) r :
  partitions_loop c ps pcs w = (w', r) ->
  Simple.ctxs w' = Simple.ctxs w /\
  Simple.clients w' = Simple.clients w /\
  Simple.chans w' = Simple.chans w /\
  Simple.tasks w' = Simple.tasks w /\
  Simple.trace w' = Simple.trace w /\
  (length (Simple.readers w) <= length (Simple.readers w'))%nat /\
  forall pcs', r = Ok pcs' ->
    pcs' = pcs ++ seq (length (Simple.readers w)) (length ps) /\
    Simple.readers w' = Simple.readers w ++ replicate (length ps) false.
Proof.
  revert pcs w; induction ps as [|p ps IH]; intros pcs w H; simpl in H.
  - inversion H; subst. split_and!; try done.
    intros pcs' Hr; inversion Hr; subst. simpl. by rewrite !app_nil_r.
  - destruct (ms_ConsumePartition _ _ _).
    + inversion H; subst. by split_and!.
    + apply IH in H as (H1 & H2 & H3 & H4 & H5 & H6 & H7); simpl in *.
      rewrite length_app in H6, H7; simpl in *.
      split_and!; try done; [lia|].
      intros pcs' Hr. destruct (H7 pcs' Hr) as [-> ->].
      rewrite <- !app_assoc; simpl.
      by replace (length (Simple.readers w) + 1)%nat
        with (S (length (Simple.readers w))) by lia.
Qed.

(** What a successful [Consume] has done: a fresh context, a fresh direct
    client, one open reader and one pump per partition. *)
Lemma Simple_Consume_success parent (c : consumer) (w w1 : world) c1
    chMsg chErr err :
  Consume parent c w = Returns (w1, c1, (chMsg, chErr, err)) ->
  err = None ->
  let k := length (Simple.ctxs w) in
  let b := Buffer (Simple.consumerCnf c) in
  exists ps,
    ms_Partitions (Simple.topic c) = Ok ps /\
    ps <> [] /\
    c1 = Simple.set_ms (Simple.set_cnl c (Some k)) (Some (length (Simple.clients w))) /\
    chMsg = Some (mkChan (Simple.chans w) b) /\
    chErr = Some (mkChan (S (Simple.chans w)) b) /\
    Simple.ctxs w1 = Simple.ctxs w ++ [ctx_done (Simple.ctxs w) parent] /\
    Simple.clients w1 = Simple.clients w ++ [false] /\
    Simple.readers w1 = Simple.readers w ++ replicate (length ps) false /\
    Simple.trace w1 = Simple.trace w /\
    Simple.tasks w1 = Simple.tasks w ++
      map (fun pc => Simple.Pump k pc c1 (mkChan (Simple.chans w) b)
                       (mkChan (S (Simple.chans w)) b) Simple.PSelect)
          (seq (length (Simple.readers w)) (length ps)).
Proof.
  unfold Simple.Consume, Simple.consume, Simple.partitions, WithCancel, make_chan;
    simpl.
  case_decide; [done|].
  destruct (sarama_NewConsumer _ _); simpl.
  { intros Hr ->. inversion Hr. }
  destruct (ms_Partitions _) as [ps|]; simpl; [|intros Hr ->; inversion Hr].
  destruct (Simple.partitions_loop _ _ _ _ _ _) as [w' r] eqn:Hloop.
  apply partitions_loop_spec in Hloop as (H1 & H2 & H3 & H4 & H5 & _ & H7);
    simpl in *.
  destruct r as [pcs|]; [|intros Hr ->; inversion Hr].
  destruct (H7 pcs eq_refl) as [-> Hreaders]; simpl in *.
  case_decide as Hlen; [intros Hr ->; inversion Hr|].
  intros Hr _. inversion Hr; subst; clear Hr; simpl.
  exists ps. rewrite H1, H2, H4, H5, Hreaders. split_and!; try done.
  intros ->. by rewrite length_seq in Hlen.
Qed.

(** C5.  When the topic has no partition, [Consume] returns the error
    "got 0 partitions" with nil queues and starts no goroutine. *)
Theorem Consume_zero_partitions parent (c : consumer) (w : world) :
  0 <= Buffer (Simple.consumerCnf c) ->
  sarama_NewConsumer (Brokers (Simple.consumerCnf c)) (Simple.saramaCnf c) = None ->
  ms_Partitions (Simple.topic c) = Ok [] ->
  exists w1 c1,
    Consume parent c w =
      Returns (w1, c1, (None, None, Some (Errors.New "got 0 partitions"))) /\
    Simple.tasks w1 = Simple.tasks w.
Proof.
  intros Hb Hnc Hps.
  unfold Simple.Consume, Simple.consume, Simple.partitions, WithCancel, make_chan;
    simpl.
  case_decide; [lia|]. rewrite Hnc; simpl. rewrite Hps; simpl.
  eexists _, _. split; reflexivity.
Qed.

(** Rewrite the lookup of a goroutine after goroutine [j] was updated. *)
Ltac lookup_task i j :=
  destruct (decide (j = i)) as [->|];
  [ rewrite list_lookup_insert_eq by (eapply lookup_lt_Some; eauto)
  | rewrite list_lookup_insert_ne by done ].

(** Two lookups of the same goroutine agree. *)
Ltac same_task :=
  match goal with
  | H1 : ?l !! ?i = Some _, H2 : ?l !! ?i = Some _ |- _ =>
      rewrite H1 in H2; inversion H2; subst; clear H2
  end.

Lemma reader_closed_insert (w : world) cns r :
  reader_closed w r = true ->
  reader_closed (Simple.set_readers w (<[cns := true]> (Simple.readers w))) r = true.
Proof.
  unfold reader_closed; simpl. intros H.
  destruct (decide (cns = r)) as [->|].
  - destruct (Simple.readers w !! r) eqn:Hh; [|done].
    by rewrite list_lookup_insert_eq by (eapply lookup_lt_Some; eauto).
  - by rewrite list_lookup_insert_ne.
Qed.

(** No step of a goroutine touches the contexts or the direct clients;
    readers are only ever closed. *)
Lemma Simple_step_frame i (w w' : world) :
  step i w w' ->
  Simple.ctxs w' = Simple.ctxs w /\
  Simple.clients w' = Simple.clients w /\
  length (Simple.readers w') = length (Simple.readers w) /\
  forall r, reader_closed w r = true -> reader_closed w' r = true.
Proof.
  destruct 1; simpl; rewrite ?length_insert; split_and!; try done.
  - intros r. apply (reader_closed_insert w).
  - intros r. apply (reader_closed_insert (Simple.emit _ w)).
Qed.

Lemma Simple_sched_frame (w w' : world) :
  rtc sched w w' ->
  Simple.ctxs w' = Simple.ctxs w /\
  Simple.clients w' = Simple.clients w /\
  length (Simple.readers w') = length (Simple.readers w) /\
  forall r, reader_closed w r = true -> reader_closed w' r = true.
Proof.
  induction 1 as [w|w w1 w' [j Hstep] _ (IH1 & IH2 & IH3 & IH4)]; [done|].
  destruct (Simple_step_frame _ _ _ Hstep) as (S1 & S2 & S3 & S4).
  rewrite IH1, IH2, IH3. split_and!; try done. eauto.
Qed.

(** A pump stays the pump it is, whatever goroutine takes a step. *)
Lemma Simple_step_pump i j (w w' : world) ctx cns c chMsg chErr pc :
  step j w w' ->
  Simple.tasks w !! i = Some (Simple.Pump ctx cns c chMsg chErr pc) ->
  exists pc', Simple.tasks w' !! i = Some (Simple.Pump ctx cns c chMsg chErr pc').
Proof.
  destruct 1; intros Hi; simpl;
    try (rewrite lookup_app_l by (eapply lookup_lt_Some; eauto); by eauto);
    lookup_task i i0; try (by eauto); same_task; eauto.
Qed.

Lemma Simple_sched_pump i (w w' : world) ctx cns c chMsg chErr pc :
  rtc sched w w' ->
  Simple.tasks w !! i = Some (Simple.Pump ctx cns c chMsg chErr pc) ->
  exists pc', Simple.tasks w' !! i = Some (Simple.Pump ctx cns c chMsg chErr pc').
Proof.
  intros Hrtc; revert pc.
  induction Hrtc as [w|w w1 w' [j Hstep] _ IH]; intros pc Hi; [eauto|].
  destruct (Simple_step_pump _ _ _ _ _ _ _ _ _ _ Hstep Hi) as (pc1 & H1).
  eauto.
Qed.

(** A pump in its select whose context is cancelled can take the
    cancellation branch: it closes its own reader and returns, and changes
    nothing else. *)
Lemma Simple_pump_cancelled i (w : world) ctx cns c chMsg chErr :
  Simple.tasks w !! i = Some (Simple.Pump ctx cns c chMsg chErr Simple.PSelect) ->
  ctx_done (Simple.ctxs w) ctx = true ->
  (cns < length (Simple.readers w))%nat ->
  exists w',
    step i w w' /\
    Simple.tasks w' !! i = Some (Simple.Pump ctx cns c chMsg chErr Simple.PReturned) /\
    reader_closed w' cns = true /\
    Simple.clients w' = Simple.clients w /\
    Simple.trace w' = Simple.trace w.
Proof.
  intros Hi Hdone Hlt. eexists. split; [by eapply Simple.step_pump_done|].
  simpl. rewrite list_lookup_insert_eq by (eapply lookup_lt_Some; eauto).
  split_and!; try done.
  unfold reader_closed; simpl. by rewrite list_lookup_insert_eq.
Qed.

(** A goroutine is changed by its own steps only. *)
Lemma Simple_step_other i j (w w' : world) t :
  step j w w' -> j <> i ->
  Simple.tasks w !! i = Some t -> Simple.tasks w' !! i = Some t.
Proof.
  destruct 1; intros Hne Hi; simpl;
    rewrite ?list_lookup_insert_ne by done; try done.
  by apply lookup_app_l_Some.
Qed.

(** A pump that takes a record goes back to its select, whatever the
    claim processor will answer for the record: it updates the gauge and
    starts one goroutine for the record. *)
Lemma Simple_pump_takes_record i (w : world) ctx cns c chMsg chErr m high :
  Simple.tasks w !! i = Some (Simple.Pump ctx cns c chMsg chErr Simple.PSelect) ->
  exists w',
    step i w w' /\
    Simple.trace w' = Simple.trace w ++
      [EvRecv m high; EvGaugeSet "" (Topic m) (Partition m) (high - Offset m)] /\
    Simple.tasks w' = Simple.tasks w ++ [Simple.Emit m c chMsg chErr Simple.EClaim] /\
    Simple.tasks w' !! i = Some (Simple.Pump ctx cns c chMsg chErr Simple.PSelect).
Proof.
  intros Hi. eexists. split; [by eapply Simple.step_pump_message|].
  simpl. split_and!; try done. by apply lookup_app_l_Some.
Qed.

(** The steps of the goroutine started for a record, by program point. *)
Lemma Simple_emit_step i (w w' : world) m c chMsg chErr pc :
  Simple.tasks w !! i = Some (Simple.Emit m c chMsg chErr pc) ->
  step i w w' ->
  match pc with
  | Simple.EClaim =>
      Simple.trace w' = Simple.trace w ++ [EvClaimMessage m] /\
      Simple.tasks w' =
        <[i := Simple.Emit m c chMsg chErr (Simple.after_claim kafka_ClaimMessage c m)]>
          (Simple.tasks w)
  | Simple.ESendErr err =>
      Simple.trace w' = Simple.trace w ++ [EvSendErr (chan_id chErr) (Some err)] /\
      Simple.tasks w' =
        <[i := Simple.Emit m c chMsg chErr Simple.EReturned]> (Simple.tasks w)
  | Simple.ESendMsg msg =>
      Simple.trace w' = Simple.trace w ++ [EvSendMsg (chan_id chMsg) msg] /\
      Simple.tasks w' =
        <[i := Simple.Emit m c chMsg chErr Simple.EReturned]> (Simple.tasks w)
  | Simple.EReturned => False
  end.
Proof.
  intros Hi Hstep. destruct Hstep; same_task; done.
Qed.

(** The goroutine of a record whose claim processing fails: its first
    step is the call of the claim processor, its second the send of the
    error on the error queue, and then it has returned. *)
Lemma Simple_emit_failure i (w w1 w2 : world) m c chMsg chErr err :
  Simple.tasks w !! i = Some (Simple.Emit m c chMsg chErr Simple.EClaim) ->
  kafka_ClaimMessage (DecoderFunc (Simple.consumerCnf c)) m false = Err err ->
  step i w w1 -> step i w1 w2 ->
  Simple.trace w1 = Simple.trace w ++ [EvClaimMessage m] /\
  Simple.trace w2 = Simple.trace w1 ++ [EvSendErr (chan_id chErr) (Some err)] /\
  Simple.tasks w2 !! i = Some (Simple.Emit m c chMsg chErr Simple.EReturned) /\
  forall w3, ~ step i w2 w3.
Proof.
  intros Hi Herr H1 H2.
  pose proof (lookup_lt_Some _ _ _ Hi) as Hlt.
  destruct (Simple_emit_step _ _ _ _ _ _ _ _ Hi H1) as [T1 K1].
  unfold Simple.after_claim in K1. rewrite Herr in K1.
  assert (Simple.tasks w1 !! i
          = Some (Simple.Emit m c chMsg chErr (Simple.ESendErr err))) as Hi1.
  { rewrite K1. by apply list_lookup_insert_eq. }
  destruct (Simple_emit_step _ _ _ _ _ _ _ _ Hi1 H2) as [T2 K2].
  assert (Simple.tasks w2 !! i
          = Some (Simple.Emit m c chMsg chErr Simple.EReturned)) as Hi2.
  { rewrite K2. apply list_lookup_insert_eq. by rewrite K1, length_insert. }
  split_and!; try done.
  intros w3 H3. apply (Simple_emit_step _ _ _ _ _ _ _ _ Hi2 H3).
Qed.

(** *** Lag measurement in simple mode *)






(** *** What reaches the queues in simple mode *)

(** What the claim processor gives for a record: an error for the error
    queue or a message for the message queue. *)
Definition claim_errors (c : consumer) (m : ConsumerMessage) : list (option error) :=
  match kafka_ClaimMessage (DecoderFunc (Simple.consumerCnf c)) m false with
  | Err err => [Some err]
  | Ok _ => []
  end.

Definition claim_msgs (c : consumer) (m : ConsumerMessage) : list Message :=
  match kafka_ClaimMessage (DecoderFunc (Simple.consumerCnf c)) m false with
  | Err _ => []
  | Ok msg => [msg]
  end.

(** What a goroutine has still to send on the error queue and on the
    message queue. *)
Definition owed_errs (t : task) : list (option error) :=
  match t with
  | Simple.Pump _ _ _ _ _ (Simple.PSendErr e) => [e]
  | Simple.Emit m c _ _ Simple.EClaim => claim_errors c m
  | Simple.Emit _ _ _ _ (Simple.ESendErr err) => [Some err]
  | _ => []
  end.

Definition owed_msgs (t : task) : list Message :=
  match t with
  | Simple.Emit m c _ _ Simple.EClaim => claim_msgs c m
  | Simple.Emit _ _ _ _ (Simple.ESendMsg msg) => [msg]
  | _ => []
  end.

(** A goroutine of the consumer [c] with the queues [chMsg] and [chErr]. *)
Definition of_consumer (c : consumer) (chMsg chErr : chan) (t : task) : Prop :=
  match t with
  | Simple.Pump _ _ c' chMsg' chErr' _ | Simple.Emit _ c' chMsg' chErr' _ =>
      c' = c /\ chMsg' = chMsg /\ chErr' = chErr
  end.

(** The books of a world whose goroutines all belong to one consumer: the
    errors sent on the error queue and those still owed are, counted with
    multiplicity, the values read from the readers' error channels and one
    error per received record that cannot be claimed; the messages sent
    and owed are one message per received record that can. *)
Definition accounted (c : consumer) (chMsg chErr : chan) (w : world) : Prop :=
  Forall (of_consumer c chMsg chErr) (Simple.tasks w) /\
  sent_errs (chan_id chErr) (Simple.trace w) ++ flat_map owed_errs (Simple.tasks w)
    ≡ₚ client_errors (Simple.trace w)
       ++ flat_map (claim_errors c) (received (Simple.trace w)) /\
  sent_msgs (chan_id chMsg) (Simple.trace w) ++ flat_map owed_msgs (Simple.tasks w)
    ≡ₚ flat_map (claim_msgs c) (received (Simple.trace w)).

Lemma flat_map_insert {A B} (f : A -> list B) (l : list A) i t t' :
  l !! i = Some t ->
  f t' ++ flat_map f l ≡ₚ f t ++ flat_map f (<[i := t']> l).
Proof.
  revert i; induction l as [|x l IH]; intros [|i] Hi; simpl in *; try done.
  - inversion Hi; subst. solve_Permutation.
  - specialize (IH i Hi).
    transitivity (f x ++ (f t' ++ flat_map f l)); [solve_Permutation|].
    rewrite IH. solve_Permutation.
Qed.

(** The books stay balanced when goroutine [i] goes from [t] to [t'],
    adds the events [evs] and starts the goroutines [new], provided the
    step itself is balanced. *)
Lemma accounted_update c chMsg chErr (w w' : world) i t t' evs new :
  accounted c chMsg chErr w ->
  Simple.tasks w !! i = Some t ->
  Simple.trace w' = Simple.trace w ++ evs ->
  Simple.tasks w' = <[i := t']> (Simple.tasks w) ++ new ->
  of_consumer c chMsg chErr t' ->
  Forall (of_consumer c chMsg chErr) new ->
  sent_errs (chan_id chErr) evs ++ owed_errs t' ++ flat_map owed_errs new
    ≡ₚ owed_errs t ++ client_errors evs ++ flat_map (claim_errors c) (received evs) ->
  sent_msgs (chan_id chMsg) evs ++ owed_msgs t' ++ flat_map owed_msgs new
    ≡ₚ owed_msgs t ++ flat_map (claim_msgs c) (received evs) ->
  accounted c chMsg chErr w'.
Proof.
  intros (A1 & A2 & A3) Hi Htr Hts Ht' Hnew He Hm.
  unfold accounted. rewrite Htr, Hts.
  rewrite sent_errs_app, sent_msgs_app, client_errors_app, received_app,
    !flat_map_app.
  split_and!.
  - apply Forall_app. split; [|done]. by apply Forall_insert.
  - apply (Permutation_app_inv_l (owed_errs t)).
    pose proof (flat_map_insert owed_errs _ _ _ t' Hi) as Hins.
    transitivity ((sent_errs (chan_id chErr) (Simple.trace w)
                   ++ flat_map owed_errs (Simple.tasks w))
                  ++ (sent_errs (chan_id chErr) evs ++ owed_errs t'
                      ++ flat_map owed_errs new)).
    { transitivity (sent_errs (chan_id chErr) (Simple.trace w)
                    ++ sent_errs (chan_id chErr) evs ++ flat_map owed_errs new
                    ++ (owed_errs t
                        ++ flat_map owed_errs (<[i := t']> (Simple.tasks w))));
        [solve_Permutation|].
      rewrite <- Hins. solve_Permutation. }
    rewrite A2, He. solve_Permutation.
  - apply (Permutation_app_inv_l (owed_msgs t)).
    pose proof (flat_map_insert owed_msgs _ _ _ t' Hi) as Hins.
    transitivity ((sent_msgs (chan_id chMsg) (Simple.trace w)
                   ++ flat_map owed_msgs (Simple.tasks w))
                  ++ (sent_msgs (chan_id chMsg) evs ++ owed_msgs t'
                      ++ flat_map owed_msgs new)).
    { transitivity (sent_msgs (chan_id chMsg) (Simple.trace w)
                    ++ sent_msgs (chan_id chMsg) evs ++ flat_map owed_msgs new
                    ++ (owed_msgs t
                        ++ flat_map owed_msgs (<[i := t']> (Simple.tasks w))));
        [solve_Permutation|].
      rewrite <- Hins. solve_Permutation. }
    rewrite A3, Hm. solve_Permutation.
Qed.

Lemma Simple_step_accounted c chMsg chErr i (w w' : world) :
  accounted c chMsg chErr w -> step i w w' -> accounted c chMsg chErr w'.
Proof.
  intros Hacc Hstep.
  destruct Hstep as [w i ctx cns c' chMsg' chErr' Hi Hd
                    |w i ctx cns c' chMsg' chErr' e Hi
                    |w i ctx cns c' chMsg' chErr' e Hi
                    |w i ctx cns c' chMsg' chErr' m high Hi
                    |w i m c' chMsg' chErr' Hi
                    |w i m c' chMsg' chErr' e Hi
                    |w i m c' chMsg' chErr' msg Hi];
    destruct (Forall_lookup_1 _ _ _ _ (proj1 Hacc) Hi) as (? & ? & ?); subst.
  - eapply (accounted_update _ _ _ w _ i _ _ [] []); eauto; simpl;
      by rewrite ?app_nil_r.
  - eapply (accounted_update _ _ _ w _ i _ _ [EvClientError e] []); eauto; simpl;
      by rewrite ?app_nil_r.
  - eapply (accounted_update _ _ _ w _ i _ _ [EvSendErr (chan_id chErr) e] []);
      eauto; simpl; unfold sent_errs; simpl; rewrite ?decide_True by done;
      by rewrite ?app_nil_r.
  - eapply (accounted_update _ _ _ w _ i _
              (Simple.Pump ctx cns c chMsg chErr Simple.PSelect)
              [EvRecv m high; _] [Simple.Emit m c chMsg chErr Simple.EClaim]);
      eauto; simpl;
      [by rewrite list_insert_id | by repeat constructor
      | by repeat (constructor; simpl)].
  - eapply (accounted_update _ _ _ w _ i _ _ [EvClaimMessage m] []); eauto; simpl;
      rewrite ?app_nil_r; try done;
      unfold Simple.after_claim, claim_errors, claim_msgs;
      by destruct (kafka_ClaimMessage _ _ _).
  - eapply (accounted_update _ _ _ w _ i _ _
              [EvSendErr (chan_id chErr) (Some e)] []);
      eauto; simpl; unfold sent_errs; simpl; rewrite ?decide_True by done;
      by rewrite ?app_nil_r.
  - eapply (accounted_update _ _ _ w _ i _ _ [EvSendMsg (chan_id chMsg) msg] []);
      eauto; simpl; unfold sent_msgs; simpl; rewrite ?decide_True by done;
      by rewrite ?app_nil_r.
Qed.

Lemma Simple_sched_accounted c chMsg chErr (w w' : world) :
  accounted c chMsg chErr w -> rtc sched w w' -> accounted c chMsg chErr w'.
Proof.
  intros Hacc Hrtc. induction Hrtc as [w|w w1 w' [j Hstep] _ IH]; [done|].
  eauto using Simple_step_accounted.
Qed.

(** A world in which nothing has been sent, received or started yet and
    every goroutine is a pump of the consumer in its select. *)
Lemma accounted_fresh c chMsg chErr (w : world) :
  Simple.trace w = [] ->
  Forall (fun t => exists ctx cns,
            t = Simple.Pump ctx cns c chMsg chErr Simple.PSelect)
    (Simple.tasks w) ->
  accounted c chMsg chErr w.
Proof.
  intros Htr Hts. unfold accounted. rewrite Htr; simpl.
  induction Hts as [|t ts (ctx & cns & ->) _ (IH1 & IH2 & IH3)]; simpl.
  - by split_and!.
  - split_and!; try done. by constructor.
Qed.

(** After a [Consume] in a world where nothing had happened yet, the books
    are balanced, and they stay so whatever the goroutines do. *)
Lemma Simple_Consume_accounted parent (c : consumer) (w w1 w' : world) c1
    chMsg chErr :
  Simple.trace w = [] -> Simple.tasks w = [] ->
  Consume parent c w = Returns (w1, c1, (Some chMsg, Some chErr, None)) ->
  rtc sched w1 w' ->
  accounted c1 chMsg chErr w'.
Proof.
  intros Htr Hts HC Hrtc.
  destruct (Simple_Consume_success _ _ _ _ _ _ _ _ HC eq_refl)
    as (ps & _ & _ & _ & Hm & He & _ & _ & _ & Htr1 & Hts1).
  inversion Hm; inversion He; subst chMsg chErr; clear Hm He.
  eapply Simple_sched_accounted; [|done].
  apply accounted_fresh; [by rewrite Htr1|].
  rewrite Hts1, Hts; simpl. apply Forall_fmap, Forall_forall.
  intros pc _. simpl. eauto.
Qed.

(** When no goroutine has anything left to send, the queues have received
    exactly what was due. *)
Lemma accounted_settled c chMsg chErr (w : world) :
  accounted c chMsg chErr w ->
  Forall (fun t => owed_errs t = [] /\ owed_msgs t = []) (Simple.tasks w) ->
  sent_errs (chan_id chErr) (Simple.trace w)
    ≡ₚ client_errors (Simple.trace w)
       ++ flat_map (claim_errors c) (received (Simple.trace w)) /\
  sent_msgs (chan_id chMsg) (Simple.trace w)
    ≡ₚ flat_map (claim_msgs c) (received (Simple.trace w)).
Proof.
  intros (_ & A2 & A3) Hq.
  assert (flat_map owed_errs (Simple.tasks w) = []
          /\ flat_map owed_msgs (Simple.tasks w) = []) as [E1 E2].
  { clear A2 A3. induction Hq as [|t ts [H1 H2] _ [IH1 IH2]]; simpl; [done|].
    by rewrite H1, H2, IH1, IH2. }
  rewrite E1, E2, !app_nil_r in *. done.
Qed.

(** *** Shutdown in simple mode *)

(** C8, as the code has it.  After a successful [Consume], whatever the
    goroutines have done since, [Close] returns nil and cancels the derived
    context; it closes no partition reader and changes neither the
    goroutines nor the trace.  In every world reached afterwards each pump
    of the consumer is still the pump of its reader, and when it is in its
    select it can take the cancellation branch, by which it closes its own
    reader and returns, with nothing sent. *)
Theorem Close_cancels_the_pumps parent (c : consumer) (w w1 w1' : world)
    c1 chMsg chErr :
  Consume parent c w = Returns (w1, c1, (Some chMsg, Some chErr, None)) ->
  rtc sched w1 w1' ->
  let k := length (Simple.ctxs w) in
  exists w2,
    Simple.Close c1 w1' = Returns (w2, None) /\
    ctx_done (Simple.ctxs w2) k = true /\
    Simple.readers w2 = Simple.readers w1' /\
    Simple.tasks w2 = Simple.tasks w1' /\
    Simple.trace w2 = Simple.trace w1' /\
    forall w3 i,
      rtc sched w2 w3 ->
      (length (Simple.tasks w) <= i < length (Simple.tasks w1))%nat ->
      exists r pc,
        Simple.tasks w3 !! i = Some (Simple.Pump k r c1 chMsg chErr pc) /\
        (pc = Simple.PSelect ->
         exists w4,
           step i w3 w4 /\
           Simple.tasks w4 !! i =
             Some (Simple.Pump k r c1 chMsg chErr Simple.PReturned) /\
           reader_closed w4 r = true /\
           Simple.trace w4 = Simple.trace w3).
Proof.
  intros HC H1 k.
  destruct (Simple_Consume_success _ _ _ _ _ _ _ _ HC eq_refl)
    as (ps & _ & _ & Hc1 & Hm & He & Hctx & _ & Hrd & _ & Htasks).
  inversion Hm; inversion He; subst chMsg chErr; clear Hm He.
  fold k in Hc1, Htasks. subst c1.
  destruct (Simple_sched_frame _ _ H1) as (F1 & _ & F3 & _).
  assert (Hk : (k < length (Simple.ctxs w1'))%nat).
  { rewrite F1, Hctx, length_app; simpl. unfold k; lia. }
  eexists. unfold Simple.Close; simpl.
  split; [reflexivity|]. simpl.
  split; [unfold ctx_done, cancel; by rewrite list_lookup_insert_eq|].
  split_and!; try done.
  intros w3 i H3 [Hlo Hhi].
  rewrite Htasks, length_app, length_map, length_seq in Hhi.
  assert (Hi : Simple.tasks w1 !! i =
    Some (Simple.Pump k (length (Simple.readers w) + (i - length (Simple.tasks w)))
            (Simple.set_ms (Simple.set_cnl c (Some k))
               (Some (length (Simple.clients w))))
            (mkChan (Simple.chans w) (Buffer (Simple.consumerCnf c)))
            (mkChan (S (Simple.chans w)) (Buffer (Simple.consumerCnf c)))
            Simple.PSelect)).
  { rewrite Htasks, lookup_app_r by done.
    rewrite list_lookup_fmap, lookup_seq_lt by lia. done. }
  destruct (Simple_sched_pump _ _ _ _ _ _ _ _ _ H1 Hi) as (pc1 & Hi1).
  destruct (Simple_sched_pump _ (Simple.set_ctxs w1' _) _ _ _ _ _ _ _ H3 Hi1)
    as (pc3 & Hi3).
  destruct (Simple_sched_frame _ _ H3) as (G1 & _ & G3 & _). simpl in G1, G3.
  eexists _, pc3. split; [exact Hi3|]. intros ->.
  destruct (Simple_pump_cancelled _ _ _ _ _ _ _ Hi3) as (w4 & S1 & S2 & S3 & _ & S5).
  - rewrite G1. unfold ctx_done, cancel. by rewrite list_lookup_insert_eq.
  - rewrite G3, F3, Hrd, length_app, length_replicate. lia.
  - eauto.
Qed.

End SimpleRuntime.

(* ===================================================================== *)
(** ** Properties that span the modes *)
(* ===================================================================== *)

Section Modes.
Import Go Kafka.
Context {Decoder Cfg Message : Type}.
Variable kafka_SaramaConfig : string -> result Cfg.
Variable sarama_NewConsumerGroup : list string -> string -> Cfg -> option error.
Variable sarama_cg_Close : nat -> bool -> option error.
Variable sarama_NewConsumer : list string -> Cfg -> option error.
Variable ms_Partitions : string -> result (list Z).
Variable ms_ConsumePartition : string -> Z -> Z -> option error.
Variable Offsets_Initial : Cfg -> Z.
Variable kafka_ClaimMessage :
  option Decoder -> ConsumerMessage -> bool -> result Message.

Local Abbreviation gworld := (@Group.world Decoder Cfg Message).
Local Abbreviation sworld := (@Simple.world Decoder Cfg Message).
Local Abbreviation gstep := (Group.step sarama_cg_Close kafka_ClaimMessage).
Local Abbreviation sstep := (Simple.step kafka_ClaimMessage).
Local Abbreviation ssched := (Simple.sched kafka_ClaimMessage).
Local Abbreviation GConsume :=
  (Group.Consume (Message := Message) sarama_NewConsumerGroup).
Local Abbreviation SConsume :=
  (Simple.Consume (Message := Message) sarama_NewConsumer ms_Partitions
     ms_ConsumePartition Offsets_Initial).

(** *** Close before Consume *)

Lemma Group_Create_options_cg (oo : list (OptionFunc (@Group.configs Decoder Cfg)))
    c called c' :
  Group.Create_options oo c = (called, Ok c') ->
  Group.cnl c' = Group.cnl c /\ Group.cg c' = Group.cg c.
Proof.
  revert c called; induction oo as [|o oo IH]; intros c called H; simpl in H.
  - by inversion H.
  - destruct (call o _) as [st [e|]]; [inversion H|].
    destruct (Group.Create_options oo _) as [called' r] eqn:Hrec.
    inversion H; subst. by apply IH in Hrec.
Qed.

Lemma Group000_Create_options_cg
    (oo : list (OptionFunc (Kafka.ConsumerConfig Decoder Cfg))) c called c' :
  Group000.Create_options oo c = (called, Ok c') ->
  Group000.cnl c' = Group000.cnl c /\ Group000.cg c' = Group000.cg c.
Proof.
  revert c called; induction oo as [|o oo IH]; intros c called H; simpl in H.
  - by inversion H.
  - destruct (call o _) as [st [e|]]; [inversion H|].
    destruct (Group000.Create_options oo _) as [called' r] eqn:Hrec.
    inversion H; subst. by apply IH in Hrec.
Qed.

(** C1, where the code departs from it.  A group consumer that [Create]
    has just returned holds no coordination client, and [Close] on it
    panics: it skips the nil cancel function and then calls [Close] on the
    nil client.  This is so in group.go and in part_000. *)
Theorem Close_before_Consume_panics :
  (forall (f : @Group.Factory Decoder Cfg) called c (w : gworld),
     Group.Create kafka_SaramaConfig f = (called, Ok c) ->
     Group.Close sarama_cg_Close c w = Panics) /\
  (forall (f : @Group000.Factory Decoder Cfg) called c (w : gworld),
     Group000.Create kafka_SaramaConfig f = (called, Ok c) ->
     Group000.Close sarama_cg_Close c w = Panics).
Proof.
  split; intros f called c w H.
  - unfold Group.Create in H. destruct (kafka_SaramaConfig _); [|inversion H].
    apply Group_Create_options_cg in H as [_ Hcg]. simpl in Hcg.
    unfold Group.Close. by rewrite Hcg.
  - unfold Group000.Create in H. destruct (kafka_SaramaConfig _); [|inversion H].
    apply Group000_Create_options_cg in H as [_ Hcg]. simpl in Hcg.
    unfold Group000.Close. by rewrite Hcg.
Qed.

(** In simple mode [Close] never panics and never returns an error,
    before [Consume] or after, the first time or the second. *)
Lemma Simple_Close_returns_nil (c : @Simple.consumer Decoder Cfg) (w : sworld) :
  exists w', Simple.Close c w = Returns (w', None) /\
    exists w'', Simple.Close c w' = Returns (w'', None).
Proof. unfold Simple.Close. eauto. Qed.

(** *** Decode errors *)

(** C4, as the code has it.  Group mode: when the claim processor fails on
    a record, the handler returns the error to the client library at once;
    of the claim it has handled the records before it, and nothing of the
    records after it.  The handler sends on no error queue, and a step of a
    goroutine adds to an error queue only when the goroutine is the
    watchdog or the session loop of that queue at the send of a value the
    client library gave it: the code itself sends nothing for the decode
    error.  The error reaches the error queue when the client library hands
    it back.  Handed back as the error of [consumer.Consume], it takes the
    session loop to the send of that error, and the send takes the loop
    back into [consumer.Consume].  Handed back on [consumer.Errors()], it
    takes the watchdog to the send of that error, and the send is the last
    step of the watchdog.  Simple mode: the goroutine of the failing record
    calls the claim processor, sends the error once on the error queue and
    returns; the pump that took the record is back in its select, with one
    goroutine started for the record, and no step of another goroutine
    changes it; and over every interleaving of the goroutines after
    [Consume], the errors sent on the error queue and those still to be
    sent are, counted with multiplicity, the values read from the readers'
    error channels and one error per received record that cannot be
    claimed. *)
Theorem decode_errors_by_mode :
  (forall (h : @Group.handler Decoder Cfg) pre msgs m high post err,
     all_claimed kafka_ClaimMessage
       (DecoderFunc (Group.consumerCnf (Group.hconsumer h))) pre msgs ->
     kafka_ClaimMessage (DecoderFunc (Group.consumerCnf (Group.hconsumer h)))
       m true = Err err ->
     Group.ConsumeClaim kafka_ClaimMessage h (pre ++ (m, high) :: post) =
       (concat (zip_with (record_events (Group.group (Group.hconsumer h))
                            (chan_id (Group.messages h))) pre msgs)
          ++ failed_events (Group.group (Group.hconsumer h)) (m, high),
        Some err)) /\
  (forall (h : @Group.handler Decoder Cfg) claim ch,
     sent_errs ch (Group.ConsumeClaim kafka_ClaimMessage h claim).1 = []) /\
  (forall i (w w' : gworld) ch,
     gstep i w w' ->
     sent_errs ch (Group.trace w') = sent_errs ch (Group.trace w) \/
     exists ctx cns chErr e,
       chan_id chErr = ch /\
       (Group.tasks w !! i =
          Some (Group.Watchdog ctx cns chErr (Group.WSendErr e)) \/
        exists topics hnd err,
          e = Some err /\
          Group.tasks w !! i =
            Some (Group.SessionLoop ctx cns topics hnd chErr (Group.SSendErr err))) /\
       Group.trace w' = Group.trace w ++ [EvSendErr ch e]) /\
  (forall i (w : gworld) ctx cns topics hnd chErr claim err,
     Group.tasks w !! i =
       Some (Group.SessionLoop ctx cns topics hnd chErr Group.SConsume) ->
     (Group.ConsumeClaim kafka_ClaimMessage hnd claim).2 = Some err ->
     exists w1 w2,
       gstep i w w1 /\ gstep i w1 w2 /\
       Group.trace w2 =
         Group.trace w ++ (Group.ConsumeClaim kafka_ClaimMessage hnd claim).1 /\
       Group.tasks w2 !! i =
         Some (Group.SessionLoop ctx cns topics hnd chErr (Group.SSendErr err)) /\
       forall w3,
         gstep i w2 w3 ->
         Group.trace w3 = Group.trace w2 ++ [EvSendErr (chan_id chErr) (Some err)] /\
         Group.tasks w3 !! i =
           Some (Group.SessionLoop ctx cns topics hnd chErr Group.SConsume)) /\
  (forall i (w : gworld) ctx cns chErr e,
     Group.tasks w !! i = Some (Group.Watchdog ctx cns chErr Group.WSelect) ->
     exists w1,
       gstep i w w1 /\
       Group.trace w1 = Group.trace w ++ [EvClientError e] /\
       Group.tasks w1 !! i =
         Some (Group.Watchdog ctx cns chErr (Group.WSendErr e)) /\
       forall w2,
         gstep i w1 w2 ->
         Group.trace w2 = Group.trace w1 ++ [EvSendErr (chan_id chErr) e] /\
         Group.tasks w2 !! i =
           Some (Group.Watchdog ctx cns chErr Group.WReturned)) /\
  (forall i (w w1 w2 : sworld) m c chMsg chErr err,
     Simple.tasks w !! i = Some (Simple.Emit m c chMsg chErr Simple.EClaim) ->
     kafka_ClaimMessage (DecoderFunc (Simple.consumerCnf c)) m false = Err err ->
     sstep i w w1 -> sstep i w1 w2 ->
     Simple.trace w1 = Simple.trace w ++ [EvClaimMessage m] /\
     Simple.trace w2 = Simple.trace w1 ++ [EvSendErr (chan_id chErr) (Some err)] /\
     Simple.tasks w2 !! i = Some (Simple.Emit m c chMsg chErr Simple.EReturned) /\
     forall w3, ~ sstep i w2 w3) /\
  (forall i (w : sworld) ctx cns c chMsg chErr m high,
     Simple.tasks w !! i =
       Some (Simple.Pump ctx cns c chMsg chErr Simple.PSelect) ->
     exists w',
       sstep i w w' /\
       Simple.trace w' = Simple.trace w ++
         [EvRecv m high; EvGaugeSet "" (Topic m) (Partition m) (high - Offset m)] /\
       Simple.tasks w' =
         Simple.tasks w ++ [Simple.Emit m c chMsg chErr Simple.EClaim] /\
       Simple.tasks w' !! i =
         Some (Simple.Pump ctx cns c chMsg chErr Simple.PSelect)) /\
  (forall i j (w w' : sworld) t,
     sstep j w w' -> j <> i ->
     Simple.tasks w !! i = Some t -> Simple.tasks w' !! i = Some t) /\
  (forall parent c (w w1 w' : sworld) c1 chMsg chErr,
     Simple.trace w = [] -> Simple.tasks w = [] ->
     SConsume parent c w = Returns (w1, c1, (Some chMsg, Some chErr, None)) ->
     rtc ssched w1 w' ->
     accounted kafka_ClaimMessage c1 chMsg chErr w' /\
     (Forall (fun t => owed_errs kafka_ClaimMessage t = []
                       /\ owed_msgs kafka_ClaimMessage t = [])
        (Simple.tasks w') ->
      sent_errs (chan_id chErr) (Simple.trace w')
        ≡ₚ client_errors (Simple.trace w')
           ++ flat_map (claim_errors kafka_ClaimMessage c1)
                (received (Simple.trace w')))).
Proof.
  split_and!.
  - intros. by apply ConsumeClaim_first_error.
  - intros. by apply ConsumeClaim_sends_no_error.
  - intros. by eapply Group_step_sent_errs.
  - intros i w ctx cns topics hnd chErr claim err Hi _.
    destruct (Group_session_handed_back sarama_cg_Close kafka_ClaimMessage
                i w ctx cns topics hnd chErr claim err Hi)
      as (w1 & w2 & S1 & S2 & T2 & Hi2).
    exists w1, w2. split_and!; try done.
    intros w3 S3. by eapply Group_session_forwards.
  - intros i w ctx cns chErr e Hi.
    destruct (Group_watchdog_takes_error sarama_cg_Close kafka_ClaimMessage
                i w ctx cns chErr e Hi) as (w1 & S1 & T1 & Hi1).
    exists w1. split_and!; try done.
    intros w2 S2.
    destruct (Group_watchdog_sends _ _ _ _ _ _ _ _ _ Hi1 S2). done.
  - intros. by eapply Simple_emit_failure.
  - intros. by eapply Simple_pump_takes_record.
  - intros. by eapply Simple_step_other.
  - intros parent c w w1 w' c1 chMsg chErr Htr Hts HC Hrtc.
    assert (accounted kafka_ClaimMessage c1 chMsg chErr w') as Hacc
      by (eapply Simple_Consume_accounted; eauto).
    split; [done|]. intros Hq.
    by destruct (accounted_settled _ _ _ _ _ Hacc Hq).
Qed.

(** *** Lag *)


(** *** Queue capacities *)

Lemma Simple_Consume_caps parent c (w w1 : sworld) c1 chMsg chErr :
  SConsume parent c w = Returns (w1, c1, (chMsg, chErr, None)) ->
  exists qm qe,
    chMsg = Some qm /\ chErr = Some qe /\
    cap qm = Buffer (Simple.consumerCnf c) /\
    cap qe = Buffer (Simple.consumerCnf c).
Proof.
  intros HC.
  destruct (Simple_Consume_success _ _ _ _ _ _ _ _ _ _ _ _ HC eq_refl)
    as (ps & _ & _ & _ & -> & -> & _).
  eexists _, _. by split_and!.
Qed.

Lemma Group_Consume_caps parent c (w w1 : gworld) c1 chMsg chErr :
  GConsume parent c w = Returns (w1, c1, (chMsg, chErr, None)) ->
  exists qm qe,
    chMsg = Some qm /\ chErr = Some qe /\
    cap qm = Buffer (Group.consumerCnf c) /\
    cap qe = Buffer (Group.consumerCnf c).
Proof.
  intros HC.
  destruct (Group_Consume_success _ _ _ _ _ _ _ _ _ HC eq_refl)
    as (_ & -> & -> & _).
  eexists _, _. by split_and!.
Qed.

(** C10.  When no option changes the buffer size, the consumer [Create]
    returns has buffer size 0 in group mode and 1000 in simple mode; and
    whenever [Consume] returns without error, both queues it returns have
    the buffer size of the consumer as their capacity, so 0 and 1000 with
    the defaults. *)
Theorem default_queue_capacities :
  (forall (f : @Group.Factory Decoder Cfg) called c,
     Forall keeps_Buffer (Group.oo f) ->
     Group.Create kafka_SaramaConfig f = (called, Ok c) ->
     Buffer (Group.consumerCnf c) = 0) /\
  (forall (f : @Simple.Factory Decoder Cfg) called c,
     Forall keeps_Buffer (Simple.oo f) ->
     Simple.Create kafka_SaramaConfig f = (called, Ok c) ->
     Buffer (Simple.consumerCnf c) = 1000) /\
  (forall parent c (w w1 : gworld) c1 chMsg chErr,
     GConsume parent c w = Returns (w1, c1, (chMsg, chErr, None)) ->
     exists qm qe,
       chMsg = Some qm /\ chErr = Some qe /\
       cap qm = Buffer (Group.consumerCnf c) /\
       cap qe = Buffer (Group.consumerCnf c)) /\
  (forall parent c (w w1 : sworld) c1 chMsg chErr,
     SConsume parent c w = Returns (w1, c1, (chMsg, chErr, None)) ->
     exists qm qe,
       chMsg = Some qm /\ chErr = Some qe /\
       cap qm = Buffer (Simple.consumerCnf c) /\
       cap qe = Buffer (Simple.consumerCnf c)).
Proof.
  split_and!.
  - intros. by eapply Group_Create_Buffer.
  - intros. by eapply Simple_Create_Buffer.
  - intros. by eapply Group_Consume_caps.
  - intros. by eapply Simple_Consume_caps.
Qed.

End Modes.

(* ===================================================================== *)
(** ** A concrete broker and concrete consumers *)
(* ===================================================================== *)

Module Example.
Import Go Kafka.

(** A client library that always answers: the configuration is trivial,
    every client opens and closes without error. *)
Definition SaramaConfig (name : string) : result unit := Ok tt.
Definition NewConsumerGroup (brokers : list string) (group : string) (cfg : unit)
    : option error := None.
Definition cg_Close (h : nat) (closed : bool) : option error := None.
Definition NewConsumer (brokers : list string) (cfg : unit) : option error := None.
Definition ConsumePartition (topic : string) (partition offset : Z)
    : option error := None.
Definition Offsets_Initial (cfg : unit) : Z := -1.

(** A topic with one partition, and a topic with none. *)
Definition Partitions (topic : string) : result (list Z) :=
  if decide (topic = "empty") then Ok [] else Ok [0].

(** A claim processor that fails on an empty payload and otherwise gives
    the payload as the message. *)
Definition ClaimMessage (dec : option unit) (m : ConsumerMessage) (sess : bool)
    : result (list Byte.byte) :=
  match Value m with
  | [] => Err (errorString "empty payload")
  | v => Ok v
  end.

Definition record (offset : Z) (payload : list Byte.byte) : ConsumerMessage :=
  mkMsg "orders" 0 offset payload.

(** An option that fails, under a given name. *)
Definition failing {St : Type} (name : string) : OptionFunc St :=
  mkOption name (fun st => (st, Some (errorString "boom"))).

(** An option that sets nothing. *)
Definition noop {St : Type} (name : string) : OptionFunc St :=
  mkOption name (fun st => (st, None)).

Definition group_factory (oo : list (OptionFunc (@Group.configs unit unit)))
    : @Group.Factory unit unit :=
  Group.mkFactory "svc" "billing" "orders" ["kafka:9092"] oo.

Definition group000_factory
    (oo : list (OptionFunc (Kafka.ConsumerConfig unit unit)))
    : @Group000.Factory unit unit :=
  Group000.mkFactory "svc" "billing" "orders" ["kafka:9092"] oo.

Definition simple_factory (topic : string)
    (oo : list (OptionFunc (@Simple.configs unit unit)))
    : @Simple.Factory unit unit :=
  Simple.mkFactory "svc" topic ["kafka:9092"] oo.

(** The consumers [Create] returns for the factories without options. *)
Definition group_consumer : @Group.consumer unit unit :=
  Group.Create_consumer (group_factory []) tt.

Definition group000_consumer : @Group000.consumer unit unit :=
  Group000.Create_consumer (group000_factory []) tt.

Definition simple_consumer (topic : string) : @Simple.consumer unit unit :=
  Simple.Create_consumer (simple_factory topic []) tt.

Definition group_handler : @Group.handler unit unit :=
  Group.mkHandler group_consumer (mkChan 0 0).

Definition group000_handler : @Group000.handler unit unit :=
  Group000.mkHandler group000_consumer (mkChan 0 0).

(** A claim of three records at offsets 0, 1, 2. *)
Definition claim3 : list (ConsumerMessage * Z) :=
  [(record 0 ["a"%byte], 3); (record 1 ["b"%byte], 3); (record 2 ["c"%byte], 5)].

(** A claim whose second record has an empty payload. *)
Definition claim_bad : list (ConsumerMessage * Z) :=
  [(record 0 ["a"%byte], 3); (record 1 [], 3); (record 2 ["c"%byte], 5)].

Local Abbreviation gworld := (@Group.world unit unit (list Byte.byte)).
Local Abbreviation sworld := (@Simple.world unit unit (list Byte.byte)).

Definition GConsume := @Group.Consume unit unit (list Byte.byte) NewConsumerGroup.
Definition GClose := @Group.Close unit unit (list Byte.byte) cg_Close.
Definition gstep := @Group.step unit unit _ cg_Close ClaimMessage.
Definition gsched := @Group.sched unit unit _ cg_Close ClaimMessage.
Definition SConsume :=
  @Simple.Consume unit unit (list Byte.byte) NewConsumer Partitions
    ConsumePartition Offsets_Initial.
Definition SClose := @Simple.Close unit unit (list Byte.byte).
Definition sstep := @Simple.step unit unit _ ClaimMessage.
Definition ssched := @Simple.sched unit unit _ ClaimMessage.

(** *** C1: Close before Consume *)

Lemma Close_before_Consume_panics_witness :
  Group.Create SaramaConfig (group_factory []) = ([], Ok group_consumer) /\
  GClose group_consumer Group.init = Panics /\
  Group000.Create SaramaConfig (group000_factory []) = ([], Ok group000_consumer) /\
  Group000.Close cg_Close group000_consumer (Group.init : gworld) = Panics.
Proof.
  split; [reflexivity|]. split.
  - apply (proj1 (@Close_before_Consume_panics unit unit (list Byte.byte)
                    SaramaConfig cg_Close) (group_factory []) [] group_consumer).
    reflexivity.
  - split; [reflexivity|].
    apply (proj2 (@Close_before_Consume_panics unit unit (list Byte.byte)
                    SaramaConfig cg_Close) (group000_factory []) [] group000_consumer).
    reflexivity.
Defined.

(** *** C7: the error of a failing option *)

(** In part_001 the error [Create] returns is the error of the option
    itself, with no cause under it, whichever option fails; in part_000
    the wrapping error has the same text whichever option fails. *)
Lemma Create_error_does_not_name_the_option :
  (Simple.Create SaramaConfig (simple_factory "orders" [failing "kafka.Buffer"])).2
    = Err (errorString "boom") /\
  (Simple.Create SaramaConfig (simple_factory "orders" [failing "kafka.Decoder"])).2
    = Err (errorString "boom") /\
  Unwrap (errorString "boom") = None /\
  (Group000.Create SaramaConfig (group000_factory [failing "kafka.Buffer"])).2
    = (Group000.Create SaramaConfig (group000_factory [failing "kafka.Decoder"])).2.
Proof. by split_and!. Qed.

Lemma Create_stops_at_first_failure_witness :
  Group.Create SaramaConfig
    (group_factory [noop "kafka.Version"; failing "kafka.Buffer"; noop "kafka.Decoder"])
  = (["kafka.Version"; "kafka.Buffer"],
     Err (errorString
            "Could not apply OptionFunc 'kafka.Buffer' to consumer : boom")) /\
  Group000.Create SaramaConfig
    (group000_factory [noop "kafka.Version"; failing "kafka.Buffer"; noop "kafka.Decoder"])
  = (["kafka.Version"; "kafka.Buffer"],
     Err (wrapError "could not apply OptionFunc to consumer : boom"
            (errorString "boom"))) /\
  Simple.Create SaramaConfig
    (simple_factory "orders"
       [noop "kafka.Version"; failing "kafka.Buffer"; noop "kafka.Decoder"])
  = (["kafka.Version"; "kafka.Buffer"], Err (errorString "boom")).
Proof.
  destruct (@Create_stops_at_first_failure unit unit SaramaConfig)
    as ((G1 & _ & G3) & (Z1 & _ & Z3) & (S1 & _ & S3)).
  split_and!.
  - rewrite (G3 _ tt eq_refl).
    eapply (G1 [noop "kafka.Version"] (failing "kafka.Buffer") [noop "kafka.Decoder"])
      with (e := errorString "boom"); reflexivity.
  - rewrite (Z3 _ tt eq_refl).
    eapply (Z1 [noop "kafka.Version"] (failing "kafka.Buffer") [noop "kafka.Decoder"])
      with (e := errorString "boom"); reflexivity.
  - rewrite (S3 _ tt eq_refl).
    eapply (S1 [noop "kafka.Version"] (failing "kafka.Buffer") [noop "kafka.Decoder"])
      with (e := errorString "boom"); reflexivity.
Defined.

(** *** C3: a claim of three records *)

Lemma ConsumeClaim_in_stream_order_witness :
  all_claimed ClaimMessage None claim3 [["a"%byte]; ["b"%byte]; ["c"%byte]] /\
  (Group.ConsumeClaim ClaimMessage group_handler claim3).2 = None /\
  claimed (Group.ConsumeClaim ClaimMessage group_handler claim3).1
    = [record 0 ["a"%byte]; record 1 ["b"%byte]; record 2 ["c"%byte]] /\
  sent_msgs 0 (Group.ConsumeClaim ClaimMessage group_handler claim3).1
    = [["a"%byte]; ["b"%byte]; ["c"%byte]].
Proof.
  assert (all_claimed ClaimMessage None claim3
            [["a"%byte]; ["b"%byte]; ["c"%byte]]) as H.
  { repeat constructor. }
  split; [exact H|].
  destruct (proj1 (@ConsumeClaim_in_stream_order unit unit (list Byte.byte)
                     ClaimMessage) group_handler claim3 _ H)
    as (_ & H2 & H3 & H4).
  split_and!; [exact H2|exact H3|exact H4].
Defined.

(** *** C2: Consume, then Close, in group mode *)

Lemma Close_ends_the_watchdog_witness :
  exists w1 c1 chMsg chErr,
    GConsume 0 group_consumer Group.init
      = Returns (w1, c1, (Some chMsg, Some chErr, None)) /\
    exists w2 err,
      GClose c1 w1 = Returns (w2, err) /\
      forall w3,
        rtc gsched w2 w3 ->
        ctx_done (Group.ctxs w3) 0 = true /\
        Group.cg_closed w3 0 = true /\
        (exists pcw,
           Group.tasks w3 !! 0%nat = Some (Group.Watchdog 0 0 chErr pcw) /\
           (pcw = Group.WSelect ->
            exists w4,
              gstep 0 w3 w4 /\
              Group.tasks w4 !! 0%nat =
                Some (Group.Watchdog 0 0 chErr Group.WReturned) /\
              Group.trace w4 = Group.trace w3) /\
           (forall e w4,
              pcw = Group.WSendErr e -> gstep 0 w3 w4 ->
              Group.tasks w4 !! 0%nat =
                Some (Group.Watchdog 0 0 chErr Group.WReturned) /\
              Group.trace w4 = Group.trace w3 ++ [EvSendErr (chan_id chErr) e]) /\
           (forall w4, gstep 0 w3 w4 ->
              exists pcw',
                Group.tasks w4 !! 0%nat = Some (Group.Watchdog 0 0 chErr pcw') /\
                (Group.watchdog_rank pcw' < Group.watchdog_rank pcw)%nat)) /\
        (exists pcs,
           Group.tasks w3 !! 1%nat =
             Some (Group.SessionLoop 0 0 ["orders"] (Group.mkHandler c1 chMsg)
                     chErr pcs) /\
           pcs <> Group.SReturned).
Proof.
  eexists _, _, _, _. split; [reflexivity|].
  eapply (@Close_ends_the_watchdog unit unit (list Byte.byte)
            NewConsumerGroup cg_Close ClaimMessage 0 group_consumer Group.init);
    [reflexivity|apply rtc_refl].
Defined.

(** After [Consume] and [Close] no world the goroutines can reach has all
    of them returned: the session loop is still running. *)
Lemma session_loop_outlives_Close :
  exists w1 c1 chMsg chErr w2 err,
    GConsume 0 group_consumer Group.init
      = Returns (w1, c1, (Some chMsg, Some chErr, None)) /\
    GClose c1 w1 = Returns (w2, err) /\
    ~ exists w3,
        rtc gsched w2 w3 /\
        Forall (fun t => Group.returned t = true) (Group.tasks w3).
Proof.
  eexists _, _, _, _, _, _.
  split; [reflexivity|]. split; [reflexivity|].
  intros (w3 & Hrtc & Hall).
  eapply (Group_sched_session cg_Close ClaimMessage 1) in Hrtc
    as (pcs & Hs & Hpcs); [| reflexivity | done].
  apply (Forall_lookup_1 _ _ _ _ Hall) in Hs. by destruct pcs.
Qed.

(** *** C5: a topic without partitions *)

Lemma Consume_zero_partitions_witness :
  exists w1 c1,
    SConsume 0 (simple_consumer "empty") Simple.init
      = Returns (w1, c1, (None, None, Some (Errors.New "got 0 partitions"))) /\
    Simple.tasks w1 = Simple.tasks (Simple.init : sworld).
Proof.
  apply (@Consume_zero_partitions unit unit (list Byte.byte) NewConsumer
           Partitions ConsumePartition Offsets_Initial 0
           (simple_consumer "empty") Simple.init).
  - simpl. lia.
  - reflexivity.
  - reflexivity.
Defined.

(** *** C8: Consume, then Close, in simple mode *)

Lemma Close_cancels_the_pumps_witness :
  exists w1 c1 chMsg chErr,
    SConsume 0 (simple_consumer "orders") Simple.init
      = Returns (w1, c1, (Some chMsg, Some chErr, None)) /\
    exists w2,
      SClose c1 w1 = Returns (w2, None) /\
      ctx_done (Simple.ctxs w2) 0 = true /\
      Simple.readers w2 = Simple.readers w1 /\
      Simple.tasks w2 = Simple.tasks w1 /\
      Simple.trace w2 = Simple.trace w1 /\
      forall w3 i,
        rtc ssched w2 w3 ->
        (0 <= i < length (Simple.tasks w1))%nat ->
        exists r pc,
          Simple.tasks w3 !! i = Some (Simple.Pump 0 r c1 chMsg chErr pc) /\
          (pc = Simple.PSelect ->
           exists w4,
             sstep i w3 w4 /\
             Simple.tasks w4 !! i =
               Some (Simple.Pump 0 r c1 chMsg chErr Simple.PReturned) /\
             reader_closed w4 r = true /\
             Simple.trace w4 = Simple.trace w3).
Proof.
  eexists _, _, _, _. split; [reflexivity|].
  eapply (@Close_cancels_the_pumps unit unit (list Byte.byte) NewConsumer
            Partitions ConsumePartition Offsets_Initial ClaimMessage 0
            (simple_consumer "orders") Simple.init);
    [reflexivity|apply rtc_refl].
Defined.

(** After [Consume] and [Close] the pump can still take a record; and
    once it has taken the cancellation branch every goroutine has returned
    and the reader is closed, but the direct client of the consumer is
    open, and no world the goroutines can reach has it closed. *)
Lemma Close_leaves_the_client_open :
  exists w1 c1 chMsg chErr w2,
    SConsume 0 (simple_consumer "orders") Simple.init
      = Returns (w1, c1, (Some chMsg, Some chErr, None)) /\
    SClose c1 w1 = Returns (w2, None) /\
    Simple.ms c1 = Some 0%nat /\
    (exists w3,
       sstep 0 w2 w3 /\
       Simple.tasks w3 =
         [Simple.Pump 0 0 c1 chMsg chErr Simple.PSelect;
          Simple.Emit (record 7 []) c1 chMsg chErr Simple.EClaim]) /\
    (exists w3,
       sstep 0 w2 w3 /\
       Forall (fun t => Simple.returned t = true) (Simple.tasks w3) /\
       reader_closed w3 0 = true /\
       client_closed w3 0 = false) /\
    ~ exists w3, rtc ssched w2 w3 /\ client_closed w3 0 = true.
Proof.
  eexists _, _, _, _, _.
  split; [reflexivity|]. split; [reflexivity|]. split; [reflexivity|].
  split_and!.
  - eexists. split.
    + eapply Simple.step_pump_message with (m := record 7 []) (high := 9).
      reflexivity.
    + reflexivity.
  - eexists. split_and!.
    + eapply Simple.step_pump_done; reflexivity.
    + by repeat constructor.
    + reflexivity.
    + reflexivity.
  - intros (w3 & Hrtc & Hclosed).
    apply Simple_sched_frame in Hrtc as (_ & Hclients & _).
    unfold client_closed in Hclosed. rewrite Hclients in Hclosed. done.
Qed.

(** *** C4: a claim with a record that cannot be decoded *)

Lemma decode_errors_by_mode_witness :
  Group.ConsumeClaim ClaimMessage group_handler claim_bad =
    ([EvRecv (record 0 ["a"%byte]) 3; EvGaugeSet "billing" "orders" 0 3;
      EvClaimMessage (record 0 ["a"%byte]); EvSendMsg 0 ["a"%byte];
      EvRecv (record 1 []) 3; EvGaugeSet "billing" "orders" 0 2;
      EvClaimMessage (record 1 [])],
     Some (errorString "empty payload")) /\
  (exists w1 c1 chMsg chErr,
     GConsume 0 group_consumer Group.init
       = Returns (w1, c1, (Some chMsg, Some chErr, None)) /\
     exists w2 w3,
       gstep 1 w1 w2 /\ gstep 1 w2 w3 /\
       Group.trace w3 =
         Group.trace w1 ++
         (Group.ConsumeClaim ClaimMessage (Group.mkHandler c1 chMsg) claim_bad).1 /\
       Group.tasks w3 !! 1%nat =
         Some (Group.SessionLoop 0 0 ["orders"] (Group.mkHandler c1 chMsg) chErr
                 (Group.SSendErr (errorString "empty payload"))) /\
       forall w4,
         gstep 1 w3 w4 ->
         Group.trace w4 =
           Group.trace w3 ++
           [EvSendErr (chan_id chErr) (Some (errorString "empty payload"))] /\
         Group.tasks w4 !! 1%nat =
           Some (Group.SessionLoop 0 0 ["orders"] (Group.mkHandler c1 chMsg) chErr
                   Group.SConsume)) /\
  exists w1 c1 chMsg chErr w',
    SConsume 0 (simple_consumer "orders") Simple.init
      = Returns (w1, c1, (Some chMsg, Some chErr, None)) /\
    rtc ssched w1 w' /\
    received (Simple.trace w') = [record 1 []; record 2 ["c"%byte]] /\
    Simple.tasks w' !! 0%nat = Some (Simple.Pump 0 0 c1 chMsg chErr Simple.PSelect) /\
    sent_errs (chan_id chErr) (Simple.trace w')
      ≡ₚ [Some (errorString "empty payload")].
Proof.
  destruct (@decode_errors_by_mode unit unit (list Byte.byte)
              cg_Close NewConsumer Partitions ConsumePartition
              Offsets_Initial ClaimMessage)
    as (G & _ & _ & B & _ & _ & _ & _ & S).
  split_and!.
  - apply (G group_handler [(record 0 ["a"%byte], 3)] [["a"%byte]]
             (record 1 []) 3 [(record 2 ["c"%byte], 5)]
             (errorString "empty payload")).
    + repeat constructor.
    + reflexivity.
  - eexists _, _, _, _. split; [reflexivity|].
    eapply (B 1%nat _ 0%nat 0%nat ["orders"] _ _ claim_bad
              (errorString "empty payload")); reflexivity.
  - eexists _, _, _, _, _. split; [reflexivity|].
    match goal with
    | |- rtc ?R ?a ?b /\ _ => assert (Hrun : rtc R a b); [|split; [exact Hrun|]]
    end.
    { eapply rtc_l.
      { exists 0%nat.
        eapply Simple.step_pump_message with (m := record 1 []) (high := 3).
        reflexivity. }
      eapply rtc_l.
      { exists 0%nat.
        eapply Simple.step_pump_message with (m := record 2 ["c"%byte]) (high := 5).
        reflexivity. }
      eapply rtc_l.
      { exists 2%nat. eapply Simple.step_emit_claim. reflexivity. }
      eapply rtc_l.
      { exists 1%nat. eapply Simple.step_emit_claim. reflexivity. }
      eapply rtc_l.
      { exists 1%nat. eapply Simple.step_emit_err. reflexivity. }
      eapply rtc_l.
      { exists 2%nat. eapply Simple.step_emit_msg. reflexivity. }
      apply rtc_refl. }
    split; [reflexivity|]. split; [reflexivity|].
    destruct (S 0%nat (simple_consumer "orders") Simple.init _ _ _ _ _
                eq_refl eq_refl eq_refl Hrun) as [_ Hsettled].
    apply Hsettled. repeat constructor.
Defined.

(** In group mode the decode error need not reach the error queue.  After
    [Consume] the session loop hands the claim to the handler, which
    returns the decode error at the second record; the client library then
    returns nil from [consumer.Consume].  Nothing has been sent on the
    error queue; the goroutines, the contexts and the clients are as
    [Consume] left them, so the program holds no trace of the error that
    it could send later; and the loop can go round again, the world
    unchanged. *)
Lemma decode_error_is_left_to_the_client_library :
  exists w1 c1 chMsg chErr w',
    GConsume 0 group_consumer Group.init
      = Returns (w1, c1, (Some chMsg, Some chErr, None)) /\
    (Group.ConsumeClaim ClaimMessage (Group.mkHandler c1 chMsg) claim_bad).2
      = Some (errorString "empty payload") /\
    rtc gsched w1 w' /\
    Group.trace w' =
      (Group.ConsumeClaim ClaimMessage (Group.mkHandler c1 chMsg) claim_bad).1 /\
    claimed (Group.trace w') = [record 0 ["a"%byte]; record 1 []] /\
    sent_errs (chan_id chErr) (Group.trace w') = [] /\
    Group.tasks w' = Group.tasks w1 /\
    Group.ctxs w' = Group.ctxs w1 /\
    Group.cgs w' = Group.cgs w1 /\
    gstep 1 w' w'.
Proof.
  eexists _, _, _, _, _.
  split; [reflexivity|]. split; [reflexivity|].
  split.
  { eapply rtc_l; [|apply rtc_refl].
    exists 1%nat. eapply Group.step_session_claim with (claim := claim_bad).
    reflexivity. }
  split_and!; try reflexivity.
  eapply Group.step_session_nil. reflexivity.
Qed.

(** *** C9: lag on the runs above *)


(** *** C10: the default capacities *)

Lemma default_queue_capacities_witness :
  (exists w1 c1 qm qe,
     GConsume 0 group_consumer Group.init
       = Returns (w1, c1, (Some qm, Some qe, None)) /\
     cap qm = 0 /\ cap qe = 0) /\
  (exists w1 c1 qm qe,
     SConsume 0 (simple_consumer "orders") Simple.init
       = Returns (w1, c1, (Some qm, Some qe, None)) /\
     cap qm = 1000 /\ cap qe = 1000).
Proof.
  destruct (@default_queue_capacities unit unit (list Byte.byte) SaramaConfig
              NewConsumerGroup NewConsumer Partitions ConsumePartition
              Offsets_Initial) as (G1 & S1 & G2 & S2).
  split.
  - pose proof (G1 (group_factory []) [] group_consumer (List.Forall_nil _) eq_refl) as Hb.
    destruct (G2 0%nat group_consumer Group.init _ _ _ _ eq_refl)
      as (qm & qe & Hm & He & Hcm & Hce).
    rewrite Hb in Hcm, Hce. inversion Hm; inversion He; subst qm qe.
    eexists _, _, _, _. split; [reflexivity|]. split; [exact Hcm|exact Hce].
  - pose proof (S1 (simple_factory "orders" []) [] (simple_consumer "orders")
                  (List.Forall_nil _) eq_refl) as Hb.
    destruct (S2 0%nat (simple_consumer "orders") Simple.init _ _ _ _ eq_refl)
      as (qm & qe & Hm & He & Hcm & Hce).
    rewrite Hb in Hcm, Hce. inversion Hm; inversion He; subst qm qe.
    eexists _, _, _, _. split; [reflexivity|]. split; [exact Hcm|exact Hce].
Defined.

End Example.

(* ===================================================================== *)
(** ** Further properties of simple mode *)
(* ===================================================================== *)

Section SimpleConsume.
Import Go Kafka.
Context {Decoder Cfg Message : Type}.
Variable sarama_NewConsumer : list string -> Cfg -> option error.
Variable ms_Partitions : string -> result (list Z).
Variable ms_ConsumePartition : string -> Z -> Z -> option error.
Variable Offsets_Initial : Cfg -> Z.
Variable kafka_ClaimMessage :
  option Decoder -> ConsumerMessage -> bool -> result Message.

Local Abbreviation world := (@Simple.world Decoder Cfg Message).
Local Abbreviation consumer := (@Simple.consumer Decoder Cfg).
Local Abbreviation task := (@Simple.task Decoder Cfg Message).
Local Abbreviation step := (Simple.step kafka_ClaimMessage).
Local Abbreviation sched := (Simple.sched kafka_ClaimMessage).
Local Abbreviation partitions_loop :=
  (Simple.partitions_loop (Message := Message) ms_ConsumePartition Offsets_Initial).
Local Abbreviation Consume :=
  (Simple.Consume (Message := Message) sarama_NewConsumer ms_Partitions
     ms_ConsumePartition Offsets_Initial).
Local Abbreviation Close := (Simple.Close (Decoder := Decoder) (Cfg := Cfg) (Message := Message)).

(** The reader of partition [p] of the topic of [c] can be opened. *)
Definition reader_opens (c : consumer) (p : Z) : Prop :=
  ms_ConsumePartition (Simple.topic c) p (Offsets_Initial (Simple.saramaCnf c)) = None.

Lemma set_readers_app_nil (w : world) :
  Simple.set_readers w (Simple.readers w ++ []) = w.
Proof. destruct w; unfold Simple.set_readers; simpl. by rewrite app_nil_r. Qed.

(** When every reader opens, the loop opens one reader per partition, in
    the order of the partition list. *)
Lemma partitions_loop_opens (c : consumer) ps pcs (w : world) :
  Forall (reader_opens c) ps ->
  partitions_loop c ps pcs w =
    (Simple.set_readers w (Simple.readers w ++ replicate (length ps) false),
     Ok (pcs ++ seq (length (Simple.readers w)) (length ps))).
Proof.
  intros Hps; revert pcs w.
  induction Hps as [|p ps Hp _ IH]; intros pcs w; simpl.
  - by rewrite set_readers_app_nil, app_nil_r.
  - unfold reader_opens in Hp. rewrite Hp, IH; simpl.
    rewrite length_app, <- !app_assoc; simpl.
    by replace (length (Simple.readers w) + 1)%nat
      with (S (length (Simple.readers w))) by lia.
Qed.

(** The loop stops at the first reader that cannot be opened: the readers
    opened before it are left as they are, open. *)
Lemma partitions_loop_fails (c : consumer) pre p post pcs (w : world) err :
  Forall (reader_opens c) pre ->
  ms_ConsumePartition (Simple.topic c) p (Offsets_Initial (Simple.saramaCnf c))
    = Some err ->
  partitions_loop c (pre ++ p :: post) pcs w =
    (Simple.set_readers w (Simple.readers w ++ replicate (length pre) false),
     Err (Errors.withMessage err "failed to get partition consumer")).
Proof.
  intros Hpre Hp; revert pcs w.
  induction Hpre as [|q pre Hq _ IH]; intros pcs w; simpl.
  - by rewrite Hp, set_readers_app_nil.
  - unfold reader_opens in Hq. rewrite Hq, IH; simpl.
    by rewrite <- !app_assoc.
Qed.

Lemma partitions_loop_Ok (c : consumer) ps pcs (w w' : world) pcs' :
  partitions_loop c ps pcs w = (w', Ok pcs') -> Forall (reader_opens c) ps.
Proof.
  revert pcs w; induction ps as [|p ps IH]; intros pcs w H; simpl in H; [done|].
  destruct (ms_ConsumePartition _ _ _) eqn:Hp; [inversion H|].
  constructor; eauto.
Qed.

(** X1.  Whenever [Consume] returns, the buffer size is not negative.  It
    returns either both queues, made with the buffer size as capacity, and
    no error, or no queue and an error, and then it has started no
    goroutine.  It returns without an error exactly when the direct client
    can be opened, the topic has at least one partition and the reader of
    every partition can be opened. *)
Theorem Simple_Consume_returns_queues_iff parent (c : consumer) (w w1 : world)
    c1 chMsg chErr err :
  Consume parent c w = Returns (w1, c1, (chMsg, chErr, err)) ->
  0 <= Buffer (Simple.consumerCnf c) /\
  ((err = None /\
    chMsg = Some (mkChan (Simple.chans w) (Buffer (Simple.consumerCnf c))) /\
    chErr = Some (mkChan (S (Simple.chans w)) (Buffer (Simple.consumerCnf c))))
   \/
   (err <> None /\ chMsg = None /\ chErr = None /\
    Simple.tasks w1 = Simple.tasks w)) /\
  (err = None <->
   sarama_NewConsumer (Brokers (Simple.consumerCnf c)) (Simple.saramaCnf c) = None /\
   exists ps,
     ms_Partitions (Simple.topic c) = Ok ps /\ ps <> [] /\
     Forall (reader_opens c) ps).
Proof.
  unfold Simple.Consume, Simple.consume, Simple.partitions, WithCancel, make_chan;
    simpl.
  intros H.
  case_decide as Hb; [done|]. split; [lia|].
  destruct (sarama_NewConsumer _ _) as [e|]; simpl in H.
  { inversion H; subst; clear H. split; [right; by split_and!|].
    split; [done|]. by intros [? _]. }
  destruct (ms_Partitions _) as [ps|e] eqn:Hps; simpl in H.
  2:{ inversion H; subst; clear H. split; [right; by split_and!|].
      split; [done|]. by intros (_ & ps & ? & _). }
  destruct (Simple.partitions_loop _ _ _ _ _ _) as [w' [pcs|e]] eqn:Hloop.
  2:{ inversion H; subst; clear H. split.
      - right. split_and!; try done.
        by eapply partitions_loop_spec in Hloop as (_ & _ & _ & Ht & _).
      - split; [done|]. intros (_ & ps' & Hps' & _ & Hall).
        inversion Hps'; subst ps'.
        rewrite (partitions_loop_opens (Simple.set_ms (Simple.set_cnl c _) _)
                   ps [] _ Hall) in Hloop.
        inversion Hloop. }
  pose proof (partitions_loop_Ok _ _ _ _ _ _ Hloop) as Hall.
  rewrite (partitions_loop_opens _ _ _ _ Hall) in Hloop.
  inversion Hloop; subst; clear Hloop. simpl in H.
  case_decide as Hlen.
  - inversion H; subst; clear H. split; [right; by split_and!|].
    split; [done|]. intros (_ & ps' & Hps' & Hne & _).
    inversion Hps'; subst ps'. rewrite length_seq in Hlen. by destruct ps.
  - inversion H; subst; clear H. split; [left; by split_and!|].
    split; [|done]. intros _. split; [done|]. exists ps. split_and!; try done.
    intros ->. by rewrite length_seq in Hlen.
Qed.

(** X2.  The three ways [Consume] fails after its queues are made.  When
    the direct client cannot be opened, nothing is opened.  When the
    partitions cannot be listed, the client just opened is left open.  When
    the reader of a partition cannot be opened, the client and the readers
    opened for the partitions before it are left open.  Each time the
    queues returned are nil, no goroutine is started, the error is wrapped
    twice, and a [Close] afterwards returns nil and closes none of them. *)
Theorem Simple_Consume_failures parent (c : consumer) (w : world) :
  0 <= Buffer (Simple.consumerCnf c) ->
  (forall err,
     sarama_NewConsumer (Brokers (Simple.consumerCnf c)) (Simple.saramaCnf c)
       = Some err ->
     exists w1 c1,
       Consume parent c w =
         Returns (w1, c1,
                  (None, None,
                   Some (Errors.withMessage
                           (Errors.withMessage err "failed to create consumer")
                           "failed to get partitions"))) /\
       Simple.ms c1 = Simple.ms c /\
       Simple.tasks w1 = Simple.tasks w /\
       Simple.clients w1 = Simple.clients w /\
       Simple.readers w1 = Simple.readers w) /\
  (forall err,
     sarama_NewConsumer (Brokers (Simple.consumerCnf c)) (Simple.saramaCnf c)
       = None ->
     ms_Partitions (Simple.topic c) = Err err ->
     exists w1 c1 w2,
       Consume parent c w =
         Returns (w1, c1,
                  (None, None,
                   Some (Errors.withMessage
                           (Errors.withMessage err "failed to get partitions")
                           "failed to get partitions"))) /\
       Simple.ms c1 = Some (length (Simple.clients w)) /\
       Simple.tasks w1 = Simple.tasks w /\
       Simple.clients w1 = Simple.clients w ++ [false] /\
       Simple.readers w1 = Simple.readers w /\
       Close c1 w1 = Returns (w2, None) /\
       Simple.clients w2 = Simple.clients w1) /\
  (forall pre p post err,
     sarama_NewConsumer (Brokers (Simple.consumerCnf c)) (Simple.saramaCnf c)
       = None ->
     ms_Partitions (Simple.topic c) = Ok (pre ++ p :: post) ->
     Forall (reader_opens c) pre ->
     ms_ConsumePartition (Simple.topic c) p (Offsets_Initial (Simple.saramaCnf c))
       = Some err ->
     exists w1 c1 w2,
       Consume parent c w =
         Returns (w1, c1,
                  (None, None,
                   Some (Errors.withMessage
                           (Errors.withMessage err "failed to get partition consumer")
                           "failed to get partitions"))) /\
       Simple.ms c1 = Some (length (Simple.clients w)) /\
       Simple.tasks w1 = Simple.tasks w /\
       Simple.clients w1 = Simple.clients w ++ [false] /\
       Simple.readers w1 = Simple.readers w ++ replicate (length pre) false /\
       Close c1 w1 = Returns (w2, None) /\
       Simple.clients w2 = Simple.clients w1 /\
       Simple.readers w2 = Simple.readers w1).
Proof.
  intros Hb.
  unfold Simple.Consume, Simple.consume, Simple.partitions, WithCancel, make_chan;
    simpl.
  case_decide; [lia|]. split_and!.
  - intros err ->. simpl. eexists _, _. by split_and!.
  - intros err -> Hps. simpl. rewrite Hps. simpl.
    eexists _, _, _. by split_and!.
  - intros pre p post err -> Hps Hpre Hp. simpl. rewrite Hps. simpl.
    rewrite (partitions_loop_fails (Simple.set_ms (Simple.set_cnl c _) _)
               pre p post [] _ err Hpre Hp).
    simpl. eexists _, _, _. by split_and!.
Qed.

(** *** Order and number of the messages *)

(** The goroutine of a record that can be claimed calls the claim
    processor and sends the message on the message queue. *)
Lemma Simple_emit_sends i (w : world) m c chMsg chErr msg :
  Simple.tasks w !! i = Some (Simple.Emit m c chMsg chErr Simple.EClaim) ->
  kafka_ClaimMessage (DecoderFunc (Simple.consumerCnf c)) m false = Ok msg ->
  exists w',
    rtc sched w w' /\
    Simple.trace w' = Simple.trace w ++ [EvClaimMessage m; EvSendMsg (chan_id chMsg) msg] /\
    Simple.tasks w' = <[i := Simple.Emit m c chMsg chErr Simple.EReturned]> (Simple.tasks w).
Proof.
  intros Hi Hok.
  pose proof (lookup_lt_Some _ _ _ Hi) as Hlt.
  eexists. split.
  - eapply rtc_l; [exists i; by eapply Simple.step_emit_claim|].
    eapply rtc_l; [|apply rtc_refl].
    exists i. eapply Simple.step_emit_msg with (msg := msg). simpl.
    unfold Simple.after_claim. rewrite Hok. by apply list_lookup_insert_eq.
  - simpl. split; [by rewrite <- app_assoc|].
    by rewrite list_insert_insert_eq.
Qed.

(** X3.  Simple mode does not keep the order of one partition.  Whenever a
    pump is in its select, for any two records that can be claimed there is
    a run in which the pump receives the first and then the second, and
    the message of the second is sent on the message queue before the
    message of the first. *)
Theorem Simple_messages_can_overtake i (w : world) ctx cns c chMsg chErr
    m1 high1 msg1 m2 high2 msg2 :
  Simple.tasks w !! i = Some (Simple.Pump ctx cns c chMsg chErr Simple.PSelect) ->
  kafka_ClaimMessage (DecoderFunc (Simple.consumerCnf c)) m1 false = Ok msg1 ->
  kafka_ClaimMessage (DecoderFunc (Simple.consumerCnf c)) m2 false = Ok msg2 ->
  exists w',
    rtc sched w w' /\
    Simple.trace w' = Simple.trace w ++
      [EvRecv m1 high1;
       EvGaugeSet "" (Topic m1) (Partition m1) (high1 - Offset m1);
       EvRecv m2 high2;
       EvGaugeSet "" (Topic m2) (Partition m2) (high2 - Offset m2);
       EvClaimMessage m2; EvSendMsg (chan_id chMsg) msg2;
       EvClaimMessage m1; EvSendMsg (chan_id chMsg) msg1] /\
    received (Simple.trace w') = received (Simple.trace w) ++ [m1; m2] /\
    sent_msgs (chan_id chMsg) (Simple.trace w')
      = sent_msgs (chan_id chMsg) (Simple.trace w) ++ [msg2; msg1].
Proof.
  intros Hi Hok1 Hok2.
  destruct (Simple_pump_takes_record kafka_ClaimMessage i w ctx cns c chMsg chErr
              m1 high1 Hi) as (w1 & S1 & T1 & K1 & P1).
  destruct (Simple_pump_takes_record kafka_ClaimMessage i w1 ctx cns c chMsg chErr
              m2 high2 P1) as (w2 & S2 & T2 & K2 & P2).
  set (n := length (Simple.tasks w)).
  assert (Simple.tasks w2 !! S n
          = Some (Simple.Emit m2 c chMsg chErr Simple.EClaim)) as E2.
  { unfold n. rewrite K2, K1.
    rewrite lookup_app_r by (rewrite length_app; simpl; lia).
    rewrite length_app; simpl.
    by replace (S (length (Simple.tasks w)) - (length (Simple.tasks w) + 1))%nat
      with 0%nat by lia. }
  destruct (Simple_emit_sends _ _ _ _ _ _ _ E2 Hok2) as (w3 & R3 & T3 & K3).
  assert (Simple.tasks w3 !! n
          = Some (Simple.Emit m1 c chMsg chErr Simple.EClaim)) as E1.
  { unfold n. rewrite K3, list_lookup_insert_ne by lia. rewrite K2, K1.
    rewrite lookup_app_l by (rewrite length_app; simpl; lia).
    by rewrite lookup_app_r, Nat.sub_diag by done. }
  destruct (Simple_emit_sends _ _ _ _ _ _ _ E1 Hok1) as (w4 & R4 & T4 & K4).
  assert (Simple.trace w4 = Simple.trace w ++
      [EvRecv m1 high1;
       EvGaugeSet "" (Topic m1) (Partition m1) (high1 - Offset m1);
       EvRecv m2 high2;
       EvGaugeSet "" (Topic m2) (Partition m2) (high2 - Offset m2);
       EvClaimMessage m2; EvSendMsg (chan_id chMsg) msg2;
       EvClaimMessage m1; EvSendMsg (chan_id chMsg) msg1]) as Htr.
  { rewrite T4, T3, T2, T1. by rewrite <- !app_assoc. }
  exists w4. split_and!.
  - eapply rtc_l; [by exists i|]. eapply rtc_l; [by exists i|].
    by etrans.
  - done.
  - by rewrite Htr, received_app.
  - rewrite Htr, sent_msgs_app. unfold sent_msgs at 3; simpl.
    by rewrite !decide_True by done.
Qed.

Lemma claim_outcome_length (c : consumer) (l : list ConsumerMessage) :
  (length (flat_map (claim_msgs kafka_ClaimMessage c) l)
   + length (flat_map (claim_errors kafka_ClaimMessage c) l))%nat = length l.
Proof.
  induction l as [|m l IH]; simpl; [done|].
  rewrite !length_app.
  assert ((length (claim_msgs kafka_ClaimMessage c m)
           + length (claim_errors kafka_ClaimMessage c m))%nat = 1%nat) as H1.
  { unfold claim_msgs, claim_errors. by destruct (kafka_ClaimMessage _ _ _). }
  lia.
Qed.

(** X4.  Nothing is lost and nothing is sent twice.  After a [Consume] in
    a world where nothing had happened yet, over every interleaving of the
    goroutines, once no goroutine has anything left to send the messages
    sent on the message queue are, counted with multiplicity, the messages
    the claim processor gives for the received records; and the number of
    messages and errors sent is the number of records received plus the
    number of values read from the readers' error channels. *)
Theorem Simple_every_record_is_answered parent (c : consumer) (w w1 w' : world)
    c1 chMsg chErr :
  Simple.trace w = [] -> Simple.tasks w = [] ->
  Consume parent c w = Returns (w1, c1, (Some chMsg, Some chErr, None)) ->
  rtc sched w1 w' ->
  Forall (fun t => owed_errs kafka_ClaimMessage t = []
                   /\ owed_msgs kafka_ClaimMessage t = [])
    (Simple.tasks w') ->
  sent_msgs (chan_id chMsg) (Simple.trace w')
    ≡ₚ flat_map (claim_msgs kafka_ClaimMessage c1) (received (Simple.trace w')) /\
  (length (sent_msgs (chan_id chMsg) (Simple.trace w'))
   + length (sent_errs (chan_id chErr) (Simple.trace w')))%nat
  = (length (received (Simple.trace w'))
     + length (client_errors (Simple.trace w')))%nat.
Proof.
  intros Htr Hts HC Hrtc Hq.
  assert (accounted kafka_ClaimMessage c1 chMsg chErr w') as Hacc
    by (eapply Simple_Consume_accounted; eauto).
  destruct (accounted_settled _ _ _ _ _ Hacc Hq) as [He Hm].
  split; [done|].
  rewrite He, Hm, length_app.
  pose proof (claim_outcome_length c1 (received (Simple.trace w'))). lia.
Qed.

(** A goroutine that has returned takes no step. *)
Lemma Simple_returned_stuck i (w w' : world) t :
  Simple.tasks w !! i = Some t -> Simple.returned t = true -> ~ step i w w'.
Proof.
  intros Hi Hr Hstep.
  destruct Hstep;
    match goal with
    | H1 : ?l !! ?i = Some _, H2 : ?l !! ?i = Some _ |- _ =>
        rewrite H1 in H2; inversion H2; subst; done
    end.
Qed.

(** X5.  A fatal error of a partition reader ends the pump of that reader
    only.  Whatever value the pump reads from the error channel of its
    reader, it closes the reader, sends the value once on the error queue
    and returns; it can take no step after that, and no other goroutine,
    reader, client or context has changed. *)
Theorem Simple_pump_fatal_error i (w : world) ctx cns c chMsg chErr consumerError :
  Simple.tasks w !! i = Some (Simple.Pump ctx cns c chMsg chErr Simple.PSelect) ->
  (cns < length (Simple.readers w))%nat ->
  exists w1 w2,
    step i w w1 /\ step i w1 w2 /\
    reader_closed w1 cns = true /\
    Simple.trace w2 = Simple.trace w ++
      [EvClientError consumerError; EvSendErr (chan_id chErr) consumerError] /\
    Simple.tasks w2 =
      <[i := Simple.Pump ctx cns c chMsg chErr Simple.PReturned]> (Simple.tasks w) /\
    Simple.readers w2 = <[cns := true]> (Simple.readers w) /\
    Simple.clients w2 = Simple.clients w /\
    Simple.ctxs w2 = Simple.ctxs w /\
    forall w3, ~ step i w2 w3.
Proof.
  intros Hi Hlt.
  pose proof (lookup_lt_Some _ _ _ Hi) as Hi'.
  eexists _, _. split_and!.
  - by eapply Simple.step_pump_error with (consumerError := consumerError).
  - eapply Simple.step_pump_send. simpl. by apply list_lookup_insert_eq.
  - unfold reader_closed; simpl. by rewrite list_lookup_insert_eq.
  - simpl. by rewrite <- app_assoc.
  - simpl. by rewrite list_insert_insert_eq.
  - done.
  - done.
  - done.
  - intros w3 H3. eapply Simple_returned_stuck; [| |exact H3]; simpl.
    + apply list_lookup_insert_eq. by rewrite length_insert.
    + done.
Qed.

(** X6.  A second [Consume] on the consumer the first one returned
    replaces the cancel function the consumer holds, so a [Close]
    afterwards cancels the second derived context only.  The first derived
    context is cancelled only if the parent of the first [Consume] was
    already cancelled then, and that stays so whatever the goroutines do.
    The pumps of the first [Consume] are still there, on that context, and
    when the parent was not cancelled no step takes such a pump from its
    select to its return. *)
Theorem Simple_Consume_twice_then_Close parent parent' (c : consumer)
    (w w1 w1' w2 w2' : world) c1 c2 chMsg chErr chMsg' chErr' :
  Consume parent c w = Returns (w1, c1, (Some chMsg, Some chErr, None)) ->
  rtc sched w1 w1' ->
  Consume parent' c1 w1' = Returns (w2, c2, (Some chMsg', Some chErr', None)) ->
  rtc sched w2 w2' ->
  let k := length (Simple.ctxs w) in
  Simple.cnl c2 = Some (S k) /\
  exists w3,
    Close c2 w2' = Returns (w3, None) /\
    ctx_done (Simple.ctxs w3) (S k) = true /\
    forall w4 i,
      rtc sched w3 w4 ->
      (length (Simple.tasks w) <= i < length (Simple.tasks w1))%nat ->
      ctx_done (Simple.ctxs w4) k = ctx_done (Simple.ctxs w) parent /\
      exists r pc,
        Simple.tasks w4 !! i = Some (Simple.Pump k r c1 chMsg chErr pc) /\
        (ctx_done (Simple.ctxs w) parent = false ->
         pc = Simple.PSelect ->
         forall j w5,
           step j w4 w5 ->
           Simple.tasks w5 !! i <>
             Some (Simple.Pump k r c1 chMsg chErr Simple.PReturned)).
Proof.
  intros HC1 R1 HC2 R2 k.
  destruct (Simple_Consume_success _ _ _ _ _ _ _ _ _ _ _ _ HC1 eq_refl)
    as (ps & _ & _ & Hc1 & Hm & He & Hctx1 & _ & _ & _ & Hts1).
  destruct (Simple_Consume_success _ _ _ _ _ _ _ _ _ _ _ _ HC2 eq_refl)
    as (ps' & _ & _ & Hc2 & _ & _ & Hctx2 & _ & _ & _ & Hts2).
  inversion Hm; inversion He; subst chMsg chErr; clear Hm He.
  fold k in Hc1, Hts1.
  destruct (Simple_sched_frame _ _ _ R1) as (F1 & _).
  destruct (Simple_sched_frame _ _ _ R2) as (F2 & _).
  assert (length (Simple.ctxs w1') = S k) as Hk1.
  { rewrite F1, Hctx1, length_app; simpl. unfold k. lia. }
  rewrite Hk1 in Hc2.
  assert (Simple.cnl c2 = Some (S k)) as Hcnl by (by rewrite Hc2).
  split; [done|].
  assert (Simple.ctxs w2' = (Simple.ctxs w ++ [ctx_done (Simple.ctxs w) parent])
                            ++ [ctx_done (Simple.ctxs w1') parent']) as Hctx.
  { by rewrite F2, Hctx2, F1, Hctx1. }
  unfold Simple.Close. rewrite Hcnl.
  eexists. split; [reflexivity|]. simpl. split.
  { unfold ctx_done, cancel. rewrite list_lookup_insert_eq; [done|].
    rewrite Hctx, !length_app; simpl. unfold k. lia. }
  intros w4 i R4 Hi.
  destruct (Simple_sched_frame _ _ _ R4) as (F4 & _). simpl in F4.
  assert (ctx_done (Simple.ctxs w4) k = ctx_done (Simple.ctxs w) parent) as Hdone.
  { rewrite F4. unfold ctx_done at 1, cancel.
    rewrite list_lookup_insert_ne by lia. rewrite Hctx.
    rewrite lookup_app_l by (rewrite length_app; simpl; unfold k; lia).
    by rewrite lookup_app_r, Nat.sub_diag by done. }
  split; [done|].
  assert (exists r, Simple.tasks w1 !! i =
            Some (Simple.Pump k r c1 (mkChan (Simple.chans w) (Buffer (Simple.consumerCnf c)))
                    (mkChan (S (Simple.chans w)) (Buffer (Simple.consumerCnf c)))
                    Simple.PSelect)) as (r & Hp1).
  { rewrite Hts1 in Hi |- *. rewrite length_app, length_map, length_seq in Hi.
    rewrite lookup_app_r by lia. rewrite list_lookup_fmap.
    rewrite lookup_seq_lt by lia. simpl. eauto. }
  destruct (Simple_sched_pump _ _ _ _ _ _ _ _ _ _ R1 Hp1) as (pc1 & Hp1').
  assert (Simple.tasks w2 !! i =
            Some (Simple.Pump k r c1 (mkChan (Simple.chans w) (Buffer (Simple.consumerCnf c)))
                    (mkChan (S (Simple.chans w)) (Buffer (Simple.consumerCnf c)))
                    pc1)) as Hp2.
  { rewrite Hts2. by apply lookup_app_l_Some. }
  destruct (Simple_sched_pump _ _ _ _ _ _ _ _ _ _ R2 Hp2) as (pc2 & Hp2').
  destruct (Simple_sched_pump _ _ _ _ _ _ _ _ _ _ R4 Hp2') as (pc4 & Hp4).
  exists r, pc4. split; [done|].
  intros Hparent -> j w5 Hstep Hret.
  destruct (decide (j = i)) as [->|Hne].
  - inversion Hstep; subst; simpl in *;
      match goal with
      | H1 : ?l !! ?i = Some _, H2 : ?l !! ?i = Some _ |- _ =>
          rewrite H1 in H2; inversion H2; subst; clear H2
      end.
    + congruence.
    + rewrite list_lookup_insert_eq in Hret by (eapply lookup_lt_Some; eauto).
      inversion Hret.
    + rewrite lookup_app_l in Hret by (eapply lookup_lt_Some; eauto).
      rewrite Hp4 in Hret. inversion Hret.
  - rewrite (Simple_step_other _ _ _ _ _ _ Hstep Hne Hp4) in Hret.
    inversion Hret.
Qed.

(** *** Who closes a partition reader *)











End SimpleConsume.

(* ===================================================================== *)
(** ** Further properties of group mode *)
(* ===================================================================== *)

Section GroupConsume.
Import Go Kafka.
Context {Decoder Cfg Message : Type}.
Variable kafka_SaramaConfig : string -> result Cfg.
Variable sarama_NewConsumerGroup : list string -> string -> Cfg -> option error.
Variable sarama_cg_Close : nat -> bool -> option error.
Variable kafka_ClaimMessage :
  option Decoder -> ConsumerMessage -> bool -> result Message.

Local Abbreviation world := (@Group.world Decoder Cfg Message).
Local Abbreviation step := (Group.step sarama_cg_Close kafka_ClaimMessage).
Local Abbreviation sched := (Group.sched sarama_cg_Close kafka_ClaimMessage).
Local Abbreviation Consume := (Group.Consume (Message := Message) sarama_NewConsumerGroup).
Local Abbreviation Close := (Group.Close (Message := Message) sarama_cg_Close).

(** X8.  When the coordination client cannot be opened, [Consume] of a
    consumer that [Create] has returned gives nil queues and the wrapped
    error, starts no goroutine and opens no client; it has stored the
    cancel function of the derived context but no client, so that a
    [Close] afterwards, in whatever world, panics. *)
Theorem Group_Consume_failure_then_Close (f : @Group.Factory Decoder Cfg)
    called c parent (w : world) err :
  Group.Create kafka_SaramaConfig f = (called, Ok c) ->
  sarama_NewConsumerGroup (Brokers (Group.consumerCnf c)) (Group.group c)
    (Group.saramaCnf c) = Some err ->
  exists w1 c1,
    Consume parent c w =
      Returns (w1, c1,
               (None, None,
                Some (Errors.withMessage err "failed to create consumer"))) /\
    Group.cnl c1 = Some (length (Group.ctxs w)) /\
    Group.cg c1 = None /\
    Group.ctxs w1 = Group.ctxs w ++ [ctx_done (Group.ctxs w) parent] /\
    Group.cgs w1 = Group.cgs w /\
    Group.tasks w1 = Group.tasks w /\
    Group.trace w1 = Group.trace w /\
    forall w' : world, Close c1 w' = Panics.
Proof.
  intros HC Hncg.
  assert (Group.cg c = None) as Hcg.
  { unfold Group.Create in HC. destruct (kafka_SaramaConfig _); [|inversion HC].
    by apply Group_Create_options_cg in HC as [_ Hcg]. }
  unfold Group.Consume, Group.consumeWithGroup, WithCancel; simpl.
  rewrite Hncg. eexists _, _. split_and!; try done.
  intros w'. unfold Group.Close; simpl. by rewrite Hcg.
Qed.

(** A goroutine that has returned takes no step. *)
Lemma Group_returned_stuck i (w w' : world) t :
  Group.tasks w !! i = Some t -> Group.returned t = true -> ~ step i w w'.
Proof.
  intros Hi Hr Hstep.
  destruct Hstep;
    match goal with
    | H1 : ?l !! ?i = Some _, H2 : ?l !! ?i = Some _ |- _ =>
        rewrite H1 in H2; inversion H2; subst; done
    end.
Qed.

(** X9.  A fatal error of the coordination client ends the watchdog but
    not the session.  Whatever value the watchdog reads from the error
    channel of the client, it closes the client, sends the value once on
    the error queue and returns, and can take no step after that.  It does
    not cancel the context: the contexts are as before, and every other
    goroutine, the session loop among them, is as it was. *)
Theorem Group_watchdog_fatal_error i (w : world) ctx cns chErr consumerError :
  Group.tasks w !! i = Some (Group.Watchdog ctx cns chErr Group.WSelect) ->
  (cns < length (Group.cgs w))%nat ->
  exists w1 w2,
    step i w w1 /\ step i w1 w2 /\
    Group.cg_closed w1 cns = true /\
    Group.trace w2 = Group.trace w ++
      [EvClientError consumerError; EvSendErr (chan_id chErr) consumerError] /\
    Group.tasks w2 =
      <[i := Group.Watchdog ctx cns chErr Group.WReturned]> (Group.tasks w) /\
    Group.cgs w2 = <[cns := true]> (Group.cgs w) /\
    Group.ctxs w2 = Group.ctxs w /\
    (forall w3, ~ step i w2 w3) /\
    forall j ctx' cns' topics hnd chErr' pc,
      Group.tasks w !! j =
        Some (Group.SessionLoop ctx' cns' topics hnd chErr' pc) ->
      Group.tasks w2 !! j =
        Some (Group.SessionLoop ctx' cns' topics hnd chErr' pc).
Proof.
  intros Hi Hlt.
  pose proof (lookup_lt_Some _ _ _ Hi) as Hi'.
  eexists _, _. split_and!.
  - by eapply Group.step_watchdog_error with (consumerError := consumerError).
  - eapply Group.step_watchdog_send. simpl. by apply list_lookup_insert_eq.
  - unfold Group.cg_closed; simpl. by rewrite list_lookup_insert_eq.
  - simpl. by rewrite <- app_assoc.
  - simpl. by rewrite list_insert_insert_eq.
  - done.
  - done.
  - intros w3 H3. eapply Group_returned_stuck; [| |exact H3]; simpl.
    + apply list_lookup_insert_eq. by rewrite length_insert.
    + done.
  - intros j ctx' cns' topics hnd chErr' pc Hj. simpl.
    rewrite list_insert_insert_eq.
    destruct (decide (i = j)) as [->|Hne].
    + rewrite Hi in Hj. inversion Hj.
    + by rewrite list_lookup_insert_ne.
Qed.

(** X10.  A second [Consume] on the consumer the first one returned
    replaces the cancel function and the client the consumer holds, so a
    [Close] afterwards reaches the second derived context and the second
    client only.  The first client is as [Close] found it, the first
    derived context is cancelled only if the parent of the first [Consume]
    was already cancelled then, and that stays so whatever the goroutines
    do; the watchdog and the session loop of the first [Consume] are still
    there, on that context. *)
Theorem Group_Consume_twice_then_Close parent parent' c (w w1 w1' w2 w2' : world)
    c1 c2 chMsg chErr chMsg' chErr' :
  Consume parent c w = Returns (w1, c1, (Some chMsg, Some chErr, None)) ->
  rtc sched w1 w1' ->
  Consume parent' c1 w1' = Returns (w2, c2, (Some chMsg', Some chErr', None)) ->
  rtc sched w2 w2' ->
  let iw := length (Group.tasks w) in
  let k := length (Group.ctxs w) in
  let h := length (Group.cgs w) in
  Group.cnl c2 = Some (S k) /\
  Group.cg c2 = Some (S h) /\
  exists w3 err,
    Close c2 w2' = Returns (w3, err) /\
    ctx_done (Group.ctxs w3) (S k) = true /\
    Group.cg_closed w3 (S h) = true /\
    Group.cg_closed w3 h = Group.cg_closed w2' h /\
    forall w4,
      rtc sched w3 w4 ->
      ctx_done (Group.ctxs w4) k = ctx_done (Group.ctxs w) parent /\
      (exists pcw, Group.tasks w4 !! iw = Some (Group.Watchdog k h chErr pcw)) /\
      (exists pcs,
         Group.tasks w4 !! S iw =
           Some (Group.SessionLoop k h [Group.topic c] (Group.mkHandler c1 chMsg)
                   chErr pcs) /\
         pcs <> Group.SReturned).
Proof.
  intros HC1 R1 HC2 R2 iw k h.
  destruct (Group_Consume_success _ _ _ _ _ _ _ _ _ HC1 eq_refl)
    as (Hc1 & Hm & He & Hctx1 & Hcgs1 & _ & Hts1).
  destruct (Group_Consume_success _ _ _ _ _ _ _ _ _ HC2 eq_refl)
    as (Hc2 & _ & _ & Hctx2 & Hcgs2 & _ & Hts2).
  inversion Hm; inversion He; subst chMsg chErr; clear Hm He.
  fold k h in Hc1, Hts1.
  destruct (Group_sched_frame _ _ _ _ R1) as (F1 & L1 & _).
  destruct (Group_sched_frame _ _ _ _ R2) as (F2 & L2 & _).
  assert (length (Group.ctxs w1') = S k) as Hk1.
  { rewrite F1, Hctx1, length_app; simpl. unfold k. lia. }
  assert (length (Group.cgs w1') = S h) as Hh1.
  { rewrite L1, Hcgs1, length_app; simpl. unfold h. lia. }
  rewrite Hk1, Hh1 in Hc2.
  assert (Group.cnl c2 = Some (S k)) as Hcnl by (by rewrite Hc2).
  assert (Group.cg c2 = Some (S h)) as Hcg by (by rewrite Hc2).
  split; [done|]. split; [done|].
  assert (Hw : Group.tasks w1 !! iw = Some (Group.Watchdog k h
             (mkChan (S (Group.chans w)) (Buffer (Group.consumerCnf c))) Group.WSelect)).
  { rewrite Hts1. by rewrite lookup_app_r, Nat.sub_diag by done. }
  assert (Hs : Group.tasks w1 !! S iw = Some (Group.SessionLoop k h [Group.topic c]
             (Group.mkHandler c1 (mkChan (Group.chans w) (Buffer (Group.consumerCnf c))))
             (mkChan (S (Group.chans w)) (Buffer (Group.consumerCnf c))) Group.SConsume)).
  { rewrite Hts1. rewrite lookup_app_r by (unfold iw; lia).
    by replace (S iw - length (Group.tasks w))%nat with 1%nat by (unfold iw; lia). }
  destruct (Group_sched_watchdog _ _ _ _ _ _ _ _ _ R1 Hw) as (pcw1 & Hw1).
  destruct (Group_sched_session _ _ _ _ _ _ _ _ _ _ _ R1 Hs) as (pcs1 & Hs1 & Hn1);
    [done|].
  assert (Group.tasks w2 !! iw = Some (Group.Watchdog k h
             (mkChan (S (Group.chans w)) (Buffer (Group.consumerCnf c))) pcw1)) as Hw2.
  { rewrite Hts2. by apply lookup_app_l_Some. }
  assert (Group.tasks w2 !! S iw = Some (Group.SessionLoop k h [Group.topic c]
             (Group.mkHandler c1 (mkChan (Group.chans w) (Buffer (Group.consumerCnf c))))
             (mkChan (S (Group.chans w)) (Buffer (Group.consumerCnf c))) pcs1)) as Hs2.
  { rewrite Hts2. by apply lookup_app_l_Some. }
  destruct (Group_sched_watchdog _ _ _ _ _ _ _ _ _ R2 Hw2) as (pcw2 & Hw2').
  destruct (Group_sched_session _ _ _ _ _ _ _ _ _ _ _ R2 Hs2 Hn1) as (pcs2 & Hs2' & Hn2).
  assert (Group.ctxs w2' = (Group.ctxs w ++ [ctx_done (Group.ctxs w) parent])
                           ++ [ctx_done (Group.ctxs w1') parent']) as Hctx.
  { by rewrite F2, Hctx2, F1, Hctx1. }
  assert (length (Group.cgs w2') = S (S h)) as Hh2.
  { rewrite L2, Hcgs2, length_app, Hh1; simpl. lia. }
  unfold Group.Close. rewrite Hcnl, Hcg. simpl.
  eexists _, _. split; [reflexivity|]. simpl. split_and!.
  - unfold ctx_done, cancel. rewrite list_lookup_insert_eq; [done|].
    rewrite Hctx, !length_app; simpl. unfold k. lia.
  - unfold Group.cg_closed; simpl. rewrite list_lookup_insert_eq; [done|lia].
  - unfold Group.cg_closed; simpl. by rewrite list_lookup_insert_ne by lia.
  - intros w4 R4.
    destruct (Group_sched_frame _ _ _ _ R4) as (F4 & _ & _). simpl in F4.
    destruct (Group_sched_watchdog _ _ _ _ _ _ _ _ _ R4 Hw2') as (pcw4 & Hw4).
    destruct (Group_sched_session _ _ _ _ _ _ _ _ _ _ _ R4 Hs2' Hn2)
      as (pcs4 & Hs4 & Hn4).
    split_and!; [|by eauto|by eauto].
    rewrite F4. unfold ctx_done at 1, cancel.
    rewrite list_lookup_insert_ne by lia. rewrite Hctx.
    rewrite lookup_app_l by (rewrite length_app; simpl; unfold k; lia).
    by rewrite lookup_app_r, Nat.sub_diag by done.
Qed.

End GroupConsume.

(* ===================================================================== *)
(** ** Edge cases of the three packages *)
(* ===================================================================== *)

Section Edges.
Import Go Kafka.
Context {Decoder Cfg Message : Type}.
Variable sarama_NewConsumerGroup : list string -> string -> Cfg -> option error.
Variable sarama_cg_Close : nat -> bool -> option error.
Variable sarama_NewConsumer : list string -> Cfg -> option error.
Variable ms_Partitions : string -> result (list Z).
Variable ms_ConsumePartition : string -> Z -> Z -> option error.
Variable Offsets_Initial : Cfg -> Z.
Variable kafka_ClaimMessage :
  option Decoder -> ConsumerMessage -> bool -> result Message.

Local Abbreviation gworld := (@Group.world Decoder Cfg Message).
Local Abbreviation sworld := (@Simple.world Decoder Cfg Message).
Local Abbreviation GConsume :=
  (Group.Consume (Message := Message) sarama_NewConsumerGroup).
Local Abbreviation SConsume :=
  (Simple.Consume (Message := Message) sarama_NewConsumer ms_Partitions
     ms_ConsumePartition Offsets_Initial).
Local Abbreviation handler := (@Group.handler Decoder Cfg).
Local Abbreviation handler000 := (@Group000.handler Decoder Cfg).
Local Abbreviation ConsumeClaim := (Group.ConsumeClaim kafka_ClaimMessage).
Local Abbreviation ConsumeClaim000 :=
  (Group000.ConsumeClaim (fun msg dec sess => kafka_ClaimMessage dec msg sess)).

(** X11.  A negative buffer size makes [Consume] panic when it comes to
    make its queues.  In simple mode the queues are made first: [Consume]
    panics whenever the buffer size is negative, whatever the client
    library would answer.  In group mode the coordination client is opened
    first: with a negative buffer size [Consume] panics when the client
    could be opened, and returns the wrapped error of the client library,
    without a panic, when it could not. *)
Theorem Consume_panics_on_negative_buffer :
  (forall parent (c : @Simple.consumer Decoder Cfg) (w : sworld),
     Buffer (Simple.consumerCnf c) < 0 -> SConsume parent c w = Panics) /\
  (forall parent (c : @Group.consumer Decoder Cfg) (w : gworld),
     Buffer (Group.consumerCnf c) < 0 ->
     sarama_NewConsumerGroup (Brokers (Group.consumerCnf c)) (Group.group c)
       (Group.saramaCnf c) = None ->
     GConsume parent c w = Panics) /\
  (forall parent (c : @Group.consumer Decoder Cfg) (w : gworld) err,
     Buffer (Group.consumerCnf c) < 0 ->
     sarama_NewConsumerGroup (Brokers (Group.consumerCnf c)) (Group.group c)
       (Group.saramaCnf c) = Some err ->
     exists w1 c1,
       GConsume parent c w =
         Returns (w1, c1,
                  (None, None,
                   Some (Errors.withMessage err "failed to create consumer"))) /\
       Group.cg c1 = Group.cg c /\
       Group.cgs w1 = Group.cgs w /\
       Group.tasks w1 = Group.tasks w).
Proof.
  split_and!.
  - intros parent c w Hb.
    unfold Simple.Consume, Simple.consume, WithCancel, make_chan; simpl.
    by rewrite decide_True by done.
  - intros parent c w Hb Hcg.
    unfold Group.Consume, Group.consumeWithGroup, WithCancel, make_chan; simpl.
    rewrite Hcg; simpl. by rewrite decide_True by done.
  - intros parent c w err Hb Hcg.
    unfold Group.Consume, Group.consumeWithGroup, WithCancel; simpl.
    rewrite Hcg; simpl. eexists _, _. by split_and!.
Qed.

Lemma claimed_app (tr1 tr2 : list (event Message)) :
  claimed (tr1 ++ tr2) = claimed tr1 ++ claimed tr2.
Proof. apply omap_app. Qed.

Lemma record_events_received g ch (claim : list (ConsumerMessage * Z))
    (msgs : list Message) :
  length claim = length msgs ->
  received (concat (zip_with (record_events g ch) claim msgs)) = map fst claim.
Proof.
  revert msgs; induction claim as [|r claim IH]; intros [|msg msgs] Hlen;
    simpl in *; try done.
  unfold received in *. simpl. f_equal. apply IH. lia.
Qed.

(** The handler of part_000 on a claim: the first record that cannot be
    claimed ends it. *)
Definition claim_first_failure (dec : option Decoder)
    (claim pre : list (ConsumerMessage * Z)) (msgs : list Message)
    (r : ConsumerMessage * Z) (err : error) : Prop :=
  exists post,
    claim = pre ++ r :: post /\
    all_claimed kafka_ClaimMessage dec pre msgs /\
    kafka_ClaimMessage dec r.1 true = Err err.

(** X12.  The handler of part_000 stops at the first record that cannot
    be claimed and returns the error of the claim processor for it: it has
    sent the messages of the records before it, in stream order, and
    nothing of the records after it has been received.  On every claim it
    sets the gauge at once after each receive and before the claim
    processor is called on the record. *)
Theorem ConsumeClaim000_first_error_and_lag (h : handler000) :
  (forall claim pre msgs r err,
     claim_first_failure (DecoderFunc (Group000.config (Group000.hconsumer h)))
       claim pre msgs r err ->
     (ConsumeClaim000 h claim).2 = Some err /\
     sent_msgs (chan_id (Group000.messages h)) (ConsumeClaim000 h claim).1 = msgs /\
     received (ConsumeClaim000 h claim).1 = map fst pre ++ [r.1] /\
     claimed (ConsumeClaim000 h claim).1 = map fst pre ++ [r.1]) /\
  (forall claim,
     lag_per_record (Group000.group (Group000.hconsumer h))
       (ConsumeClaim000 h claim).1 /\
     lag_before_claim (Group000.group (Group000.hconsumer h))
       (ConsumeClaim000 h claim).1).
Proof.
  split; [|apply ConsumeClaim000_lag].
  intros claim pre msgs [m high] err (post & -> & Hpre & Herr); simpl in *.
  rewrite (ConsumeClaim000_first_error _ _ _ _ _ _ _ _ Hpre Herr); simpl.
  pose proof (Forall2_length _ _ _ Hpre) as Hlen.
  split; [done|].
  rewrite sent_msgs_app, received_app, claimed_app.
  rewrite record_events_sent, record_events_claimed, record_events_received by done.
  split_and!; try done. by rewrite app_nil_r.
Qed.

(** X13.  What the handler of group.go returns, on every claim.  Either
    the claim processor succeeds on every record and the handler returns
    nil, or the handler returns the error of the claim processor for the
    first record it fails on; the messages it has sent are those of the
    records before that one, in stream order, and it has called the claim
    processor on those records and on the failing one, and on no other. *)
Theorem ConsumeClaim_outcome (h : handler) claim :
  exists pre msgs,
    all_claimed kafka_ClaimMessage
      (DecoderFunc (Group.consumerCnf (Group.hconsumer h))) pre msgs /\
    sent_msgs (chan_id (Group.messages h)) (ConsumeClaim h claim).1 = msgs /\
    ((claim = pre /\
      (ConsumeClaim h claim).2 = None /\
      claimed (ConsumeClaim h claim).1 = map fst claim)
     \/
     (exists m high post err,
        claim = pre ++ (m, high) :: post /\
        kafka_ClaimMessage (DecoderFunc (Group.consumerCnf (Group.hconsumer h)))
          m true = Err err /\
        (ConsumeClaim h claim).2 = Some err /\
        claimed (ConsumeClaim h claim).1 = map fst pre ++ [m])).
Proof.
  induction claim as [|[m high] claim (pre & msgs & Hall & Hsent & IH)]; simpl.
  - exists [], []. split_and!; [constructor|done|by left].
  - destruct (kafka_ClaimMessage _ m true) as [msg|err] eqn:Hm.
    + destruct (ConsumeClaim h claim) as [evs r] eqn:Hrec; simpl in *.
      exists ((m, high) :: pre), (msg :: msgs). split_and!.
      * by constructor.
      * unfold sent_msgs in *; simpl. rewrite decide_True by done. by f_equal.
      * destruct IH as [(-> & -> & Hcl)|(m' & high' & post & err & -> & He & -> & Hcl)].
        -- left. split_and!; try done. unfold claimed in *; simpl. by f_equal.
        -- right. exists m', high', post, err. split_and!; try done.
           unfold claimed in *; simpl. by f_equal.
    + exists [], []. split_and!; [constructor|done|].
      right. exists m, high, claim, err. by split_and!.
Qed.

End Edges.

(* ===================================================================== *)
(** ** Runs of the concrete consumers *)
(* ===================================================================== *)

Module Runs.
Import Go Kafka Example.

Local Abbreviation gworld := (@Group.world unit unit (list Byte.byte)).
Local Abbreviation sworld := (@Simple.world unit unit (list Byte.byte)).

(** A broker whose coordination client cannot be opened. *)
Definition NoConsumerGroup (brokers : list string) (group : string) (cfg : unit)
    : option error := Some (errorString "no brokers").

(** A topic with four partitions, the third of which has no leader. *)
Definition Partitions4 (topic : string) : result (list Z) := Ok [0; 1; 2; 3].
Definition ConsumePartition4 (topic : string) (partition offset : Z)
    : option error :=
  if decide (partition = 2) then Some (errorString "no leader") else None.

(** The consumers and the worlds after the first [Consume]. *)
Definition simple_c1 : @Simple.consumer unit unit :=
  Simple.set_ms (Simple.set_cnl (simple_consumer "orders") (Some 0%nat)) (Some 0%nat).

Definition simple_w1 : sworld :=
  Simple.mkWorld [false] [false] [false] 2
    [Simple.Pump 0 0 simple_c1 (mkChan 0 1000) (mkChan 1 1000) Simple.PSelect] [].

Definition group_c1 : @Group.consumer unit unit :=
  Group.set_cg (Group.set_cnl group_consumer (Some 0%nat)) (Some 0%nat).

Definition group_w1 : gworld :=
  Group.mkWorld [false] [false] 2
    [Group.Watchdog 0 0 (mkChan 1 0) Group.WSelect;
     Group.SessionLoop 0 0 ["orders"] (Group.mkHandler group_c1 (mkChan 0 0))
       (mkChan 1 0) Group.SConsume] [].

Lemma SConsume_orders :
  SConsume 0 (simple_consumer "orders") Simple.init =
    Returns (simple_w1, simple_c1, (Some (mkChan 0 1000), Some (mkChan 1 1000), None)).
Proof. reflexivity. Qed.

Lemma GConsume_orders :
  GConsume 0 group_consumer Group.init =
    Returns (group_w1, group_c1, (Some (mkChan 0 0), Some (mkChan 1 0), None)).
Proof. reflexivity. Qed.

(** A simple consumer whose buffer size an option has set to -1. *)
Definition negative_consumer : @Simple.consumer unit unit :=
  Simple.set_configs (simple_consumer "orders")
    (mkConsumerConfig ["kafka:9092"] (-1) None None, tt).

(** A group consumer whose buffer size an option has set to -1. *)
Definition negative_group_consumer : @Group.consumer unit unit :=
  Group.set_configs group_consumer
    (mkConsumerConfig ["kafka:9092"] (-1) None None, tt).

(** *** X1, X11: when Consume returns its queues, and when it panics *)

Lemma Simple_Consume_returns_queues_iff_witness :
  SConsume 0 (simple_consumer "orders") Simple.init =
    Returns (simple_w1, simple_c1, (Some (mkChan 0 1000), Some (mkChan 1 1000), None)) /\
  (exists ps, Partitions "orders" = Ok ps /\ ps <> [] /\
     Forall (fun p => ConsumePartition "orders" p (-1) = None) ps) /\
  (exists w1 c1 e,
     @Simple.Consume unit unit (list Byte.byte) NewConsumer Partitions4
       ConsumePartition4 Offsets_Initial 0 (simple_consumer "orders") Simple.init
     = Returns (w1, c1, (None, None, Some e)) /\
     Simple.tasks w1 = []).
Proof.
  split; [reflexivity|]. split.
  - destruct (@Simple_Consume_returns_queues_iff unit unit (list Byte.byte)
                NewConsumer Partitions ConsumePartition Offsets_Initial 0
                (simple_consumer "orders") Simple.init simple_w1 simple_c1
                (Some (mkChan 0 1000)) (Some (mkChan 1 1000)) None eq_refl)
      as (_ & _ & H).
    destruct (proj1 H eq_refl) as (_ & ps & Hps & Hne & Hall).
    exists ps. split_and!; try done.
  - eexists _, _, _. split; [reflexivity|].
    match goal with
    | |- Simple.tasks ?w1 = _ =>
        destruct (@Simple_Consume_returns_queues_iff unit unit (list Byte.byte)
                    NewConsumer Partitions4 ConsumePartition4 Offsets_Initial 0
                    (simple_consumer "orders") Simple.init w1 _ _ _ _ eq_refl)
          as (_ & [(He & _)|(_ & _ & _ & Ht)] & _)
    end.
    + inversion He.
    + exact Ht.
Defined.

Lemma Consume_panics_on_negative_buffer_witness :
  SConsume 0 negative_consumer Simple.init = Panics /\
  GConsume 0 negative_group_consumer Group.init = Panics /\
  exists w1 c1,
    @Group.Consume unit unit (list Byte.byte) NoConsumerGroup 0
      negative_group_consumer Group.init =
      Returns (w1, c1,
               (None, None,
                Some (Errors.withMessage (errorString "no brokers")
                        "failed to create consumer"))).
Proof.
  split_and!.
  - apply (proj1 (@Consume_panics_on_negative_buffer unit unit (list Byte.byte)
                    NewConsumerGroup NewConsumer Partitions ConsumePartition
                    Offsets_Initial) 0%nat negative_consumer Simple.init).
    simpl. lia.
  - apply (proj1 (proj2 (@Consume_panics_on_negative_buffer unit unit
                           (list Byte.byte) NewConsumerGroup NewConsumer Partitions
                           ConsumePartition Offsets_Initial))
             0%nat negative_group_consumer Group.init).
    + simpl. lia.
    + reflexivity.
  - destruct (proj2 (proj2 (@Consume_panics_on_negative_buffer unit unit
                              (list Byte.byte) NoConsumerGroup NewConsumer Partitions
                              ConsumePartition Offsets_Initial))
                0%nat negative_group_consumer Group.init
                (errorString "no brokers")) as (w1 & c1 & H & _).
    + simpl. lia.
    + reflexivity.
    + by exists w1, c1.
Defined.

(** *** X2: the reader of the third partition cannot be opened *)

Lemma Simple_Consume_failures_witness :
  exists w1 c1 w2,
    @Simple.Consume unit unit (list Byte.byte) NewConsumer Partitions4
      ConsumePartition4 Offsets_Initial 0 (simple_consumer "orders") Simple.init =
      Returns (w1, c1,
               (None, None,
                Some (Errors.withMessage
                        (Errors.withMessage (errorString "no leader")
                           "failed to get partition consumer")
                        "failed to get partitions"))) /\
    Simple.ms c1 = Some 0%nat /\
    Simple.tasks w1 = [] /\
    Simple.clients w1 = [false] /\
    Simple.readers w1 = [false; false] /\
    SClose c1 w1 = Returns (w2, None) /\
    Simple.clients w2 = Simple.clients w1 /\
    Simple.readers w2 = Simple.readers w1.
Proof.
  assert (0 <= Buffer (Simple.consumerCnf (simple_consumer "orders"))) as Hb
    by (simpl; lia).
  destruct (@Simple_Consume_failures unit unit (list Byte.byte) NewConsumer
              Partitions4 ConsumePartition4 Offsets_Initial 0
              (simple_consumer "orders") Simple.init Hb) as (_ & _ & H).
  apply (H [0; 1] 2 [3] (errorString "no leader")).
  - reflexivity.
  - reflexivity.
  - by repeat constructor.
  - reflexivity.
Defined.

(** *** X3: two records that overtake each other *)

Lemma Simple_messages_can_overtake_witness :
  exists w',
    rtc ssched simple_w1 w' /\
    received (Simple.trace w') = [record 1 ["a"%byte]; record 2 ["b"%byte]] /\
    sent_msgs 0 (Simple.trace w') = [["b"%byte]; ["a"%byte]].
Proof.
  destruct (@Simple_messages_can_overtake unit unit (list Byte.byte) ClaimMessage
              0 simple_w1 0 0 simple_c1 (mkChan 0 1000) (mkChan 1 1000)
              (record 1 ["a"%byte]) 3 ["a"%byte]
              (record 2 ["b"%byte]) 3 ["b"%byte]
              eq_refl eq_refl eq_refl) as (w' & R & _ & Hr & Hs).
  exists w'. split; [exact R|]. split; [exact Hr|exact Hs].
Defined.

(** *** X4: a record that cannot be decoded and one that can *)

Lemma Simple_every_record_is_answered_witness :
  exists w',
    rtc ssched simple_w1 w' /\
    received (Simple.trace w') = [record 1 []; record 2 ["c"%byte]] /\
    sent_msgs 0 (Simple.trace w') ≡ₚ [["c"%byte]] /\
    (length (sent_msgs 0 (Simple.trace w'))
     + length (sent_errs 1 (Simple.trace w')))%nat = 2%nat.
Proof.
  eexists.
  match goal with
  | |- rtc ?R ?a ?b /\ _ => assert (Hrun : rtc R a b); [|split; [exact Hrun|]]
  end.
  { eapply rtc_l.
    { exists 0%nat.
      eapply Simple.step_pump_message with (m := record 1 []) (high := 3).
      reflexivity. }
    eapply rtc_l.
    { exists 0%nat.
      eapply Simple.step_pump_message with (m := record 2 ["c"%byte]) (high := 5).
      reflexivity. }
    eapply rtc_l.
    { exists 2%nat. eapply Simple.step_emit_claim. reflexivity. }
    eapply rtc_l.
    { exists 1%nat. eapply Simple.step_emit_claim. reflexivity. }
    eapply rtc_l.
    { exists 1%nat. eapply Simple.step_emit_err. reflexivity. }
    eapply rtc_l.
    { exists 2%nat. eapply Simple.step_emit_msg. reflexivity. }
    apply rtc_refl. }
  split; [reflexivity|].
  apply (@Simple_every_record_is_answered unit unit (list Byte.byte) NewConsumer
           Partitions ConsumePartition Offsets_Initial ClaimMessage 0
           (simple_consumer "orders") Simple.init simple_w1 _ simple_c1
           (mkChan 0 1000) (mkChan 1 1000) eq_refl eq_refl SConsume_orders Hrun).
  repeat constructor.
Defined.

(** *** X5, X9: a fatal error of the client *)

Lemma Simple_pump_fatal_error_witness :
  exists w1 w2,
    sstep 0 simple_w1 w1 /\ sstep 0 w1 w2 /\
    reader_closed w1 0 = true /\
    Simple.trace w2 =
      [EvClientError (Some (errorString "lost"));
       EvSendErr 1 (Some (errorString "lost"))] /\
    Simple.tasks w2 =
      [Simple.Pump 0 0 simple_c1 (mkChan 0 1000) (mkChan 1 1000) Simple.PReturned] /\
    Simple.readers w2 = [true] /\
    Simple.clients w2 = [false] /\
    Simple.ctxs w2 = [false] /\
    forall w3, ~ sstep 0 w2 w3.
Proof.
  apply (@Simple_pump_fatal_error unit unit (list Byte.byte) ClaimMessage
           0 simple_w1 0 0 simple_c1 (mkChan 0 1000) (mkChan 1 1000)
           (Some (errorString "lost"))).
  - reflexivity.
  - simpl. lia.
Defined.

Lemma Group_watchdog_fatal_error_witness :
  exists w1 w2,
    gstep 0 group_w1 w1 /\ gstep 0 w1 w2 /\
    Group.cg_closed w1 0 = true /\
    Group.trace w2 =
      [EvClientError (Some (errorString "lost"));
       EvSendErr 1 (Some (errorString "lost"))] /\
    Group.tasks w2 =
      [Group.Watchdog 0 0 (mkChan 1 0) Group.WReturned;
       Group.SessionLoop 0 0 ["orders"] (Group.mkHandler group_c1 (mkChan 0 0))
         (mkChan 1 0) Group.SConsume] /\
    Group.cgs w2 = [true] /\
    Group.ctxs w2 = [false] /\
    (forall w3, ~ gstep 0 w2 w3) /\
    forall j ctx' cns' topics hnd chErr' pc,
      Group.tasks group_w1 !! j =
        Some (Group.SessionLoop ctx' cns' topics hnd chErr' pc) ->
      Group.tasks w2 !! j =
        Some (Group.SessionLoop ctx' cns' topics hnd chErr' pc).
Proof.
  apply (@Group_watchdog_fatal_error unit unit (list Byte.byte) cg_Close ClaimMessage
           0 group_w1 0 0 (mkChan 1 0) (Some (errorString "lost"))).
  - reflexivity.
  - simpl. lia.
Defined.

(** *** X8: the coordination client cannot be opened *)

Lemma Group_Consume_failure_then_Close_witness :
  exists w1 c1,
    @Group.Consume unit unit (list Byte.byte) NoConsumerGroup 0 group_consumer
      Group.init =
      Returns (w1, c1,
               (None, None,
                Some (Errors.withMessage (errorString "no brokers")
                        "failed to create consumer"))) /\
    Group.cnl c1 = Some 0%nat /\
    Group.cg c1 = None /\
    Group.ctxs w1 = [false] /\
    Group.cgs w1 = [] /\
    Group.tasks w1 = [] /\
    Group.trace w1 = [] /\
    forall w' : gworld, GClose c1 w' = Panics.
Proof.
  apply (@Group_Consume_failure_then_Close unit unit (list Byte.byte) SaramaConfig
           NoConsumerGroup cg_Close (group_factory []) [] group_consumer 0
           Group.init (errorString "no brokers")).
  - reflexivity.
  - reflexivity.
Defined.

(** *** X10, X6: Consume, Consume again, then Close *)

Lemma Group_Consume_twice_then_Close_witness :
  exists w2 c2 chMsg' chErr',
    GConsume 0 group_c1 group_w1
      = Returns (w2, c2, (Some chMsg', Some chErr', None)) /\
    Group.cnl c2 = Some 1%nat /\
    Group.cg c2 = Some 1%nat /\
    exists w3 err,
      GClose c2 w2 = Returns (w3, err) /\
      ctx_done (Group.ctxs w3) 1 = true /\
      Group.cg_closed w3 1 = true /\
      Group.cg_closed w3 0 = false /\
      forall w4,
        rtc gsched w3 w4 ->
        ctx_done (Group.ctxs w4) 0 = false /\
        (exists pcw,
           Group.tasks w4 !! 0%nat = Some (Group.Watchdog 0 0 (mkChan 1 0) pcw)) /\
        (exists pcs,
           Group.tasks w4 !! 1%nat =
             Some (Group.SessionLoop 0 0 ["orders"]
                     (Group.mkHandler group_c1 (mkChan 0 0)) (mkChan 1 0) pcs) /\
           pcs <> Group.SReturned).
Proof.
  eexists _, _, _, _. split; [reflexivity|].
  apply (@Group_Consume_twice_then_Close unit unit (list Byte.byte)
           NewConsumerGroup cg_Close ClaimMessage 0 0 group_consumer Group.init
           group_w1 group_w1 _ _ group_c1 _ (mkChan 0 0) (mkChan 1 0) _ _
           GConsume_orders (rtc_refl _ _) eq_refl (rtc_refl _ _)).
Defined.

Lemma Simple_Consume_twice_then_Close_witness :
  exists w2 c2 chMsg' chErr',
    SConsume 0 simple_c1 simple_w1
      = Returns (w2, c2, (Some chMsg', Some chErr', None)) /\
    Simple.cnl c2 = Some 1%nat /\
    exists w3,
      SClose c2 w2 = Returns (w3, None) /\
      ctx_done (Simple.ctxs w3) 1 = true /\
      forall w4 i,
        rtc ssched w3 w4 ->
        (0 <= i < 1)%nat ->
        ctx_done (Simple.ctxs w4) 0 = false /\
        exists r pc,
          Simple.tasks w4 !! i =
            Some (Simple.Pump 0 r simple_c1 (mkChan 0 1000) (mkChan 1 1000) pc) /\
          (false = false ->
           pc = Simple.PSelect ->
           forall j w5,
             sstep j w4 w5 ->
             Simple.tasks w5 !! i <>
               Some (Simple.Pump 0 r simple_c1 (mkChan 0 1000) (mkChan 1 1000)
                       Simple.PReturned)).
Proof.
  eexists _, _, _, _. split; [reflexivity|].
  apply (@Simple_Consume_twice_then_Close unit unit (list Byte.byte) NewConsumer
           Partitions ConsumePartition Offsets_Initial ClaimMessage 0 0
           (simple_consumer "orders") Simple.init simple_w1 simple_w1 _ _
           simple_c1 _ (mkChan 0 1000) (mkChan 1 1000) _ _
           SConsume_orders (rtc_refl _ _) eq_refl (rtc_refl _ _)).
Defined.

(** *** X12: the handler of part_000 on a claim with a bad record *)

Lemma ConsumeClaim000_first_error_and_lag_witness :
  (Group000.ConsumeClaim (fun msg dec sess => ClaimMessage dec msg sess)
     group000_handler claim_bad).2 = Some (errorString "empty payload") /\
  sent_msgs 0 (Group000.ConsumeClaim (fun msg dec sess => ClaimMessage dec msg sess)
                 group000_handler claim_bad).1 = [["a"%byte]] /\
  received (Group000.ConsumeClaim (fun msg dec sess => ClaimMessage dec msg sess)
              group000_handler claim_bad).1
    = [record 0 ["a"%byte]; record 1 []] /\
  claimed (Group000.ConsumeClaim (fun msg dec sess => ClaimMessage dec msg sess)
             group000_handler claim_bad).1
    = [record 0 ["a"%byte]; record 1 []].
Proof.
  apply (proj1 (@ConsumeClaim000_first_error_and_lag unit unit (list Byte.byte)
                  ClaimMessage group000_handler)
           claim_bad [(record 0 ["a"%byte], 3)] [["a"%byte]] (record 1 [], 3)
           (errorString "empty payload")).
  exists [(record 2 ["c"%byte], 5)]. split_and!.
  - reflexivity.
  - repeat constructor.
  - reflexivity.
Defined.

(** *** X7: the reader of a pump that has stopped *)


End Runs.

(* ===================================================================== *)
(** ** The goroutines of part_000 *)
(* ===================================================================== *)

Section Group000Runtime.
Import Go Kafka.
Context {Decoder Cfg Message : Type}.
Variable sarama_NewConsumerGroup :
  list string -> string -> option Cfg -> option error.
Variable sarama_cg_Close : nat -> bool -> option error.
Variable kafka_ClaimMessage :
  ConsumerMessage -> option Decoder -> bool -> result Message.

Local Abbreviation world := (@Group000Consume.world Decoder Cfg Message).
Local Abbreviation step := (Group000Consume.step sarama_cg_Close kafka_ClaimMessage).
Local Abbreviation sched := (Group000Consume.sched sarama_cg_Close kafka_ClaimMessage).
Local Abbreviation Consume :=
  (Group000Consume.Consume (Message := Message) sarama_NewConsumerGroup).
Local Abbreviation Close :=
  (Group000Consume.Close (Message := Message) sarama_cg_Close).
Local Abbreviation read_cg := (@Group000Consume.read_cg Decoder Cfg Message).
Local Abbreviation cg_closed := (@Group000Consume.cg_closed Decoder Cfg Message).

(** Every goroutine of the world holds the consumer at address [c]. *)
Definition owned_by (c : nat) (w : world) : Prop :=
  Forall (fun t => Group000Consume.task_consumer t = c) (Group000Consume.tasks w).

(** No step writes the heap or a context, and a step closes no client but
    the one the consumer of its goroutine holds at that time. *)
Lemma Group000_step_frame i (w w' : world) c :
  owned_by c w -> step i w w' ->
  owned_by c w' /\
  Group000Consume.heap w' = Group000Consume.heap w /\
  Group000Consume.ctxs w' = Group000Consume.ctxs w /\
  length (Group000Consume.cgs w') = length (Group000Consume.cgs w) /\
  (forall h, cg_closed w h = true -> cg_closed w' h = true) /\
  (forall h, read_cg w c <> Some h ->
     Group000Consume.cgs w' !! h = Group000Consume.cgs w !! h).
Proof.
  intros Hown Hstep.
  assert (forall (w0 : world) cns h,
            cg_closed w0 h = true ->
            cg_closed (Group000Consume.closeConsumer sarama_cg_Close cns w0) h = true) as Hmono.
  { intros w0 [h0|] h; [|done]. unfold Group000Consume.cg_closed; simpl.
    intros H. destruct (decide (h0 = h)) as [->|].
    - destruct (Group000Consume.cgs w0 !! h) eqn:Hh; [|done].
      by rewrite list_lookup_insert_eq by (eapply lookup_lt_Some; eauto).
    - by rewrite list_lookup_insert_ne. }
  assert (forall (w0 : world) cns,
            length (Group000Consume.cgs (Group000Consume.closeConsumer sarama_cg_Close cns w0))
            = length (Group000Consume.cgs w0)) as Hlen.
  { intros w0 [h0|]; simpl; by rewrite ?length_insert. }
  assert (forall (w0 : world) cns h,
            cns <> Some h ->
            Group000Consume.cgs (Group000Consume.closeConsumer sarama_cg_Close cns w0) !! h
            = Group000Consume.cgs w0 !! h) as Hother.
  { intros w0 [h0|] h Hne; simpl; [|done].
    rewrite list_lookup_insert_ne; [done|]. intros ->. done. }
  assert (forall (w0 : world) cns,
            Group000Consume.heap (Group000Consume.closeConsumer sarama_cg_Close cns w0)
            = Group000Consume.heap w0 /\
            Group000Consume.ctxs (Group000Consume.closeConsumer sarama_cg_Close cns w0)
            = Group000Consume.ctxs w0) as Hsame.
  { by intros w0 [h0|]. }
  destruct Hstep;
    match goal with
    | H : Group000Consume.tasks _ !! _ = Some _ |- _ =>
        pose proof (Forall_lookup_1 _ _ _ _ Hown H) as Hc; simpl in Hc; subst
    end;
    simpl; rewrite ?Hlen, ?(proj1 (Hsame _ _)), ?(proj2 (Hsame _ _));
    split_and!; try done;
    try (by apply Forall_insert);
    try (by intros; apply Hmono);
    try (by intros; apply Hother).
  intros h0 Hc. by apply (Hother (Group000Consume.emit _ w)).
Qed.

Lemma Group000_sched_frame (w w' : world) c :
  owned_by c w -> rtc sched w w' ->
  owned_by c w' /\
  Group000Consume.heap w' = Group000Consume.heap w /\
  Group000Consume.ctxs w' = Group000Consume.ctxs w /\
  length (Group000Consume.cgs w') = length (Group000Consume.cgs w) /\
  (forall h, cg_closed w h = true -> cg_closed w' h = true) /\
  (forall h, read_cg w c <> Some h ->
     Group000Consume.cgs w' !! h = Group000Consume.cgs w !! h).
Proof.
  intros Hown Hrtc.
  induction Hrtc as [w|w w1 w' [j Hstep] _ IH]; [by split_and!|].
  destruct (Group000_step_frame _ _ _ _ Hown Hstep) as (O1 & H1 & X1 & L1 & M1 & C1).
  destruct (IH O1) as (O2 & H2 & X2 & L2 & M2 & C2).
  split_and!; try congruence; [by eauto|].
  intros h Hh. rewrite C2, C1; try done.
  unfold Group000Consume.read_cg in *. by rewrite H1.
Qed.

(** A goroutine stays the goroutine it is, whatever goroutine steps. *)
Lemma Group000_step_watchdog i j (w w' : world) ctx c chErr pc :
  step j w w' ->
  Group000Consume.tasks w !! i = Some (Group000Consume.Watchdog ctx c chErr pc) ->
  exists pc',
    Group000Consume.tasks w' !! i = Some (Group000Consume.Watchdog ctx c chErr pc').
Proof.
  destruct 1; intros Hi; simpl; try (by eauto);
    (destruct (decide (i0 = i)) as [->|];
     [ rewrite list_lookup_insert_eq by (eapply lookup_lt_Some; eauto)
     | rewrite list_lookup_insert_ne by done ]);
    try (by eauto);
    match goal with
    | H1 : ?l !! ?i = Some _, H2 : ?l !! ?i = Some _ |- _ =>
        rewrite H1 in H2; inversion H2; subst; eauto
    end.
Qed.

Lemma Group000_step_session i j (w w' : world) ctx c chMsg chErr pc :
  step j w w' ->
  Group000Consume.tasks w !! i =
    Some (Group000Consume.SessionLoop ctx c chMsg chErr pc) ->
  exists pc',
    Group000Consume.tasks w' !! i =
      Some (Group000Consume.SessionLoop ctx c chMsg chErr pc').
Proof.
  destruct 1; intros Hi; simpl; try (by eauto);
    (destruct (decide (i0 = i)) as [->|];
     [ rewrite list_lookup_insert_eq by (eapply lookup_lt_Some; eauto)
     | rewrite list_lookup_insert_ne by done ]);
    try (by eauto);
    match goal with
    | H1 : ?l !! ?i = Some _, H2 : ?l !! ?i = Some _ |- _ =>
        rewrite H1 in H2; inversion H2; subst; eauto
    end.
Qed.

Lemma Group000_sched_tasks i (w w' : world) :
  rtc sched w w' ->
  (forall ctx c chErr pc,
     Group000Consume.tasks w !! i = Some (Group000Consume.Watchdog ctx c chErr pc) ->
     exists pc',
       Group000Consume.tasks w' !! i =
         Some (Group000Consume.Watchdog ctx c chErr pc')) /\
  (forall ctx c chMsg chErr pc,
     Group000Consume.tasks w !! i =
       Some (Group000Consume.SessionLoop ctx c chMsg chErr pc) ->
     exists pc',
       Group000Consume.tasks w' !! i =
         Some (Group000Consume.SessionLoop ctx c chMsg chErr pc')).
Proof.
  induction 1 as [w|w w1 w' [j Hstep] _ [IH1 IH2]]; [by eauto|].
  split.
  - intros ctx c chErr pc Hi.
    destruct (Group000_step_watchdog _ _ _ _ _ _ _ _ Hstep Hi) as (pc1 & H1). eauto.
  - intros ctx c chMsg chErr pc Hi.
    destruct (Group000_step_session _ _ _ _ _ _ _ _ _ Hstep Hi) as (pc1 & H1). eauto.
Qed.

(** What a successful [Consume] has done. *)
Lemma Group000_Consume_success parent c (w w1 : world) chMsg chErr :
  Consume parent c w = Returns (w1, (Some chMsg, Some chErr, None)) ->
  let k := length (Group000Consume.ctxs w) in
  let h := length (Group000Consume.cgs w) in
  exists cns,
    Group000Consume.heap w !! c = Some cns /\
    Group000Consume.heap w1 =
      <[c := Group000Consume.set_cg (Group000Consume.set_cnl cns (Some k)) (Some h)]>
        (Group000Consume.heap w) /\
    Group000Consume.ctxs w1 =
      Group000Consume.ctxs w ++ [ctx_done (Group000Consume.ctxs w) parent] /\
    Group000Consume.cgs w1 = Group000Consume.cgs w ++ [false] /\
    Group000Consume.trace w1 = Group000Consume.trace w /\
    Group000Consume.tasks w1 = Group000Consume.tasks w ++
      [Group000Consume.Watchdog k c chErr Group000Consume.WStart;
       Group000Consume.SessionLoop k c chMsg chErr Group000Consume.SIdle].
Proof.
  unfold Group000Consume.Consume, WithCancel, make_chan; simpl.
  destruct (Group000Consume.heap w !! c) as [cns|] eqn:Hc; [|done].
  destruct (sarama_NewConsumerGroup _ _ _); simpl; [intros Hr; inversion Hr|].
  case_decide; [done|]. intros Hr. inversion Hr; subst; clear Hr.
  exists cns. split_and!; try done; by rewrite <- app_assoc.
Qed.

Lemma Group000_read_cg_insert (w : world) c cns :
  (c < length (Group000Consume.heap w))%nat ->
  read_cg (Group000Consume.set_heap w (<[c := cns]> (Group000Consume.heap w))) c
    = Group000.cg cns.
Proof.
  intros Hlt. unfold Group000Consume.read_cg; simpl.
  by rewrite list_lookup_insert_eq.
Qed.

(** X14.  In part_000 the goroutines read the client through the
    consumer, so a second [Consume] on the same consumer hands the second
    client to the goroutines of the first.  After the second [Consume],
    whatever the goroutines do: the consumer holds the second client; the
    first client is never closed, it is as the second [Consume] found it;
    a session loop at the top of its loop, the first one too, enters
    [Consume] of the second client; and [Close] returns, having closed the
    second client and left the first as it was. *)
Theorem Group000_second_Consume_orphans_the_first_client parent parent' c
    (w w1 w1' w2 w3 : world) chMsg chErr chMsg' chErr' :
  Group000Consume.tasks w = [] ->
  Consume parent c w = Returns (w1, (Some chMsg, Some chErr, None)) ->
  rtc sched w1 w1' ->
  Consume parent' c w1' = Returns (w2, (Some chMsg', Some chErr', None)) ->
  rtc sched w2 w3 ->
  let h := length (Group000Consume.cgs w) in
  read_cg w3 c = Some (S h) /\
  Group000Consume.cgs w3 !! h = Group000Consume.cgs w1' !! h /\
  (forall i ctx qm qe w4,
     Group000Consume.tasks w3 !! i =
       Some (Group000Consume.SessionLoop ctx c qm qe Group000Consume.SIdle) ->
     step i w3 w4 ->
     Group000Consume.tasks w4 !! i =
       Some (Group000Consume.SessionLoop ctx c qm qe (Group000Consume.SConsume (S h)))) /\
  (exists pcs,
     Group000Consume.tasks w3 !! 1%nat =
       Some (Group000Consume.SessionLoop (length (Group000Consume.ctxs w)) c
               chMsg chErr pcs)) /\
  exists w4 err,
    Close c w3 = Returns (w4, err) /\
    cg_closed w4 (S h) = true /\
    Group000Consume.cgs w4 !! h = Group000Consume.cgs w1' !! h.
Proof.
  intros Hts HC1 R1 HC2 R2 h.
  destruct (Group000_Consume_success _ _ _ _ _ _ HC1)
    as (cns & Hc & Hheap1 & Hctx1 & Hcgs1 & _ & Hts1).
  rewrite Hts in Hts1. simpl in Hts1.
  assert (owned_by c w1) as Hown1.
  { unfold owned_by. rewrite Hts1. by repeat constructor. }
  destruct (Group000_sched_frame _ _ _ Hown1 R1) as (Hown1' & HH1 & HX1 & HL1 & _ & _).
  destruct (Group000_Consume_success _ _ _ _ _ _ HC2)
    as (cns' & Hc' & Hheap2 & Hctx2 & Hcgs2 & _ & Hts2).
  assert (length (Group000Consume.cgs w1') = S h) as Hh1.
  { rewrite HL1, Hcgs1, length_app; simpl. unfold h. lia. }
  rewrite Hh1 in Hheap2.
  assert (owned_by c w2) as Hown2.
  { unfold owned_by. rewrite Hts2. apply Forall_app. split; [done|].
    by repeat constructor. }
  pose proof (lookup_lt_Some _ _ _ Hc') as Hlt.
  assert (read_cg w2 c = Some (S h)) as Hread2.
  { unfold Group000Consume.read_cg. rewrite Hheap2.
    by rewrite list_lookup_insert_eq. }
  destruct (Group000_sched_frame _ _ _ Hown2 R2) as (Hown3 & HH3 & HX3 & HL3 & _ & HC3).
  assert (read_cg w3 c = Some (S h)) as Hread3.
  { unfold Group000Consume.read_cg in *. by rewrite HH3. }
  assert (Group000Consume.cgs w3 !! h = Group000Consume.cgs w1' !! h) as Hfirst.
  { rewrite HC3 by (rewrite Hread2; intros [=]; lia).
    rewrite Hcgs2. apply lookup_app_l. lia. }
  split; [done|]. split; [done|]. split_and!.
  - intros i ctx qm qe w4 Hi Hstep.
    inversion Hstep; subst; simpl;
      match goal with
      | H1 : ?l !! ?i = Some _, H2 : ?l !! ?i = Some _ |- _ =>
          rewrite H1 in H2; inversion H2; subst; clear H2
      end.
    rewrite list_lookup_insert_eq by (eapply lookup_lt_Some; eauto).
    congruence.
  - assert (Group000Consume.tasks w1 !! 1%nat =
              Some (Group000Consume.SessionLoop (length (Group000Consume.ctxs w)) c
                      chMsg chErr Group000Consume.SIdle)) as Hs1
      by (by rewrite Hts1).
    destruct (Group000_sched_tasks 1 _ _ R1) as [_ S1].
    destruct (S1 _ _ _ _ _ Hs1) as (pc1 & Hs1').
    assert (Group000Consume.tasks w2 !! 1%nat =
              Some (Group000Consume.SessionLoop (length (Group000Consume.ctxs w)) c
                      chMsg chErr pc1)) as Hs2.
    { rewrite Hts2. by apply lookup_app_l_Some. }
    destruct (Group000_sched_tasks 1 _ _ R2) as [_ S2].
    destruct (S2 _ _ _ _ _ Hs2) as (pc3 & Hs3). eauto.
  - unfold Group000Consume.read_cg in Hread3.
    destruct (Group000Consume.heap w3 !! c) as [c3|] eqn:Hc3; [|done].
    simpl in Hread3.
    assert (S h < length (Group000Consume.cgs w3))%nat as Hlt3.
    { rewrite HL3, Hcgs2, length_app, Hh1; simpl. lia. }
    unfold Group000Consume.Close. rewrite Hc3, Hread3.
    destruct (Group000.cnl c3) as [k|]; simpl;
      destruct (sarama_cg_Close _ _); eexists _, _; (split; [reflexivity|]);
      simpl; unfold Group000Consume.cg_closed; simpl;
      rewrite list_lookup_insert_eq by done;
      rewrite list_lookup_insert_ne by lia; done.
Qed.

(** X15.  An error of the first client closes the second.  After a first
    [Consume] the watchdog can enter its select, on the errors of the
    first client.  Then, after a second [Consume] on the same consumer,
    whatever value the first watchdog reads from the errors of the first
    client, it closes the client the consumer holds now, the second one,
    sends the value on the first error queue and returns; the first
    client is still open. *)
Theorem Group000_error_of_first_client_closes_the_second parent c
    (w w1 : world) chMsg chErr :
  Group000Consume.tasks w = [] ->
  Consume parent c w = Returns (w1, (Some chMsg, Some chErr, None)) ->
  let h := length (Group000Consume.cgs w) in
  exists w1',
    rtc sched w1 w1' /\
    Group000Consume.tasks w1' !! 0%nat =
      Some (Group000Consume.Watchdog (length (Group000Consume.ctxs w)) c chErr
              (Group000Consume.WSelect h)) /\
    forall parent' w2 chMsg' chErr' consumerError,
      Consume parent' c w1' = Returns (w2, (Some chMsg', Some chErr', None)) ->
      exists w3,
        rtc sched w2 w3 /\
        Group000Consume.trace w3 = Group000Consume.trace w2 ++
          [EvClientError consumerError; EvSendErr (chan_id chErr) consumerError] /\
        Group000Consume.tasks w3 =
          <[0%nat := Group000Consume.Watchdog (length (Group000Consume.ctxs w)) c
                       chErr Group000Consume.WReturned]> (Group000Consume.tasks w2) /\
        read_cg w3 c = Some (S h) /\
        cg_closed w3 (S h) = true /\
        cg_closed w3 h = false.
Proof.
  intros Hts HC1 h.
  destruct (Group000_Consume_success _ _ _ _ _ _ HC1)
    as (cns & Hc & Hheap1 & Hctx1 & Hcgs1 & Htr1 & Hts1).
  rewrite Hts in Hts1. simpl in Hts1.
  pose proof (lookup_lt_Some _ _ _ Hc) as Hlt.
  assert (read_cg w1 c = Some h) as Hread1.
  { unfold Group000Consume.read_cg. rewrite Hheap1.
    by rewrite list_lookup_insert_eq. }
  eexists. split_and!.
  - eapply rtc_l; [|apply rtc_refl]. exists 0%nat.
    eapply Group000Consume.step_watchdog_start; [by rewrite Hts1|exact Hread1].
  - simpl. by rewrite Hts1.
  - intros parent' w2 chMsg' chErr' consumerError HC2.
    destruct (Group000_Consume_success _ _ _ _ _ _ HC2)
      as (cns' & Hc' & Hheap2 & Hctx2 & Hcgs2 & Htr2 & Hts2).
    simpl in Hc', Hheap2, Hctx2, Hcgs2, Htr2, Hts2.
    rewrite Hcgs1, length_app in Hheap2. simpl in Hheap2.
    rewrite Hts1 in Hts2. simpl in Hts2.
    pose proof (lookup_lt_Some _ _ _ Hc') as Hlt'.
    assert (read_cg w2 c = Some (S h)) as Hread2.
    { unfold Group000Consume.read_cg. rewrite Hheap2.
      rewrite list_lookup_insert_eq by done. simpl. f_equal. unfold h. lia. }
    eexists. split_and!.
    + eapply rtc_l.
      { exists 0%nat.
        eapply Group000Consume.step_watchdog_error
          with (consumerError := consumerError).
        by rewrite Hts2. }
      eapply rtc_l; [|apply rtc_refl]. exists 0%nat.
      eapply Group000Consume.step_watchdog_send. simpl.
      apply list_lookup_insert_eq. rewrite Hts2. simpl. lia.
    + simpl. rewrite Hread2. simpl. by rewrite <- app_assoc.
    + simpl. by rewrite list_insert_insert_eq.
    + simpl. rewrite Hread2. simpl. done.
    + simpl. rewrite Hread2. simpl. unfold Group000Consume.cg_closed; simpl.
      rewrite list_lookup_insert_eq; [done|].
      rewrite Hcgs2, Hcgs1, !length_app; simpl. unfold h. lia.
    + simpl. rewrite Hread2. simpl. unfold Group000Consume.cg_closed; simpl.
      rewrite list_lookup_insert_ne by lia.
      rewrite Hcgs2, Hcgs1.
      rewrite lookup_app_l by (rewrite length_app; simpl; unfold h; lia).
      by rewrite lookup_app_r, Nat.sub_diag by done.
Qed.

(** X16.  [Consume], then [Close], in part_000.  After a successful
    [Consume], whatever the goroutines have done since, [Close] returns:
    it cancels the derived context and closes the client, and changes
    neither the goroutines nor the trace.  In every world reached
    afterwards the context is cancelled and the client closed.  The
    watchdog is on its way out: before its select it can enter it; in its
    select it can take the cancellation branch and return with nothing
    sent; at the send of an error it had read, the send, once it is
    accepted, is its last step; and each of its steps takes it closer to
    its return.  The session loop never returns: every step of it leaves
    it running; before the call of [Consume] it can make the call;
    whatever error the call returns takes it to the send of that error;
    and the send, once it is accepted, takes it back before the call. *)
Theorem Group000_Close_ends_the_watchdog_only parent c (w w1 w1' : world)
    chMsg chErr :
  Group000Consume.tasks w = [] ->
  Consume parent c w = Returns (w1, (Some chMsg, Some chErr, None)) ->
  rtc sched w1 w1' ->
  let k := length (Group000Consume.ctxs w) in
  let h := length (Group000Consume.cgs w) in
  exists w2 err,
    Close c w1' = Returns (w2, err) /\
    Group000Consume.tasks w2 = Group000Consume.tasks w1' /\
    Group000Consume.trace w2 = Group000Consume.trace w1' /\
    forall w3,
      rtc sched w2 w3 ->
      ctx_done (Group000Consume.ctxs w3) k = true /\
      cg_closed w3 h = true /\
      (exists pcw,
         Group000Consume.tasks w3 !! 0%nat =
           Some (Group000Consume.Watchdog k c chErr pcw) /\
         (pcw = Group000Consume.WStart ->
          exists w4,
            step 0 w3 w4 /\
            Group000Consume.tasks w4 !! 0%nat =
              Some (Group000Consume.Watchdog k c chErr (Group000Consume.WSelect h))) /\
         (forall h',
            pcw = Group000Consume.WSelect h' ->
            exists w4,
              step 0 w3 w4 /\
              Group000Consume.tasks w4 !! 0%nat =
                Some (Group000Consume.Watchdog k c chErr Group000Consume.WReturned) /\
              Group000Consume.trace w4 = Group000Consume.trace w3) /\
         (forall e w4,
            pcw = Group000Consume.WSendErr e -> step 0 w3 w4 ->
            Group000Consume.tasks w4 !! 0%nat =
              Some (Group000Consume.Watchdog k c chErr Group000Consume.WReturned) /\
            Group000Consume.trace w4 =
              Group000Consume.trace w3 ++ [EvSendErr (chan_id chErr) e]) /\
         (forall w4, step 0 w3 w4 ->
            exists pcw',
              Group000Consume.tasks w4 !! 0%nat =
                Some (Group000Consume.Watchdog k c chErr pcw') /\
              (Group000Consume.watchdog_rank pcw'
               < Group000Consume.watchdog_rank pcw)%nat)) /\
      (exists pcs,
         Group000Consume.tasks w3 !! 1%nat =
           Some (Group000Consume.SessionLoop k c chMsg chErr pcs) /\
         (forall w4, step 1 w3 w4 ->
            exists pcs',
              Group000Consume.tasks w4 !! 1%nat =
                Some (Group000Consume.SessionLoop k c chMsg chErr pcs')) /\
         (pcs = Group000Consume.SIdle ->
          exists w4,
            step 1 w3 w4 /\
            Group000Consume.tasks w4 !! 1%nat =
              Some (Group000Consume.SessionLoop k c chMsg chErr
                      (Group000Consume.SConsume h))) /\
         (forall h' e,
            pcs = Group000Consume.SConsume h' ->
            exists w4,
              step 1 w3 w4 /\
              Group000Consume.tasks w4 !! 1%nat =
                Some (Group000Consume.SessionLoop k c chMsg chErr
                        (Group000Consume.SSendErr e))) /\
         (forall e w4,
            pcs = Group000Consume.SSendErr e -> step 1 w3 w4 ->
            Group000Consume.tasks w4 !! 1%nat =
              Some (Group000Consume.SessionLoop k c chMsg chErr
                      Group000Consume.SIdle) /\
            Group000Consume.trace w4 =
              Group000Consume.trace w3 ++ [EvSendErr (chan_id chErr) (Some e)])).
Proof.
  intros Hts HC1 R1 k h.
  destruct (Group000_Consume_success _ _ _ _ _ _ HC1)
    as (cns & Hc & Hheap1 & Hctx1 & Hcgs1 & _ & Hts1).
  fold k h in Hheap1, Hts1.
  rewrite Hts in Hts1. simpl in Hts1.
  pose proof (lookup_lt_Some _ _ _ Hc) as Hlt.
  assert (owned_by c w1) as Hown1.
  { unfold owned_by. rewrite Hts1. by repeat constructor. }
  destruct (Group000_sched_frame _ _ _ Hown1 R1) as (Hown1' & HH1 & HX1 & HL1 & _ & _).
  assert (Group000Consume.heap w1' !! c =
            Some (Group000Consume.set_cg (Group000Consume.set_cnl cns (Some k)) (Some h)))
    as Hc1.
  { rewrite HH1, Hheap1. by apply list_lookup_insert_eq. }
  destruct (Group000_sched_tasks 0 _ _ R1) as [W1 _].
  destruct (W1 k c chErr Group000Consume.WStart) as (pcw1 & Hw1); [by rewrite Hts1|].
  destruct (Group000_sched_tasks 1 _ _ R1) as [_ S1].
  destruct (S1 k c chMsg chErr Group000Consume.SIdle) as (pcs1 & Hs1);
    [by rewrite Hts1|].
  assert (k < length (Group000Consume.ctxs w1'))%nat as Hk.
  { rewrite HX1, Hctx1, length_app; simpl. unfold k. lia. }
  assert (h < length (Group000Consume.cgs w1'))%nat as Hh.
  { rewrite HL1, Hcgs1, length_app; simpl. unfold h. lia. }
  unfold Group000Consume.Close. rewrite Hc1. simpl.
  assert (forall e : option error,
            exists w2 err,
              match e with
              | Some e0 =>
                  Returns
                    (Group000Consume.set_cgs
                       (Group000Consume.set_ctxs w1'
                          (cancel (Group000Consume.ctxs w1') k))
                       (<[h := true]> (Group000Consume.cgs w1')),
                     Some (Errorf_w "failed to close consumer: " e0))
              | None =>
                  Returns
                    (Group000Consume.set_cgs
                       (Group000Consume.set_ctxs w1'
                          (cancel (Group000Consume.ctxs w1') k))
                       (<[h := true]> (Group000Consume.cgs w1')), None)
              end = Returns (w2, err) /\
              w2 = Group000Consume.set_cgs
                     (Group000Consume.set_ctxs w1'
                        (cancel (Group000Consume.ctxs w1') k))
                     (<[h := true]> (Group000Consume.cgs w1'))) as Hcases.
  { intros [e|]; by eexists _, _. }
  destruct (Hcases (sarama_cg_Close h
                      (Group000Consume.cg_closed
                         (Group000Consume.set_ctxs w1'
                            (cancel (Group000Consume.ctxs w1') k)) h)))
    as (w2 & err & Heq & Hw2).
  exists w2, err. split; [exact Heq|]. subst w2. simpl.
  split; [done|]. split; [done|]. intros w3 R3.
  set (w2 := Group000Consume.set_cgs _ _) in R3.
  assert (owned_by c w2) as Hown2 by done.
  destruct (Group000_sched_frame _ _ _ Hown2 R3) as (_ & HH3 & HX3 & _ & HM3 & _).
  assert (read_cg w3 c = Some h) as Hread3.
  { unfold Group000Consume.read_cg. rewrite HH3. simpl. by rewrite Hc1. }
  assert (ctx_done (Group000Consume.ctxs w3) k = true) as Hdone.
  { rewrite HX3. simpl. unfold ctx_done, cancel.
    by rewrite list_lookup_insert_eq. }
  split; [done|]. split.
  { apply HM3. unfold Group000Consume.cg_closed; simpl.
    by rewrite list_lookup_insert_eq. }
  destruct (Group000_sched_tasks 0 _ _ R3) as [W3 _].
  destruct (W3 k c chErr pcw1 Hw1) as (pcw3 & Hw3).
  destruct (Group000_sched_tasks 1 _ _ R3) as [_ S3].
  destruct (S3 k c chMsg chErr pcs1 Hs1) as (pcs3 & Hs3).
  pose proof (lookup_lt_Some _ _ _ Hw3) as Hlt0.
  pose proof (lookup_lt_Some _ _ _ Hs3) as Hlt1.
  split.
  - exists pcw3. split; [done|]. split_and!.
    + intros ->. eexists. split.
      * by eapply Group000Consume.step_watchdog_start.
      * simpl. by rewrite list_lookup_insert_eq.
    + intros h' ->. eexists. split.
      * by eapply Group000Consume.step_watchdog_done.
      * simpl. rewrite Hread3. simpl.
        by rewrite list_lookup_insert_eq.
    + intros e w4 -> Hstep.
      inversion Hstep; subst; simpl;
        match goal with
        | H1 : ?l !! ?i = Some _, H2 : ?l !! ?i = Some _ |- _ =>
            rewrite H1 in H2; inversion H2; subst; clear H2
        end.
      by rewrite list_lookup_insert_eq.
    + intros w4 Hstep.
      inversion Hstep; subst; simpl;
        match goal with
        | H1 : ?l !! ?i = Some _, H2 : ?l !! ?i = Some _ |- _ =>
            rewrite H1 in H2; inversion H2; subst; clear H2
        end;
        rewrite list_lookup_insert_eq by (eapply lookup_lt_Some; eauto);
        eexists; split; try done; simpl; lia.
  - exists pcs3. split; [done|]. split_and!.
    + intros w4 Hstep.
      inversion Hstep; subst; simpl;
        match goal with
        | H1 : ?l !! ?i = Some _, H2 : ?l !! ?i = Some _ |- _ =>
            rewrite H1 in H2; inversion H2; subst; clear H2
        end;
        rewrite ?list_lookup_insert_eq by done; eauto.
    + intros ->. eexists. split.
      * by eapply Group000Consume.step_session_enter.
      * simpl. by rewrite list_lookup_insert_eq.
    + intros h' e ->. eexists. split.
      * by eapply Group000Consume.step_session_err with (err := e).
      * simpl. by rewrite list_lookup_insert_eq.
    + intros e w4 -> Hstep.
      inversion Hstep; subst; simpl;
        match goal with
        | H1 : ?l !! ?i = Some _, H2 : ?l !! ?i = Some _ |- _ =>
            rewrite H1 in H2; inversion H2; subst; clear H2
        end.
      by rewrite list_lookup_insert_eq.
Qed.

End Group000Runtime.

(* ===================================================================== *)
(** ** Runs of the consumer of part_000 *)
(* ===================================================================== *)

Module Runs000.
Import Go Kafka Example.

Local Abbreviation world := (@Group000Consume.world unit unit (list Byte.byte)).

Definition NewConsumerGroup (brokers : list string) (group : string)
    (cfg : option unit) : option error := None.
Definition ClaimMessage (m : ConsumerMessage) (dec : option unit) (sess : bool)
    : result (list Byte.byte) := Example.ClaimMessage dec m sess.

Definition Consume :=
  @Group000Consume.Consume unit unit (list Byte.byte) NewConsumerGroup.
Definition Close := @Group000Consume.Close unit unit (list Byte.byte) cg_Close.
Definition step := @Group000Consume.step unit unit _ cg_Close ClaimMessage.
Definition sched := @Group000Consume.sched unit unit _ cg_Close ClaimMessage.

(** The world in which [Create] has put the consumer at address 0, and
    the worlds after a first and after a second [Consume]. *)
Definition created : world := Group000Consume.init group000_consumer.

Definition consumed : world :=
  Group000Consume.mkWorld [false] [false] 2
    [Group000Consume.set_cg (Group000Consume.set_cnl group000_consumer (Some 0%nat))
       (Some 0%nat)]
    [Group000Consume.Watchdog 0 0 (mkChan 1 0) Group000Consume.WStart;
     Group000Consume.SessionLoop 0 0 (mkChan 0 0) (mkChan 1 0) Group000Consume.SIdle]
    [].

Lemma Consume_created :
  Consume 0 0 created = Returns (consumed, (Some (mkChan 0 0), Some (mkChan 1 0), None)).
Proof. reflexivity. Qed.

(** *** X14: Consume, Consume again *)

Lemma Group000_second_Consume_orphans_the_first_client_witness :
  exists w2 chMsg' chErr',
    Consume 0 0 consumed = Returns (w2, (Some chMsg', Some chErr', None)) /\
    Group000Consume.read_cg w2 0 = Some 1%nat /\
    Group000Consume.cgs w2 !! 0%nat = Some false /\
    (forall i ctx qm qe w4,
       Group000Consume.tasks w2 !! i =
         Some (Group000Consume.SessionLoop ctx 0 qm qe Group000Consume.SIdle) ->
       step i w2 w4 ->
       Group000Consume.tasks w4 !! i =
         Some (Group000Consume.SessionLoop ctx 0 qm qe
                 (Group000Consume.SConsume 1))) /\
    (exists pcs,
       Group000Consume.tasks w2 !! 1%nat =
         Some (Group000Consume.SessionLoop 0 0 (mkChan 0 0) (mkChan 1 0) pcs)) /\
    exists w4 err,
      Close 0 w2 = Returns (w4, err) /\
      Group000Consume.cg_closed w4 1 = true /\
      Group000Consume.cgs w4 !! 0%nat = Some false.
Proof.
  eexists _, _, _. split; [reflexivity|].
  apply (@Group000_second_Consume_orphans_the_first_client unit unit
           (list Byte.byte) NewConsumerGroup cg_Close ClaimMessage 0 0 0
           created consumed consumed _ _ (mkChan 0 0) (mkChan 1 0) _ _
           eq_refl Consume_created (rtc_refl _ _) eq_refl (rtc_refl _ _)).
Defined.

(** *** X15: an error of the first client *)

Lemma Group000_error_of_first_client_closes_the_second_witness :
  exists w1',
    rtc sched consumed w1' /\
    Group000Consume.tasks w1' !! 0%nat =
      Some (Group000Consume.Watchdog 0 0 (mkChan 1 0) (Group000Consume.WSelect 0)) /\
    exists w2 chMsg' chErr' w3,
      Consume 0 0 w1' = Returns (w2, (Some chMsg', Some chErr', None)) /\
      rtc sched w2 w3 /\
      Group000Consume.trace w3 =
        Group000Consume.trace w2 ++
        [EvClientError (Some (errorString "lost"));
         EvSendErr 1 (Some (errorString "lost"))] /\
      Group000Consume.read_cg w3 0 = Some 1%nat /\
      Group000Consume.cg_closed w3 1 = true /\
      Group000Consume.cg_closed w3 0 = false.
Proof.
  destruct (@Group000_error_of_first_client_closes_the_second unit unit
              (list Byte.byte) NewConsumerGroup cg_Close ClaimMessage 0 0
              created consumed (mkChan 0 0) (mkChan 1 0) eq_refl Consume_created)
    as (w1' & R1 & Hw & H).
  exists w1'. split; [exact R1|]. split; [exact Hw|].
  destruct (Consume 0 0 w1') as [[w2 [[[chMsg'|] [chErr'|]] [e|]]]|] eqn:HC;
    try (exfalso;
         apply (Group000_sched_frame cg_Close ClaimMessage consumed w1' 0) in R1
           as (_ & HH & _); [|by repeat constructor];
         unfold Consume, Group000Consume.Consume in HC; rewrite HH in HC;
         simpl in HC; unfold make_chan in HC; simpl in HC; by inversion HC).
  destruct (H 0%nat w2 chMsg' chErr' (Some (errorString "lost")) HC)
    as (w3 & R3 & T3 & _ & H3 & H4 & H5).
  exists w2, chMsg', chErr', w3. by split_and!.
Defined.

(** *** X16: Consume, then Close *)

Lemma Group000_Close_ends_the_watchdog_only_witness :
  exists w2 err,
    Close 0 consumed = Returns (w2, err) /\
    Group000Consume.tasks w2 = Group000Consume.tasks consumed /\
    Group000Consume.trace w2 = Group000Consume.trace consumed /\
    forall w3,
      rtc sched w2 w3 ->
      ctx_done (Group000Consume.ctxs w3) 0 = true /\
      Group000Consume.cg_closed w3 0 = true /\
      (exists pcw,
         Group000Consume.tasks w3 !! 0%nat =
           Some (Group000Consume.Watchdog 0 0 (mkChan 1 0) pcw) /\
         (pcw = Group000Consume.WStart ->
          exists w4,
            step 0 w3 w4 /\
            Group000Consume.tasks w4 !! 0%nat =
              Some (Group000Consume.Watchdog 0 0 (mkChan 1 0)
                      (Group000Consume.WSelect 0))) /\
         (forall h',
            pcw = Group000Consume.WSelect h' ->
            exists w4,
              step 0 w3 w4 /\
              Group000Consume.tasks w4 !! 0%nat =
                Some (Group000Consume.Watchdog 0 0 (mkChan 1 0)
                        Group000Consume.WReturned) /\
              Group000Consume.trace w4 = Group000Consume.trace w3) /\
         (forall e w4,
            pcw = Group000Consume.WSendErr e -> step 0 w3 w4 ->
            Group000Consume.tasks w4 !! 0%nat =
              Some (Group000Consume.Watchdog 0 0 (mkChan 1 0)
                      Group000Consume.WReturned) /\
            Group000Consume.trace w4 =
              Group000Consume.trace w3 ++ [EvSendErr 1 e]) /\
         (forall w4, step 0 w3 w4 ->
            exists pcw',
              Group000Consume.tasks w4 !! 0%nat =
                Some (Group000Consume.Watchdog 0 0 (mkChan 1 0) pcw') /\
              (Group000Consume.watchdog_rank pcw'
               < Group000Consume.watchdog_rank pcw)%nat)) /\
      (exists pcs,
         Group000Consume.tasks w3 !! 1%nat =
           Some (Group000Consume.SessionLoop 0 0 (mkChan 0 0) (mkChan 1 0) pcs) /\
         (forall w4, step 1 w3 w4 ->
            exists pcs',
              Group000Consume.tasks w4 !! 1%nat =
                Some (Group000Consume.SessionLoop 0 0 (mkChan 0 0) (mkChan 1 0) pcs')) /\
         (pcs = Group000Consume.SIdle ->
          exists w4,
            step 1 w3 w4 /\
            Group000Consume.tasks w4 !! 1%nat =
              Some (Group000Consume.SessionLoop 0 0 (mkChan 0 0) (mkChan 1 0)
                      (Group000Consume.SConsume 0))) /\
         (forall h' e,
            pcs = Group000Consume.SConsume h' ->
            exists w4,
              step 1 w3 w4 /\
              Group000Consume.tasks w4 !! 1%nat =
                Some (Group000Consume.SessionLoop 0 0 (mkChan 0 0) (mkChan 1 0)
                        (Group000Consume.SSendErr e))) /\
         (forall e w4,
            pcs = Group000Consume.SSendErr e -> step 1 w3 w4 ->
            Group000Consume.tasks w4 !! 1%nat =
              Some (Group000Consume.SessionLoop 0 0 (mkChan 0 0) (mkChan 1 0)
                      Group000Consume.SIdle) /\
            Group000Consume.trace w4 =
              Group000Consume.trace w3 ++ [EvSendErr 1 (Some e)])).
Proof.
  apply (@Group000_Close_ends_the_watchdog_only unit unit (list Byte.byte)
           NewConsumerGroup cg_Close ClaimMessage 0 0 created consumed consumed
           (mkChan 0 0) (mkChan 1 0) eq_refl Consume_created (rtc_refl _ _)).
Defined.

End Runs000.

(* ===================================================================== *)
(** ** The service builder *)
(* ===================================================================== *)

Section BuilderProperties.
Import Go.
Context {Route Middleware HealthCheck Component Handler Service Float : Type}.
Variable os_Hostname : result string.
Variable log_InfoLevel : string.
Variable jaeger_SamplerTypeProbabilistic : string.
Variable log_Setup : string -> gmap string string -> option error.
Variable strconv_ParseFloat : string -> result Float.
Variable float_zero : Float.
Variable strconv_ParseInt : string -> result Z.
Variable trace_Setup : string -> string -> string -> string -> Float -> option error.
Variable http_DefaultHealthCheck : HealthCheck.
Variable info_ImportDoc : string -> option error.
Variable errors_Aggregate : list error -> option error.
Variable http_New :
  list (@Patron.http_option Route Middleware HealthCheck) -> result Component.
Variable service_new : list Component -> option Handler -> result Service.
Variable service_Run : Service -> option error.

Local Abbreviation Builder :=
  (@Patron.Builder Route Middleware HealthCheck Component Handler).
Local Abbreviation process :=
  (@Patron.process Route Middleware HealthCheck Component Handler Service Float).
Local Abbreviation call :=
  (@Patron.call Route Middleware HealthCheck Component Handler Service Float).
Local Abbreviation Setup :=
  (Patron.Setup (Route := Route) (Middleware := Middleware)
     (HealthCheck := HealthCheck) (Component := Component) (Handler := Handler)
     (Service := Service) (Float := Float) os_Hostname log_InfoLevel log_Setup).
Local Abbreviation setupDefaultTracing :=
  (Patron.setupDefaultTracing (Route := Route) (Middleware := Middleware)
     (HealthCheck := HealthCheck) (Component := Component) (Handler := Handler)
     (Service := Service) jaeger_SamplerTypeProbabilistic strconv_ParseFloat
     float_zero trace_Setup).
Local Abbreviation New :=
  (Patron.New (Route := Route) (Middleware := Middleware)
     (Component := Component) (Handler := Handler) (Service := Service)
     os_Hostname log_InfoLevel jaeger_SamplerTypeProbabilistic log_Setup
     strconv_ParseFloat float_zero trace_Setup http_DefaultHealthCheck).
Local Abbreviation WithDocs :=
  (Patron.WithDocs (Route := Route) (Middleware := Middleware)
     (HealthCheck := HealthCheck) (Component := Component) (Handler := Handler)
     (Service := Service) (Float := Float) info_ImportDoc).
Local Abbreviation createHTTPComponent :=
  (Patron.createHTTPComponent (Handler := Handler) (Service := Service)
     (Float := Float) strconv_ParseInt http_New).
Local Abbreviation Run :=
  (Patron.Run (Float := Float) strconv_ParseInt errors_Aggregate http_New
     service_new service_Run).

(** One call of a [With...] method of the builder. *)
Inductive with_call : Type :=
| CRoutes (rr : option (list Route))
| CMiddlewares (mm : list Middleware)
| CHealthCheck (hcf : option HealthCheck)
| CComponents (cc : list Component)
| CDocs (file : string)
| CSIGHUP (handler : option Handler).

Definition with_ (c : with_call) (b : Builder) (p : process) : process * Builder :=
  match c with
  | CRoutes rr => (p, Patron.WithRoutes rr b)
  | CMiddlewares mm => (p, Patron.WithMiddlewares mm b)
  | CHealthCheck hcf => (p, Patron.WithHealthCheck hcf b)
  | CComponents cc => (p, Patron.WithComponents cc b)
  | CDocs file => WithDocs file b p
  | CSIGHUP handler => (p, Patron.WithSIGHUP handler b)
  end.

(** A chain of calls [b.With...(...).With...(...)], first call first. *)
Fixpoint chain (cs : list with_call) (b : Builder) (p : process)
    : process * Builder :=
  match cs with
  | [] => (p, b)
  | c :: cs => let '(p, b) := with_ c b p in chain cs b p
  end.

(** The text of the error a call records, if it records one. *)
Definition refused (c : with_call) : option string :=
  match c with
  | CRoutes rr =>
      if decide (Patron.len rr = 0%nat) then Some "routes are empty" else None
  | CMiddlewares mm =>
      if decide (length mm = 0%nat) then Some "middlewares are empty" else None
  | CHealthCheck hcf =>
      match hcf with None => Some "health check function is nil" | Some _ => None end
  | CComponents cc =>
      if decide (length cc = 0%nat) then Some "components are empty" else None
  | CDocs file =>
      match info_ImportDoc file with
      | Some _ => Some "failed to import doc file"
      | None => None
      end
  | CSIGHUP handler =>
      match handler with None => Some "sighub handler is nil" | Some _ => None end
  end.

Lemma with_errors c (b : Builder) (p : process) :
  Patron.errors (with_ c b p).2 =
    Patron.errors b ++ map Errors.New (Patron.opt_to_list (refused c)).
Proof.
  destruct c as [rr|mm|hcf|cc|file|handler]; simpl;
    unfold Patron.WithRoutes, Patron.WithMiddlewares, Patron.WithHealthCheck,
      Patron.WithComponents, Patron.WithDocs, Patron.WithSIGHUP;
    repeat case_decide; simpl; rewrite ?app_nil_r; try done.
  - destruct hcf; simpl; by rewrite ?app_nil_r.
  - destruct (info_ImportDoc file); simpl; by rewrite ?app_nil_r.
  - destruct handler; simpl; by rewrite ?app_nil_r.
Qed.

Lemma with_env c (b : Builder) (p : process) :
  Patron.env (with_ c b p).1 = Patron.env p.
Proof.
  destruct c; simpl; try done.
  unfold Patron.WithDocs. by destruct (info_ImportDoc file).
Qed.

Lemma chain_errors cs (b : Builder) (p : process) :
  Patron.errors (chain cs b p).2 =
    Patron.errors b ++ map Errors.New (omap refused cs).
Proof.
  revert b p; induction cs as [|c cs IH]; intros b p; simpl.
  - by rewrite app_nil_r.
  - pose proof (with_errors c b p) as Hc.
    destruct (with_ c b p) as [p1 b1]; simpl in *.
    rewrite IH, Hc, <- app_assoc. f_equal.
    by destruct (refused c).
Qed.

Lemma chain_env cs (b : Builder) (p : process) :
  Patron.env (chain cs b p).1 = Patron.env p.
Proof.
  revert b p; induction cs as [|c cs IH]; intros b p; simpl; [done|].
  pose proof (with_env c b p) as Hc.
  destruct (with_ c b p) as [p1 b1]; simpl in *.
  by rewrite IH.
Qed.

(** X17.  The builder never forgets an error.  After [New] and any chain
    of [With...] calls the recorded errors are those of [New] followed by
    one error per refused call, in call order.  When the name is empty,
    [New] has called nothing and has recorded "name is required"; and
    when the name is empty or some call was refused, [Run] returns the
    aggregate of the recorded errors, of which there is at least one, and
    does nothing else: no call is made and the builder is unchanged. *)
Theorem Run_refuses_recorded_errors (name version : string) cs
    (p p1 p2 : process) (b1 b2 : Builder) :
  New name version p = (p1, b1) ->
  chain cs b1 p1 = (p2, b2) ->
  Patron.errors b2 = Patron.errors b1 ++ map Errors.New (omap refused cs) /\
  (name = "" -> p1 = p /\ Patron.errors b1 = [Errors.New "name is required"]) /\
  (name = "" \/ (exists c, c ∈ cs /\ refused c <> None) ->
   Patron.errors b2 <> [] /\
   Run b2 p2 = (p2, b2, errors_Aggregate (Patron.errors b2))).
Proof.
  intros HN HC.
  pose proof (chain_errors cs b1 p1) as Hch. rewrite HC in Hch; simpl in Hch.
  split; [done|].
  assert (name = "" -> p1 = p /\ Patron.errors b1 = [Errors.New "name is required"])
    as Hname.
  { intros ->. unfold Patron.New in HN. simpl in HN. by inversion HN. }
  split; [done|]. intros Hbad.
  assert (Patron.errors b2 <> []) as Hne.
  { rewrite Hch. destruct Hbad as [Hn|(c & Hin & Hc)].
    - destruct (Hname Hn) as [_ ->]. done.
    - intros Hnil. apply app_eq_nil in Hnil as [_ Hnil].
      apply fmap_nil_inv in Hnil.
      destruct (refused c) as [text|] eqn:Hr; [|done].
      assert (text ∈ omap refused cs) as Hin'
        by (apply list_elem_of_omap; eauto).
      rewrite Hnil in Hin'. by apply elem_of_nil in Hin'. }
  split; [done|]. unfold Patron.Run.
  case_decide as Hlen; [done|].
  destruct (Patron.errors b2); simpl in *; [done|lia].
Qed.

(** *** The builder that [Run] accepts *)

(** What holds of a builder with no recorded error that was made for the
    name [n]. *)
Definition well_formed (n : string) (b : Builder) : Prop :=
  Patron.errors b = [] ->
  Patron.name b = n /\ n <> "" /\ Patron.version b <> "" /\
  (exists hcf, Patron.healthCheck b = Some hcf) /\
  (forall rr, Patron.routes b = Some rr -> rr <> []).

Lemma Setup_env n v (p : process) : Patron.env (Setup n v p).1 = Patron.env p.
Proof.
  unfold Patron.Setup. destruct os_Hostname; [|done]. simpl.
  by destruct (Patron.logSetupOnce p).
Qed.

Lemma setupDefaultTracing_env n v (p : process) :
  Patron.env (setupDefaultTracing n v p).1 = Patron.env p.
Proof.
  unfold Patron.setupDefaultTracing. simpl.
  destruct (Patron.env p !! _); [|done].
  by destruct (strconv_ParseFloat _).
Qed.

Lemma New_env n v (p : process) : Patron.env (New n v p).1 = Patron.env p.
Proof.
  unfold Patron.New. case_decide; [done|].
  pose proof (Setup_env n (if decide (v = "") then "dev" else v) p) as H1.
  destruct (Patron.Setup _ _ _ _ _ _) as [p1 e1]; simpl in *.
  pose proof (setupDefaultTracing_env n (if decide (v = "") then "dev" else v)
                (Patron.did (Patron.info_UpdateVersion (if decide (v = "") then "dev" else v))
                   (Patron.did (Patron.info_UpdateName n) p1))) as H2.
  destruct (Patron.setupDefaultTracing _ _ _ _ _ _ _) as [p2 e2]; simpl in *.
  by rewrite H2.
Qed.

Lemma New_well_formed n v (p : process) : well_formed n (New n v p).2.
Proof.
  unfold Patron.New. case_decide as Hn; [done|].
  destruct (Patron.Setup _ _ _ _ _ _) as [p1 e1].
  destruct (Patron.setupDefaultTracing _ _ _ _ _ _ _) as [p2 e2]; simpl.
  intros _; simpl. split_and!; try done; [by case_decide|by eauto].
Qed.

Lemma with_well_formed n c (b : Builder) (p : process) :
  well_formed n b -> well_formed n (with_ c b p).2.
Proof.
  intros Hwf Herr. rewrite with_errors in Herr.
  apply app_eq_nil in Herr as [Hb Hc]. apply fmap_nil_inv in Hc.
  destruct (Hwf Hb) as (H1 & H2 & H3 & H4 & H5).
  destruct c as [rr|mm|hcf|cc|file|handler]; simpl in *;
    unfold Patron.WithRoutes, Patron.WithMiddlewares, Patron.WithHealthCheck,
      Patron.WithComponents, Patron.WithDocs, Patron.WithSIGHUP;
    repeat case_decide; try done; simpl.
  - split_and!; try done. intros rr' ->. simpl in *. by destruct rr'.
  - destruct hcf; [|done]. simpl. split_and!; try done. by eauto.
  - by destruct (info_ImportDoc file).
  - by destruct handler.
Qed.

Lemma chain_well_formed n cs (b : Builder) (p : process) :
  well_formed n b -> well_formed n (chain cs b p).2.
Proof.
  revert b p; induction cs as [|c cs IH]; intros b p Hwf; simpl; [done|].
  pose proof (with_well_formed n c b p Hwf) as Hc.
  destruct (with_ c b p) as [p1 b1]; simpl in *. by apply IH.
Qed.

Lemma setupInfo_calls (b : Builder) (p : process) :
  Patron.calls (Patron.setupInfo b p) =
    Patron.calls p ++ map Patron.info_AppendComponent (Patron.components b).
Proof.
  unfold Patron.setupInfo. generalize (Patron.components b) as cc.
  intros cc; revert p; induction cc as [|c cc IH]; intros p; simpl.
  - by rewrite app_nil_r.
  - rewrite IH. simpl. by rewrite <- app_assoc.
Qed.

Lemma setupInfo_env (b : Builder) (p : process) :
  Patron.env (Patron.setupInfo b p) = Patron.env p.
Proof.
  unfold Patron.setupInfo. generalize (Patron.components b) as cc.
  intros cc; revert p; induction cc as [|c cc IH]; intros p; simpl; [done|].
  by rewrite IH.
Qed.

(** What [Run] calls when no error is recorded and the port variable is
    not set: [http.New] with the options [options], then, when the
    component [cmp] could be made, [info.AppendComponent] for every
    component, [new] and, when the service could be made, its [Run]; and
    [trace.Close] last. *)
Definition Run_calls (b : Builder) (options : list Patron.http_option)
    : list call :=
  [Patron.http_NewCalled options] ++
  match http_New options with
  | Err _ => []
  | Ok cmp =>
      map Patron.info_AppendComponent (Patron.components b ++ [cmp]) ++
      [Patron.service_newCalled (Patron.components b ++ [cmp])
         (Patron.sighupHandler b)] ++
      match service_new (Patron.components b ++ [cmp]) (Patron.sighupHandler b) with
      | Err _ => []
      | Ok s => [Patron.service_RunCalled s]
      end
  end ++
  [Patron.trace_Close].

Lemma Run_default_port (b : Builder) (p : process) :
  Patron.errors b = [] ->
  Patron.env p !! "PATRON_HTTP_DEFAULT_PORT" = None ->
  Patron.calls (Run b p).1.1 =
    Patron.calls p ++ Run_calls b (Patron.http_options b 50000) /\
  Patron.components (Run b p).1.2 =
    Patron.components b
    ++ match http_New (Patron.http_options b 50000) with
       | Ok cmp => [cmp]
       | Err _ => []
       end /\
  Patron.errors (Run b p).1.2 = [] /\
  Patron.http_options (Run b p).1.2 50000 = Patron.http_options b 50000 /\
  Patron.sighupHandler (Run b p).1.2 = Patron.sighupHandler b /\
  Patron.env (Run b p).1.1 = Patron.env p.
Proof.
  intros Herr Hport. unfold Patron.Run, Patron.createHTTPComponent, Run_calls.
  rewrite Herr, Hport. simpl.
  destruct (http_New _) as [cmp|err]; simpl.
  - destruct (service_new _ _) as [s|err]; simpl;
      rewrite setupInfo_calls, ?setupInfo_env; simpl;
      rewrite <- ?app_assoc; simpl; split_and!; try done;
      by rewrite <- ?app_assoc.
  - rewrite app_nil_r, <- app_assoc. by split_and!.
Qed.

(** X18.  The builder that [Run] accepts.  When no error is recorded
    after [New] and a chain of [With...] calls, the name is not empty,
    the version is not empty and the builder has a health check.  [Run]
    then, with the port variable not set, first makes the default HTTP
    component with the port 50000, then the health check, then the routes
    if [WithRoutes] was called, never empty, then the middlewares if there
    are any; it ends with [trace.Close], whatever fails in between; and
    when the port variable is set to something that is no number it
    returns the wrapped error and calls [trace.Close] only. *)
Theorem Run_of_accepted_builder (name version : string) cs
    (p p1 p2 : process) (b1 b2 : Builder) :
  New name version p = (p1, b1) ->
  chain cs b1 p1 = (p2, b2) ->
  Patron.errors b2 = [] ->
  exists hcf tail,
    name <> "" /\ Patron.name b2 = name /\ Patron.version b2 <> "" /\
    Patron.healthCheck b2 = Some hcf /\
    Patron.http_options b2 50000 =
      Patron.http_Port 50000 :: Patron.http_HealthCheck hcf :: tail /\
    (forall rr, Patron.http_Routes rr ∈ tail -> rr <> []) /\
    (forall mm, Patron.http_Middlewares mm ∈ tail -> mm <> []) /\
    (Patron.env p !! "PATRON_HTTP_DEFAULT_PORT" = None ->
     Patron.calls (Run b2 p2).1.1 =
       Patron.calls p2 ++ Run_calls b2 (Patron.http_options b2 50000)) /\
    (forall port err,
       Patron.env p !! "PATRON_HTTP_DEFAULT_PORT" = Some port ->
       strconv_ParseInt port = Err err ->
       Run b2 p2 =
         (Patron.did Patron.trace_Close p2, b2,
          Some (Errors.withMessage err "env var for HTTP default port is not valid"))).
Proof.
  intros HN HC Herr.
  pose proof (New_well_formed name version p) as Hwf. rewrite HN in Hwf.
  apply (chain_well_formed name cs b1 p1) in Hwf. rewrite HC in Hwf.
  destruct (Hwf Herr) as (H1 & H2 & H3 & (hcf & H4) & H5). simpl in *.
  assert (Patron.env p2 = Patron.env p) as Henv.
  { pose proof (chain_env cs b1 p1) as E1. rewrite HC in E1. simpl in E1.
    pose proof (New_env name version p) as E2. rewrite HN in E2. simpl in E2.
    by rewrite E1, E2. }
  exists hcf. eexists. split_and!; try done.
  - unfold Patron.http_options. rewrite H4. simpl. reflexivity.
  - intros rr Hin. destruct (Patron.routes b2) as [rr'|] eqn:Hr; simpl in Hin.
    + apply elem_of_cons in Hin as [Heq|Hin].
      * inversion Heq; subst. by apply H5.
      * case_decide; [|by apply elem_of_nil in Hin].
        apply list_elem_of_singleton in Hin. inversion Hin.
    + case_decide; [|by apply elem_of_nil in Hin].
      apply list_elem_of_singleton in Hin. inversion Hin.
  - intros mm Hin.
    assert (@Patron.http_Middlewares Route Middleware HealthCheck mm ∈
              (if decide (0 < length (Patron.middlewares b2))%nat
               then [Patron.http_Middlewares (Patron.middlewares b2)] else []))
      as Hin'.
    { destruct (Patron.routes b2); simpl in Hin; [|done].
      apply elem_of_cons in Hin as [Heq|Hin]; [inversion Heq|done]. }
    case_decide as Hlen; [|by apply elem_of_nil in Hin'].
    apply list_elem_of_singleton in Hin'. inversion Hin'; subst.
    intros Hnil. rewrite Hnil in Hlen. simpl in Hlen. lia.
  - intros Hport. apply Run_default_port; [done|by rewrite Henv].
  - intros port err Hport Hparse.
    unfold Patron.Run, Patron.createHTTPComponent.
    rewrite Herr, Henv, Hport, Hparse. done.
Qed.

(** *** Logging and tracing set-up *)

(** X19.  Logging is set up once in the life of the process.  Of two
    calls of [Setup], when the host name can be read, the first returns
    what [log.Setup] returns; the second does not call [log.Setup], for
    whatever names and versions, and returns nil even if the first
    returned an error. *)
Theorem Setup_sets_up_logging_once n1 v1 n2 v2 (p : process) hostname :
  os_Hostname = Ok hostname ->
  Patron.logSetupOnce p = false ->
  let lvl := Patron.LookupEnv_or p "PATRON_LOG_LEVEL" log_InfoLevel in
  let f : gmap string string :=
    {[ "srv" := n1; "ver" := v1; "host" := hostname ]} in
  exists p1 p2,
    Setup n1 v1 p = (p1, log_Setup lvl f) /\
    Setup n2 v2 p1 = (p2, None) /\
    Patron.calls p2 =
      Patron.calls p ++
      [Patron.info_UpsertConfig "log_level" lvl;
       Patron.info_UpdateHost hostname;
       Patron.log_SetupCalled lvl f;
       Patron.info_UpsertConfig "log_level" lvl;
       Patron.info_UpdateHost hostname] /\
    forall n3 v3, (Setup n3 v3 p2).2 = None.
Proof.
  intros Hh Honce lvl f. unfold Patron.Setup. rewrite Hh. simpl.
  rewrite Honce. simpl. eexists _, _. split_and!; try done.
  simpl. by rewrite <- ?app_assoc.
Qed.

(** X20.  The sampler parameter that is recorded is not the one that is
    used.  When the variable of the sampler parameter is set to a number,
    [setupDefaultTracing] hands that number to [trace.Setup] and returns
    what [trace.Setup] returns, but records "0.0" as the parameter in the
    configuration, whatever the variable holds; the agent it records and
    hands on is host, colon, port, each from its variable or the default.
    When the variable holds no number it returns the wrapped error and
    [trace.Setup] is not called. *)
Theorem tracing_records_the_default_parameter name version (p : process) prm :
  Patron.env p !! "PATRON_JAEGER_SAMPLER_PARAM" = Some prm ->
  let agent := Patron.LookupEnv_or p "PATRON_JAEGER_AGENT_HOST" "0.0.0.0"
               +:+ ":" +:+ Patron.LookupEnv_or p "PATRON_JAEGER_AGENT_PORT" "6831" in
  let tp := Patron.LookupEnv_or p "PATRON_JAEGER_SAMPLER_TYPE"
              jaeger_SamplerTypeProbabilistic in
  (forall prmVal,
     strconv_ParseFloat prm = Ok prmVal ->
     exists p',
       setupDefaultTracing name version p =
         (p', trace_Setup name version agent tp prmVal) /\
       Patron.calls p' =
         Patron.calls p ++
         [Patron.info_UpsertConfig "jaeger-agent" agent;
          Patron.info_UpsertConfig "jaeger-agent-sampler-type" tp;
          Patron.info_UpsertConfig "jaeger-agent-sampler-param" "0.0";
          Patron.trace_SetupCalled name version agent tp prmVal]) /\
  (forall err,
     strconv_ParseFloat prm = Err err ->
     exists p',
       setupDefaultTracing name version p =
         (p', Some (Errors.withMessage err
                      "env var for jaeger sampler param is not valid")) /\
       Patron.calls p' =
         Patron.calls p ++
         [Patron.info_UpsertConfig "jaeger-agent" agent;
          Patron.info_UpsertConfig "jaeger-agent-sampler-type" tp]).
Proof.
  intros Hprm agent tp. unfold Patron.setupDefaultTracing. simpl.
  rewrite Hprm. split.
  - intros prmVal ->. eexists. split; [reflexivity|]. simpl.
    by rewrite <- !app_assoc.
  - intros err ->. eexists. split; [reflexivity|]. simpl.
    by rewrite <- !app_assoc.
Qed.

End BuilderProperties.

(* ===================================================================== *)
(** ** A concrete platform and concrete services *)
(* ===================================================================== *)

Module Services.
Import Go.

(** Routes, middlewares, health checks and components are given by their
    names, a service by its components, and a float64 number in
    thousandths. *)
Local Abbreviation Builder := (@Patron.Builder string string string string unit).
Local Abbreviation process :=
  (@Patron.process string string string string unit (list string) Z).
Local Abbreviation http_option := (@Patron.http_option string string string).

Definition Hostname : result string := Ok "node-1".
Definition log_ok (lvl : string) (f : gmap string string) : option error := None.
Definition log_broken (lvl : string) (f : gmap string string) : option error :=
  Some (errorString "no log sink").
Definition ParseFloat (s : string) : result Z :=
  if decide (s = "0.5") then Ok 500 else Err (errorString "invalid syntax").
Definition ParseInt (s : string) : result Z :=
  if decide (s = "8080") then Ok 8080 else Err (errorString "invalid syntax").
Definition trace_Setup (name version agent tp : string) (prmVal : Z)
    : option error := None.
Definition ImportDoc (file : string) : option error :=
  if decide (file = "missing.md") then Some (errorString "no such file") else None.
Definition Aggregate (errs : list error) : option error :=
  match errs with
  | [] => None
  | _ => Some (errorString (String.concat "; " (map Error errs)))
  end.
Definition http_New (options : list http_option) : result string := Ok "http".
Definition service_new (cc : list string) (handler : option unit)
    : result (list string) := Ok cc.
Definition service_Run (s : list string) : option error := None.

(** A process that has just started, with an empty environment, and one
    whose environment sets the sampler parameter. *)
Definition boot : process := Patron.mkProcess ∅ false [].
Definition sampled : process :=
  Patron.mkProcess {[ "PATRON_JAEGER_SAMPLER_PARAM" := "0.5" ]} false [].

Definition New :=
  @Patron.New string string string string unit (list string) Z
    Hostname "info" "probabilistic" log_ok ParseFloat 0 trace_Setup "default".
Definition Run :=
  @Patron.Run string string string string unit (list string) Z
    ParseInt Aggregate http_New service_new service_Run.
Definition chain :=
  @chain string string string string unit (list string) Z ImportDoc.

(** *** X17: a builder without a name *)

Lemma Run_refuses_recorded_errors_witness :
  exists p1 b1 p2 b2,
    New "" "1.0" boot = (p1, b1) /\
    chain [CRoutes None; CHealthCheck (Some "ready"); CDocs "missing.md"] b1 p1
      = (p2, b2) /\
    p1 = boot /\
    Patron.errors b2 =
      [Errors.New "name is required"; Errors.New "routes are empty";
       Errors.New "failed to import doc file"] /\
    Run b2 p2 = (p2, b2, Aggregate (Patron.errors b2)).
Proof.
  eexists _, _, _, _. split; [reflexivity|]. split; [reflexivity|].
  destruct (@Run_refuses_recorded_errors string string string string unit
              (list string) Z Hostname "info" "probabilistic" log_ok ParseFloat 0
              ParseInt trace_Setup "default" ImportDoc Aggregate http_New
              service_new service_Run "" "1.0"
              [CRoutes None; CHealthCheck (Some "ready"); CDocs "missing.md"]
              boot _ _ _ _ eq_refl eq_refl) as (H1 & H2 & H3).
  destruct (H2 eq_refl) as [H4 _].
  destruct (H3 (or_introl eq_refl)) as [_ H5].
  split; [exact H4|]. split; [exact H1|exact H5].
Defined.

(** *** X18: a builder with routes and a middleware *)

Lemma Run_of_accepted_builder_witness :
  exists p1 b1 p2 b2,
    New "billing" "" boot = (p1, b1) /\
    chain [CRoutes (Some ["/pay"]); CMiddlewares ["auth"]] b1 p1 = (p2, b2) /\
    Patron.errors b2 = [] /\
    exists hcf tail,
      Patron.name b2 = "billing" /\ Patron.version b2 <> "" /\
      Patron.healthCheck b2 = Some hcf /\
      Patron.http_options b2 50000 =
        Patron.http_Port 50000 :: Patron.http_HealthCheck hcf :: tail /\
      (forall rr, Patron.http_Routes rr ∈ tail -> rr <> []) /\
      (forall mm, Patron.http_Middlewares mm ∈ tail -> mm <> []) /\
      Patron.calls (Run b2 p2).1.1 =
        Patron.calls p2 ++
        Run_calls http_New service_new b2 (Patron.http_options b2 50000).
Proof.
  eexists _, _, _, _. split; [reflexivity|]. split; [reflexivity|].
  split; [reflexivity|].
  destruct (@Run_of_accepted_builder string string string string unit
              (list string) Z Hostname "info" "probabilistic" log_ok ParseFloat 0
              ParseInt trace_Setup "default" ImportDoc Aggregate http_New
              service_new service_Run "billing" ""
              [CRoutes (Some ["/pay"]); CMiddlewares ["auth"]]
              boot _ _ _ _ eq_refl eq_refl eq_refl)
    as (hcf & tail & _ & H2 & H3 & H4 & H5 & H6 & H7 & H8 & _).
  exists hcf, tail. split_and!;
    [exact H2|exact H3|exact H4|exact H5|exact H6|exact H7|exact (H8 eq_refl)].
Defined.

(** *** X19: a log sink that cannot be set up *)

Lemma Setup_sets_up_logging_once_witness :
  exists p1 p2,
    @Patron.Setup string string string string unit (list string) Z
      Hostname "info" log_broken "billing" "1.0" boot
      = (p1, Some (errorString "no log sink")) /\
    @Patron.Setup string string string string unit (list string) Z
      Hostname "info" log_broken "orders" "2.0" p1 = (p2, None) /\
    length (Patron.calls p2) = 5%nat.
Proof.
  destruct (@Setup_sets_up_logging_once string string string string unit
              (list string) Z Hostname "info" log_broken
              "billing" "1.0" "orders" "2.0" boot "node-1" eq_refl eq_refl)
    as (p1 & p2 & H1 & H2 & H3 & _).
  exists p1, p2. split; [exact H1|]. split; [exact H2|].
  rewrite H3. reflexivity.
Defined.

(** *** X20: a sampler parameter of 0.5 *)

Lemma tracing_records_the_default_parameter_witness :
  exists p',
    @Patron.setupDefaultTracing string string string string unit (list string) Z
      "probabilistic" ParseFloat 0 trace_Setup "billing" "1.0" sampled
      = (p', None) /\
    Patron.calls p' =
      [Patron.info_UpsertConfig "jaeger-agent" "0.0.0.0:6831";
       Patron.info_UpsertConfig "jaeger-agent-sampler-type" "probabilistic";
       Patron.info_UpsertConfig "jaeger-agent-sampler-param" "0.0";
       Patron.trace_SetupCalled "billing" "1.0" "0.0.0.0:6831" "probabilistic" 500].
Proof.
  assert (Patron.env sampled !! "PATRON_JAEGER_SAMPLER_PARAM" = Some "0.5") as Hprm
    by (vm_compute; reflexivity).
  destruct (@tracing_records_the_default_parameter string string string string
              unit (list string) Z "probabilistic" ParseFloat 0 trace_Setup
              "billing" "1.0" sampled "0.5" Hprm) as [H _].
  destruct (H 500 eq_refl) as (p' & H1 & H2).
  exists p'. split; [exact H1|]. rewrite H2. vm_compute. reflexivity.
Defined.

End Services.
